(** * NL2SQL: schema extraction and hybrid retrieval

    A shallow embedding of the schema analyzer ([src/models/analyzer.ts]),
    the embedding index ([src/rag/vector-search.ts]) and the hybrid
    retrieval engine ([src/rag/hybrid-retrieval.ts]), followed by the
    properties of the specification that concern them, and by further
    properties of these files, of the cleaning of the language model's
    answer ([src/llm/openrouter.ts]) and of the chat history
    ([src/cli/chat.ts]).

    Modelling conventions.
    - A JavaScript string is a [string]; the text is taken to be ASCII, so
      [toLowerCase] only moves [A-Z] and the classes [\w] and [\s] are the
      ASCII ones.
    - A JavaScript [Map] that is only read through [get] and merged entry by
      entry is a [gmap]; a [Map] or [Set] whose iteration order is observed
      is an insertion-ordered list.
    - JavaScript numbers (similarity scores) are rationals; a count
      ([topK]) is an integer.
    - Exceptions are values of a result type; [console.warn] and
      [console.error] output is a list of diagnostics returned next to the
      result; progress messages ([console.log]) are left out.
    - The Babel parser, the scope pass with which Babel's [traverse]
      begins, the embedding model, [Number.prototype.toFixed] and
      [path.join]/[path.dirname] are external: they are parameters of the
      functions that call them, and so is the language model.  The
      embedding model is taken to answer every call, and every listed file
      to be readable. *)

From Stdlib Require Import Ascii String List Bool Arith ZArith QArith Qround Lia.
From Stdlib Require Import DecimalString.
From stdpp Require Import base option list strings gmap.

Local Open Scope list_scope.
Set Warnings "-register-all".

(** ** JavaScript strings *)

Module Js.

Definition chars (s : string) : list ascii := list_ascii_of_string s.
Definition str (l : list ascii) : string := string_of_list_ascii l.

Definition code (c : ascii) : nat := nat_of_ascii c.

(** [\w] is [[A-Za-z0-9_]]. *)
Definition is_word (c : ascii) : bool :=
  let n := code c in
  ((65 <=? n) && (n <=? 90)) || ((97 <=? n) && (n <=? 122))
  || ((48 <=? n) && (n <=? 57)) || (n =? 95).

(** [\s] on ASCII text: tab, line feed, vertical tab, form feed, carriage
    return and space. *)
Definition is_space (c : ascii) : bool :=
  let n := code c in ((9 <=? n) && (n <=? 13)) || (n =? 32).

Definition lower_char (c : ascii) : ascii :=
  let n := code c in
  if (65 <=? n) && (n <=? 90) then ascii_of_nat (n + 32) else c.

Definition toLowerCase (s : string) : string := str (map lower_char (chars s)).

Definition length (s : string) : nat := String.length s.

(** [s.replace(/C/g, r)] for a one-character class [C]. *)
Definition replace_class (p : ascii -> bool) (r : list ascii) (s : string) : string :=
  str (flat_map (fun c => if p c then r else [c]) (chars s)).

(** [s.split(/\s+/)]: a run of white space separates two pieces, so white
    space at either end yields an empty first or last piece. *)
Fixpoint split_ws_go (cur : list ascii) (skipping : bool) (s : list ascii)
  : list string :=
  match s with
  | [] => [str (rev cur)]
  | c :: s' =>
      if is_space c
      then if skipping then split_ws_go cur true s'
           else str (rev cur) :: split_ws_go [] true s'
      else split_ws_go (c :: cur) false s'
  end.

Definition split_ws (s : string) : list string := split_ws_go [] false (chars s).

Fixpoint is_prefix (p s : list ascii) : bool :=
  match p, s with
  | [], _ => true
  | _ :: _, [] => false
  | a :: p', b :: s' => if ascii_dec a b then is_prefix p' s' else false
  end.

Fixpoint includes_chars (s k : list ascii) : bool :=
  is_prefix k s || match s with [] => false | _ :: s' => includes_chars s' k end.

(** [s.includes(k)]. *)
Definition includes (s k : string) : bool := includes_chars (chars s) (chars k).

(** [s.endsWith(k)]. *)
Definition endsWith (s k : string) : bool :=
  is_prefix (rev (chars k)) (rev (chars s)).

(** [parts.join(sep)]. *)
Fixpoint join (sep : string) (parts : list string) : string :=
  match parts with
  | [] => ""
  | [p] => p
  | p :: ps => p +:+ sep +:+ join sep ps
  end.

(** [s.slice(start, end)] for non-negative offsets. *)
Definition slice (s : string) (start end_ : nat) : string :=
  str (take (end_ - start) (drop start (chars s))).

(** [l.slice(0, end)] on an array, for an integer [end]: a negative [end]
    counts from the end of the array. *)
Definition slice_to {A} (l : list A) (end_ : Z) : list A :=
  if (end_ <? 0)%Z then take (List.length l - Z.to_nat (- end_)) l
  else take (Z.to_nat end_) l.

Fixpoint drop_ws (s : list ascii) : list ascii :=
  match s with
  | c :: s' => if is_space c then drop_ws s' else s
  | [] => []
  end.

(** [s.trim()]. *)
Definition trim (s : string) : string :=
  str (rev (drop_ws (rev (drop_ws (chars s))))).

(** Truthiness of a possibly undefined string: [undefined] and the empty
    string are falsy. *)
Definition truthy (o : option string) : bool :=
  match o with
  | Some s => negb (String.eqb s "")
  | None => false
  end.

(** [o || d] for a possibly undefined string [o]. *)
Definition or_else (o : option string) (d : string) : string :=
  match o with
  | Some s => if String.eqb s "" then d else s
  | None => d
  end.

End Js.

(** ** Regular expressions

    The patterns of the analyzer are built from literal characters,
    one-character classes, greedy [*] and [+] over a class, a greedy optional
    group and capturing groups.  [matches r s] lists every way [r] matches a
    prefix of [s], in the order in which a backtracking matcher tries them;
    the match the engine reports is the first one. *)

Module Regex.

Inductive regex : Type :=
| Chr (c : ascii)
| Cls (p : ascii -> bool)
| Cat (r1 r2 : regex)
| Star (p : ascii -> bool)
| Plus (p : ascii -> bool)
| Opt (r : regex)
| Group (n : nat) (r : regex).

Record result : Type := Result {
  consumed : list ascii;
  rest : list ascii;
  groups : list (nat * list ascii)
}.

(** All the ways the greedy [C*] consumes a prefix, longest first. *)
Fixpoint star_runs (p : ascii -> bool) (s : list ascii)
  : list (list ascii * list ascii) :=
  match s with
  | c :: s' =>
      if p c
      then map (fun ar => (c :: fst ar, snd ar)) (star_runs p s') ++ [([], s)]
      else [([], s)]
  | [] => [([], [])]
  end.

Definition is_nil {A} (l : list A) : bool :=
  match l with [] => true | _ => false end.

Fixpoint matches (r : regex) (s : list ascii) : list result :=
  match r with
  | Chr c =>
      match s with
      | x :: s' => if ascii_dec x c then [Result [x] s' []] else []
      | [] => []
      end
  | Cls p =>
      match s with
      | x :: s' => if p x then [Result [x] s' []] else []
      | [] => []
      end
  | Cat r1 r2 =>
      flat_map
        (fun m1 =>
           map (fun m2 => Result (consumed m1 ++ consumed m2) (rest m2)
                                 (groups m1 ++ groups m2))
               (matches r2 (rest m1)))
        (matches r1 s)
  | Star p => map (fun ar => Result (fst ar) (snd ar) []) (star_runs p s)
  | Plus p =>
      map (fun ar => Result (fst ar) (snd ar) [])
          (List.filter (fun ar => negb (is_nil (fst ar))) (star_runs p s))
  | Opt r' => matches r' s ++ [Result [] s []]
  | Group n r' =>
      map (fun m => Result (consumed m) (rest m) ((n, consumed m) :: groups m))
          (matches r' s)
  end.

(** The literal text [t]. *)
Fixpoint lit_chars (t : list ascii) (k : regex) : regex :=
  match t with
  | [] => k
  | c :: t' => Cat (Chr c) (lit_chars t' k)
  end.
Definition lit (t : string) (k : regex) : regex := lit_chars (Js.chars t) k.

(** The match at the current position, if any. *)
Definition match_here (r : regex) (s : list ascii) : option result :=
  head (matches r s).

(** The text of capturing group [n]; [None] is [undefined]. *)
Fixpoint group (n : nat) (gs : list (nat * list ascii)) : option string :=
  match gs with
  | [] => None
  | (k, t) :: gs' => if Nat.eqb k n then Some (Js.str t) else group n gs'
  end.

(** [s.match(r)] for a pattern without the [g] flag: the leftmost match. *)
Fixpoint search (r : regex) (s : list ascii) : option result :=
  match match_here r s with
  | Some m => Some m
  | None => match s with [] => None | _ :: s' => search r s' end
  end.

(** The loop [while ((m = r.exec(s)) !== null)] for a pattern with the [g]
    flag: each search resumes where the previous match ended.  [skip]
    counts the characters of the previous match still to be passed.  The
    patterns used here start with a literal character, so a match is never
    empty and none starts at the end of the text. *)
Fixpoint exec_all (r : regex) (skip : nat) (s : list ascii) : list result :=
  match s with
  | [] => []
  | _ :: s' =>
      match skip with
      | S k => exec_all r k s'
      | O =>
          match match_here r s with
          | Some m => m :: exec_all r (pred (List.length (consumed m))) s'
          | None => exec_all r 0 s'
          end
      end
  end.

(** [s.replace(r, '')] for a pattern with the [g] flag: every match is cut
    out and the search resumes where it ended.  [skip] is as in
    [exec_all]. *)
Fixpoint remove_all (r : regex) (skip : nat) (s : list ascii) : list ascii :=
  match s with
  | [] => []
  | c :: s' =>
      match skip with
      | S k => remove_all r k s'
      | O =>
          match match_here r s with
          | Some m => remove_all r (pred (List.length (consumed m))) s'
          | None => c :: remove_all r 0 s'
          end
      end
  end.

End Regex.

(** ** Results of operations that may throw *)

Inductive outcome (A : Type) : Type :=
| Returned (a : A)
| Thrown (message : string).
Arguments Returned {A} a.
Arguments Thrown {A} message.

(** What [console.warn] and [console.error] record. *)
Inductive diagnostic : Type :=
| ModelFileFailed (file message : string)
| AssociationFileFailed (message : string)
| ReloadFailed (message : string).

Definition is_model_file_failure (d : diagnostic) : bool :=
  match d with ModelFileFailed _ _ => true | _ => false end.

(** ** Data model ([ColumnInfo], [ModelInfo], [SchemaInfo]) *)

Record Reference : Type := {
  ref_model : string;
  ref_key : string
}.

Record ColumnInfo : Type := {
  c_name : string;
  c_type : option string;
  c_primaryKey : option bool;
  c_allowNull : option bool;
  c_unique : option bool;
  c_defaultValue : option string;
  c_enumValues : option (list string);
  c_references : option Reference
}.

Record Association : Type := {
  a_type : string;
  a_target : string;
  a_foreignKey : option string;
  a_as : option string
}.

(** [description] is read by the retrieval code ([model.description]); the
    analyzer never sets it. *)
Record ModelInfo : Type := {
  name : string;
  tableName : string;
  columns : list ColumnInfo;
  associations : list Association;
  description : option string
}.

Record SchemaInfo : Type := {
  models : list ModelInfo;
  schema : string
}.

(** ** The syntax tree delivered by the parser

    Only the node types the analyzer inspects are distinguished; every other
    node is [Other] with its children in traversal order.  Holes of an array
    literal are left out: neither the traversal nor the analyzer looks at
    them. *)

Inductive Node : Type :=
| Identifier (start end_ : nat) (id : string)
| StringLiteral (start end_ : nat) (value : string)
| MemberExpression (start end_ : nat) (object property : Node)
| CallExpression (start end_ : nat) (callee : Node) (arguments : list Node)
| ObjectExpression (start end_ : nat) (properties : list Node)
| ObjectProperty (start end_ : nat) (key value : Node)
| ArrayExpression (start end_ : nat) (elements : list Node)
| Other (start end_ : nat) (children : list Node).

Module Ast.

Definition node_start (n : Node) : nat :=
  match n with
  | Identifier s _ _ | StringLiteral s _ _ | MemberExpression s _ _ _
  | CallExpression s _ _ _ | ObjectExpression s _ _ | ObjectProperty s _ _ _
  | ArrayExpression s _ _ | Other s _ _ => s
  end.

Definition node_end (n : Node) : nat :=
  match n with
  | Identifier _ e _ | StringLiteral _ e _ | MemberExpression _ e _ _
  | CallExpression _ e _ _ | ObjectExpression _ e _ | ObjectProperty _ e _ _
  | ArrayExpression _ e _ | Other _ e _ => e
  end.

(** [content.slice(node.start, node.end)] *)
Definition source (content : string) (n : Node) : string :=
  Js.slice content (node_start n) (node_end n).

(** The [CallExpression] nodes in the order [traverse] enters them
    (depth first, a node before its children). *)
Fixpoint calls (n : Node) : list Node :=
  match n with
  | Identifier _ _ _ | StringLiteral _ _ _ => []
  | MemberExpression _ _ o p => calls o ++ calls p
  | CallExpression _ _ c args => n :: calls c ++ flat_map calls args
  | ObjectExpression _ _ ps => flat_map calls ps
  | ObjectProperty _ _ k v => calls k ++ calls v
  | ArrayExpression _ _ es => flat_map calls es
  | Other _ _ cs => flat_map calls cs
  end.

End Ast.

(** ** [path.extname] and [path.basename] on a name without separators *)

Module Path.

(** Index of the last ['.'] of the name, if any. *)
Fixpoint last_dot (i : nat) (s : list ascii) : option nat :=
  match s with
  | [] => None
  | c :: s' =>
      match last_dot (S i) s' with
      | Some j => Some j
      | None => if ascii_dec c "."%char then Some i else None
      end
  end.

(** The extension starts at the last dot, unless that dot opens the name
    or the name is [".."]. *)
Definition extname (file : string) : string :=
  match last_dot 0 (Js.chars file) with
  | None | Some O => ""
  | Some i => if String.eqb file ".." then "" else Js.slice file i (Js.length file)
  end.

Definition basename (file ext : string) : string :=
  if String.eqb ext "" then file
  else if String.eqb file ext then ""
  else if Js.endsWith file ext
       then Js.slice file 0 (Js.length file - Js.length ext)
       else file.

End Path.

(** ** The analyzer ([src/models/analyzer.ts]) *)

Module Analyzer.

Import Regex.

(** The quote characters: single quote, double quote (code 34) and, for
    [is_quote3], the backquote. *)
Definition is_quote3 (c : ascii) : bool :=
  if ascii_dec c "'"%char then true
  else if ascii_dec c "034"%char then true
  else if ascii_dec c "`"%char then true else false.

Definition is_quote2 (c : ascii) : bool :=
  if ascii_dec c "'"%char then true
  else if ascii_dec c "034"%char then true else false.

Definition not_rbrace (c : ascii) : bool :=
  if ascii_dec c "}"%char then false else true.

Definition strip_quotes3 (s : string) : string := Js.replace_class is_quote3 [] s.
Definition strip_quotes2 (s : string) : string := Js.replace_class is_quote2 [] s.

(** *** In-file associations: [parseAssociations] *)

(** [/\.KIND\s*\(\s*(\w+)(?:,\s*\{([^}]+)\})?\)/g] *)
Definition association_pattern (kind : string) : regex :=
  lit ("." +:+ kind)
    (Cat (Star Js.is_space)
    (Cat (Chr "("%char)
    (Cat (Star Js.is_space)
    (Cat (Group 1 (Plus Js.is_word))
    (Cat (Opt (Cat (Chr ","%char)
              (Cat (Star Js.is_space)
              (Cat (Chr "{"%char)
              (Cat (Group 2 (Plus not_rbrace))
                   (Chr "}"%char))))))
         (Chr ")"%char)))))).

Definition associationPatterns : list regex :=
  [association_pattern "hasMany"; association_pattern "hasOne";
   association_pattern "belongsTo"; association_pattern "belongsToMany"].

Definition types : list string := ["hasMany"; "hasOne"; "belongsTo"; "belongsToMany"].

(** [/KEY:\s*Q(\w+)Q/], where [Q] is the class of the three quote
    characters. *)
Definition option_pattern (key : string) : regex :=
  lit (key +:+ ":")
    (Cat (Star Js.is_space)
    (Cat (Cls is_quote3)
    (Cat (Group 1 (Plus Js.is_word))
         (Cls is_quote3)))).

Definition option_value (key options : string) : option string :=
  match search (option_pattern key) (Js.chars options) with
  | Some m => group 1 (groups m)
  | None => None
  end.

(** The association built from one match of the pattern of kind [type]. *)
Definition association_of_match (type : string) (m : result) : Association :=
  let target := default "" (group 1 (groups m)) in
  let options := Js.or_else (group 2 (groups m)) "" in
  {| a_type := type;
     a_target := target;
     a_foreignKey := option_value "foreignKey" options;
     a_as := option_value "as" options |}.

(** [associationPatterns.forEach((pattern, index) => ...)], with
    [types[index]] as the kind of the associations of [pattern]. *)
Definition parseAssociations (content : string) : list Association :=
  flat_map
    (fun pattern_type =>
       map (association_of_match (snd pattern_type))
           (exec_all (fst pattern_type) 0 (Js.chars content)))
    (combine associationPatterns types).

(** *** The table name *)

Definition not_quote3 (c : ascii) : bool := negb (is_quote3 c).

(** [/tableName:\s*Q([^Q]+)Q/], with [Q] as above. *)
Definition tableName_pattern : regex :=
  lit "tableName:"
    (Cat (Star Js.is_space)
    (Cat (Cls is_quote3)
    (Cat (Group 1 (Plus not_quote3))
         (Cls is_quote3)))).

(** *** De-duplication key and merge of centralized associations *)

(** [`${a.type}-${a.target}-${a.as || ''}`] *)
Definition dedup_key (a : Association) : string :=
  a_type a +:+ "-" +:+ a_target a +:+ "-" +:+ Js.or_else (a_as a) "".

Definition with_associations (m : ModelInfo) (l : list Association) : ModelInfo :=
  {| name := name m; tableName := tableName m; columns := columns m;
     associations := l; description := description m |}.

(** The body of the loop of [mergeCentralizedAssociations] for one model. *)
Definition merge_model (centralizedAssociations : gmap string (list Association))
    (model : ModelInfo) : ModelInfo :=
  match centralizedAssociations !! name model with
  | Some centralized =>
      if 0 <? List.length centralized then
        let existingKeys : gset string :=
          list_to_set (map dedup_key (associations model)) in
        let newAssociations :=
          List.filter (fun a => bool_decide (dedup_key a ∉ existingKeys)) centralized in
        if 0 <? List.length newAssociations
        then with_associations model (associations model ++ newAssociations)
        else model
      else model
  | None => model
  end.

(** The models are updated in place; the model list after the call. *)
Definition mergeCentralizedAssociations (models : list ModelInfo)
    (centralizedAssociations : gmap string (list Association)) : list ModelInfo :=
  map (merge_model centralizedAssociations) models.

(** *** Column extraction: [parseColumns] *)

Definition new_column (n : string) : ColumnInfo :=
  {| c_name := n; c_type := None; c_primaryKey := None; c_allowNull := None;
     c_unique := None; c_defaultValue := None; c_enumValues := None;
     c_references := None |}.

Definition set_type (c : ColumnInfo) (v : string) : ColumnInfo :=
  {| c_name := c_name c; c_type := Some v; c_primaryKey := c_primaryKey c;
     c_allowNull := c_allowNull c; c_unique := c_unique c;
     c_defaultValue := c_defaultValue c; c_enumValues := c_enumValues c;
     c_references := c_references c |}.

Definition set_primaryKey (c : ColumnInfo) (v : bool) : ColumnInfo :=
  {| c_name := c_name c; c_type := c_type c; c_primaryKey := Some v;
     c_allowNull := c_allowNull c; c_unique := c_unique c;
     c_defaultValue := c_defaultValue c; c_enumValues := c_enumValues c;
     c_references := c_references c |}.

Definition set_allowNull (c : ColumnInfo) (v : bool) : ColumnInfo :=
  {| c_name := c_name c; c_type := c_type c; c_primaryKey := c_primaryKey c;
     c_allowNull := Some v; c_unique := c_unique c;
     c_defaultValue := c_defaultValue c; c_enumValues := c_enumValues c;
     c_references := c_references c |}.

Definition set_unique (c : ColumnInfo) (v : bool) : ColumnInfo :=
  {| c_name := c_name c; c_type := c_type c; c_primaryKey := c_primaryKey c;
     c_allowNull := c_allowNull c; c_unique := Some v;
     c_defaultValue := c_defaultValue c; c_enumValues := c_enumValues c;
     c_references := c_references c |}.

Definition set_defaultValue (c : ColumnInfo) (v : string) : ColumnInfo :=
  {| c_name := c_name c; c_type := c_type c; c_primaryKey := c_primaryKey c;
     c_allowNull := c_allowNull c; c_unique := c_unique c;
     c_defaultValue := Some v; c_enumValues := c_enumValues c;
     c_references := c_references c |}.

Definition set_enumValues (c : ColumnInfo) (v : list string) : ColumnInfo :=
  {| c_name := c_name c; c_type := c_type c; c_primaryKey := c_primaryKey c;
     c_allowNull := c_allowNull c; c_unique := c_unique c;
     c_defaultValue := c_defaultValue c; c_enumValues := Some v;
     c_references := c_references c |}.

Definition set_references (c : ColumnInfo) (v : Reference) : ColumnInfo :=
  {| c_name := c_name c; c_type := c_type c; c_primaryKey := c_primaryKey c;
     c_allowNull := c_allowNull c; c_unique := c_unique c;
     c_defaultValue := c_defaultValue c; c_enumValues := c_enumValues c;
     c_references := Some v |}.

(** One element of a [values] array. *)
Definition enum_value (content : string) (element : Node) : string :=
  match element with
  | StringLiteral _ _ v => v
  | Identifier _ _ x => x
  | _ => strip_quotes2 (Ast.source content element)
  end.

(** The scan of the column's option object for [values] arrays. *)
Definition enum_scan (content : string) (properties : list Node)
    (col : ColumnInfo) : ColumnInfo :=
  fold_left
    (fun col enumField =>
       match enumField with
       | ObjectProperty _ _ (Identifier _ _ k) (ArrayExpression _ _ elements) =>
           if String.eqb k "values" then
             let enumValues := map (enum_value content) elements in
             if 0 <? List.length enumValues then set_enumValues col enumValues
             else col
           else col
       | _ => col
       end)
    properties col.

(** The [model] and [key] entries of a [references] object. *)
Definition reference_scan (content : string) (subs : list Node)
  : option string * option string :=
  fold_left
    (fun acc sub =>
       match sub with
       | ObjectProperty _ _ (Identifier _ _ k) v =>
           let acc :=
             if String.eqb k "model"
             then (Some (strip_quotes3 (Ast.source content v)), snd acc)
             else acc in
           if String.eqb k "key"
           then (fst acc, Some (strip_quotes3 (Ast.source content v)))
           else acc
       | _ => acc
       end)
    subs (None, None).

(** The effect of one entry of a column's option object on the column. *)
Definition column_field (content : string) (properties : list Node)
    (col : ColumnInfo) (field : Node) : ColumnInfo :=
  match field with
  | ObjectProperty _ _ (Identifier _ _ key) value =>
      let valCode := Js.trim (Ast.source content value) in
      let col :=
        if String.eqb key "type" then
          let col := set_type col valCode in
          if Js.includes valCode "DataTypes.ENUM" || Js.includes valCode "ENUM"
          then enum_scan content properties col
          else col
        else col in
      let col :=
        if String.eqb key "primaryKey" && String.eqb valCode "true"
        then set_primaryKey col true else col in
      let col :=
        if String.eqb key "allowNull" && String.eqb valCode "false"
        then set_allowNull col false else col in
      let col :=
        if String.eqb key "unique" && String.eqb valCode "true"
        then set_unique col true else col in
      let col :=
        if String.eqb key "defaultValue" then set_defaultValue col valCode
        else col in
      if String.eqb key "references" then
        match value with
        | ObjectExpression _ _ subs =>
            match reference_scan content subs with
            | (Some model, Some refKey) =>
                if Js.truthy (Some model) && Js.truthy (Some refKey)
                then set_references col {| ref_model := model; ref_key := refKey |}
                else col
            | _ => col
            end
        | _ => col
        end
      else col
  | _ => col
  end.

(** The column pushed for one property of the [define] configuration. *)
Definition column_of_property (content : string) (prop : Node) : option ColumnInfo :=
  match prop with
  | ObjectProperty _ _ (Identifier _ _ key) value =>
      let col := new_column key in
      Some match value with
           | ObjectExpression _ _ fields =>
               fold_left (column_field content fields) fields col
           | _ => col
           end
  | _ => None
  end.

(** The visitor of [parseColumns] on one call expression. *)
Definition columns_of_call (content : string) (call : Node) : list ColumnInfo :=
  match call with
  | CallExpression _ _ (MemberExpression _ _ _ (Identifier _ _ p)) args =>
      if String.eqb p "define" then
        match args with
        | _ :: ObjectExpression _ _ props :: _ =>
            omap (column_of_property content) props
        | _ => []
        end
      else []
  | _ => []
  end.

(** *** Centralized association files *)

Definition new_association (type target : string) : Association :=
  {| a_type := type; a_target := target; a_foreignKey := None; a_as := None |}.

Definition set_foreignKey (a : Association) (v : string) : Association :=
  {| a_type := a_type a; a_target := a_target a; a_foreignKey := Some v;
     a_as := a_as a |}.

Definition set_as (a : Association) (v : string) : Association :=
  {| a_type := a_type a; a_target := a_target a;
     a_foreignKey := a_foreignKey a; a_as := Some v |}.

(** The model named by a reference: a bare identifier, or the last
    identifier of a property access. *)
Definition model_reference (n : Node) : option string :=
  match n with
  | MemberExpression _ _ _ (Identifier _ _ x) => Some x
  | Identifier _ _ x => Some x
  | _ => None
  end.

(** The effect of one entry of the options object on the association. *)
Definition association_option (content : string) (association : Association)
    (prop : Node) : Association :=
  match prop with
  | ObjectProperty _ _ (Identifier _ _ key) value =>
      let association :=
        if String.eqb key "foreignKey" then
          set_foreignKey association
            match value with
            | StringLiteral _ _ v => v
            | Identifier _ _ x => x
            | _ => strip_quotes3 (Ast.source content value)
            end
        else association in
      if String.eqb key "as" then
        set_as association
          match value with
          | StringLiteral _ _ v => v
          | _ => strip_quotes3 (Ast.source content value)
          end
      else association
  | _ => association
  end.

Definition is_relation_kind (t : string) : bool :=
  bool_decide (t ∈ types).

(** The visitor of [parseCentralizedAssociationFile] on one call
    expression. *)
Definition add_call (content : string)
    (associationMap : gmap string (list Association)) (call : Node)
  : gmap string (list Association) :=
  match call with
  | CallExpression _ _ (MemberExpression _ _ obj (Identifier _ _ associationType)) args =>
      if is_relation_kind associationType then
        match model_reference obj with
        | Some sourceModel =>
            if Js.truthy (Some sourceModel) then
              match args with
              | firstArg :: options =>
                  match model_reference firstArg with
                  | Some targetModel =>
                      if Js.truthy (Some targetModel) then
                        let association :=
                          new_association associationType targetModel in
                        let association :=
                          match options with
                          | ObjectExpression _ _ props :: _ =>
                              fold_left (association_option content) props association
                          | _ => association
                          end in
                        let existing := default [] (associationMap !! sourceModel) in
                        <[sourceModel := existing ++ [association]]> associationMap
                      else associationMap
                  | None => associationMap
                  end
              | [] => associationMap
              end
            else associationMap
        | None => associationMap
        end
      else associationMap
  | _ => associationMap
  end.

(** [for (const [modelName, assocs] of associations.entries())
      associationMap.set(modelName, [...existing, ...assocs])] *)
Definition merge_file (associationMap associations : gmap string (list Association))
  : gmap string (list Association) :=
  map_fold
    (fun modelName assocs acc =>
       <[modelName := default [] (acc !! modelName) ++ assocs]> acc)
    associationMap associations.

(** *** The models directory *)

(** The entries of a directory in the order [readdirSync] lists them, each
    with the text [readFileSync] returns for it. *)
Definition Directory : Type := list (string * string).

Fixpoint readFile (dir : Directory) (file : string) : option string :=
  match dir with
  | [] => None
  | (f, content) :: dir' => if String.eqb f file then Some content else readFile dir' file
  end.

Definition is_model_file (file : string) : bool :=
  (Js.endsWith file ".js" || Js.endsWith file ".ts")
  && negb (Js.endsWith file ".d.ts")
  && negb (Js.endsWith file ".test.js")
  && negb (Js.endsWith file ".test.ts")
  && negb (String.eqb file "index.js")
  && negb (String.eqb file "index.ts")
  && negb (String.eqb file "associations.js")
  && negb (String.eqb file "associations.ts").

Definition dedicatedFiles : list string := ["associations.js"; "associations.ts"].
Definition indexFiles : list string := ["index.js"; "index.ts"].

Definition newline : string := String (ascii_of_nat 10) "".

(** *** Schema description: [generateSchemaDescription] *)

Definition column_line (col : ColumnInfo) : string :=
  let constraints :=
    (if default false (c_primaryKey col) then ["PRIMARY KEY"] else [])
    ++ (match c_allowNull col with Some false => ["NOT NULL"] | _ => [] end)
    ++ (if default false (c_unique col) then ["UNIQUE"] else [])
    ++ (if Js.truthy (c_defaultValue col)
        then ["DEFAULT " +:+ default "" (c_defaultValue col)] else [])
    ++ (match c_enumValues col with
        | Some (v :: vs) => ["ALLOWED VALUES: [" +:+ Js.join ", " (v :: vs) +:+ "]"]
        | _ => []
        end)
    ++ (match c_references col with
        | Some r => ["REFERENCES " +:+ ref_model r +:+ "(" +:+ ref_key r +:+ ")"]
        | None => []
        end) in
  let constraintStr :=
    if 0 <? List.length constraints
    then " [" +:+ Js.join ", " constraints +:+ "]" else "" in
  "  - " +:+ c_name col +:+ ": " +:+ default "undefined" (c_type col) +:+ constraintStr.

Definition association_line (assoc : Association) : string :=
  let details :=
    (if Js.truthy (a_foreignKey assoc)
     then ["foreignKey: " +:+ default "" (a_foreignKey assoc)] else [])
    ++ (if Js.truthy (a_as assoc) then ["as: " +:+ default "" (a_as assoc)] else []) in
  let detailStr :=
    if 0 <? List.length details then " (" +:+ Js.join ", " details +:+ ")" else "" in
  "  - " +:+ a_type assoc +:+ " " +:+ a_target assoc +:+ detailStr.

Definition model_lines (model : ModelInfo) : list string :=
  ["Table: " +:+ tableName model +:+ " (Model: " +:+ name model +:+ ")"; "Columns:"]
  ++ map column_line (columns model)
  ++ (if 0 <? List.length (associations model)
      then "Associations:" :: map association_line (associations model)
      else [])
  ++ [""].

Definition generateSchemaDescription (models : list ModelInfo) : string :=
  Js.join newline (flat_map model_lines models).

(** *** Functions that call the parser *)

Section WithParser.

(** [parse(content, { sourceType: 'module', plugins: [...] })] *)
Variable parse : string -> outcome Node.

(** [traverse(ast, visitor)] builds the scopes of the program before it
    visits a node, and throws when that fails, for instance on a duplicate
    declaration.  [scope_error ast] is the message of that error, if there
    is one. *)
Variable scope_error : Node -> option string.

Definition parseColumns (content : string) : outcome (list ColumnInfo) :=
  match parse content with
  | Returned ast =>
      match scope_error ast with
      | None => Returned (flat_map (columns_of_call content) (Ast.calls ast))
      | Some e => Thrown e
      end
  | Thrown e => Thrown e
  end.

(** [null] is [Returned None]. *)
Definition parseModelFile (content filename : string) : outcome (option ModelInfo) :=
  let modelName := Path.basename filename (Path.extname filename) in
  let tableName :=
    match search tableName_pattern (Js.chars content) with
    | Some m => default "" (group 1 (groups m))
    | None => Js.toLowerCase modelName
    end in
  match parseColumns content with
  | Thrown e => Thrown e
  | Returned columns =>
      if List.length columns =? 0 then Returned None
      else
        let associations := parseAssociations content in
        Returned (Some {| name := modelName; tableName := tableName;
                          columns := columns; associations := associations;
                          description := None |})
  end.

(** A file on which [parse] or [traverse] throws gives the empty map and
    a warning. *)
Definition parseCentralizedAssociationFile (content : string)
  : gmap string (list Association) * list diagnostic :=
  match parse content with
  | Returned ast =>
      match scope_error ast with
      | None => (fold_left (add_call content) (Ast.calls ast) ∅, [])
      | Some e => (∅, [AssociationFileFailed e])
      end
  | Thrown e => (∅, [AssociationFileFailed e])
  end.

(** The first loop of [parseCentralizedAssociations]: the first dedicated
    file that exists is parsed and the function returns. *)
Fixpoint dedicated_tier (dir : Directory) (files : list string)
    (associationMap : gmap string (list Association))
  : option (gmap string (list Association) * list diagnostic) :=
  match files with
  | [] => None
  | filename :: files' =>
      match readFile dir filename with
      | Some content =>
          let (associations, log) := parseCentralizedAssociationFile content in
          Some (merge_file associationMap associations, log)
      | None => dedicated_tier dir files' associationMap
      end
  end.

(** The second loop: every index file that exists is merged in. *)
Definition index_tier (dir : Directory) (files : list string)
    (associationMap : gmap string (list Association))
  : gmap string (list Association) * list diagnostic :=
  fold_left
    (fun acc filename =>
       match readFile dir filename with
       | Some content =>
           let (associations, log) := parseCentralizedAssociationFile content in
           (merge_file (fst acc) associations, snd acc ++ log)
       | None => acc
       end)
    files (associationMap, []).

Definition parseCentralizedAssociations (dir : Directory)
  : gmap string (list Association) * list diagnostic :=
  match dedicated_tier dir dedicatedFiles ∅ with
  | Some r => r
  | None => index_tier dir indexFiles ∅
  end.

(** The first pass of [analyzeProject]: one step per model file, under
    its [try]/[catch]. *)
Definition scan_file (dir : Directory)
    (acc : list ModelInfo * list diagnostic) (file : string)
  : list ModelInfo * list diagnostic :=
  match readFile dir file with
  | Some content =>
      match parseModelFile content file with
      | Returned (Some modelInfo) => (fst acc ++ [modelInfo], snd acc)
      | Returned None => acc
      | Thrown e => (fst acc, snd acc ++ [ModelFileFailed file e])
      end
  | None => (fst acc, snd acc ++ [ModelFileFailed file "ENOENT"])
  end.

Definition scan (dir : Directory) (modelFiles : list string)
  : list ModelInfo * list diagnostic :=
  fold_left (scan_file dir) modelFiles ([], []).

Section WithFileSystem.

(** [path.join] and [path.dirname]. *)
Variable path_join : string -> string -> string.
Variable path_dirname : string -> string.

(** The directories that exist, by path. *)
Variable fs : string -> option Directory.

Definition analyzeProject (projectRoot : string)
  : outcome SchemaInfo * list diagnostic :=
  let modelsPath := path_join projectRoot "models" in
  match fs modelsPath with
  | None =>
      (Thrown ("No models directory found at: " +:+ modelsPath +:+ newline
               +:+ "Please run this command from a project with a models/ directory."),
       [])
  | Some dir =>
      let modelFiles := List.filter is_model_file (map fst dir) in
      if List.length modelFiles =? 0
      then (Thrown "No model files found in the models directory", [])
      else
        let (models, log) := scan dir modelFiles in
        if List.length models =? 0
        then (Thrown "No valid Sequelize models found", log)
        else
          let (centralizedAssociations, log') := parseCentralizedAssociations dir in
          let models := mergeCentralizedAssociations models centralizedAssociations in
          (Returned {| models := models;
                       schema := generateSchemaDescription models |},
           log ++ log')
  end.

(** *** [WatchableSchema] *)

(** [_watching] tells whether [_watcher] is set. *)
Record WatchableSchema : Type := {
  _schemaInfo : SchemaInfo;
  _modelsPath : string;
  _watching : bool
}.

(** [reload()]: the state after the call, what the call returns or
    throws, and what it reports. *)
Definition reload (this : WatchableSchema)
  : WatchableSchema * outcome unit * list diagnostic :=
  match analyzeProject (path_dirname (_modelsPath this)) with
  | (Returned newSchemaInfo, log) =>
      ({| _schemaInfo := newSchemaInfo; _modelsPath := _modelsPath this;
          _watching := _watching this |},
       Returned tt, log)
  | (Thrown e, log) => (this, Thrown e, log ++ [ReloadFailed e])
  end.

Definition createWatchableSchema (projectRoot : string)
  : outcome WatchableSchema * list diagnostic :=
  match analyzeProject projectRoot with
  | (Returned schemaInfo, log) =>
      (Returned {| _schemaInfo := schemaInfo;
                   _modelsPath := path_join projectRoot "models";
                   _watching := false |}, log)
  | (Thrown e, log) => (Thrown e, log)
  end.

End WithFileSystem.

(** *** The file watcher of [WatchableSchema]

    The events [startWatching] subscribes to, each with the path it
    carries. *)
Inductive FileEvent : Type :=
| Change (filePath : string)
| Add (filePath : string)
| Unlink (filePath : string).

(** What a handler did: the object after it, what [reload] reported,
    whether the call of [onChange] was reached, and the message of the
    handler's own [console.error], if any. *)
Record Handled : Type := {
  h_schema : WatchableSchema;
  h_log : list diagnostic;
  h_onChange : bool;
  h_error : option string
}.

Section Watching.

Variable path_join : string -> string -> string.
Variable path_dirname : string -> string.

(** The [add] and [unlink] handlers look at the extension of the path; the
    [change] handler does not. *)
Definition handles (ev : FileEvent) : bool :=
  match ev with
  | Change _ => true
  | Add filePath | Unlink filePath =>
      Js.endsWith filePath ".js" || Js.endsWith filePath ".ts"
  end.

(** One handler run, on the file system [fs] it finds. *)
Definition on_event (fs : string -> option Directory) (this : WatchableSchema)
    (ev : FileEvent) : Handled :=
  if handles ev then
    match reload path_join path_dirname fs this with
    | (this', Returned _, log) =>
        {| h_schema := this'; h_log := log; h_onChange := true; h_error := None |}
    | (this', Thrown e, log) =>
        {| h_schema := this'; h_log := log; h_onChange := false; h_error := Some e |}
    end
  else {| h_schema := this; h_log := []; h_onChange := false; h_error := None |}.

(** A run of handlers, one after the other, each on the file system of its
    moment. *)
Definition on_events (events : list ((string -> option Directory) * FileEvent))
    (this : WatchableSchema) : WatchableSchema :=
  fold_left (fun w e => h_schema (on_event (fst e) w (snd e))) events this.

End Watching.

End WithParser.

End Analyzer.

(** ** Insertion-ordered sets and maps

    A JavaScript [Set] or [Map] iterates in insertion order; adding a member
    that is present leaves its position, and [Map.set] on a present key
    replaces the value in place. *)

Module Ordered.

Definition has (x : string) (s : list string) : bool := bool_decide (x ∈ s).

Definition add (s : list string) (x : string) : list string :=
  if has x s then s else s ++ [x].

Definition delete (s : list string) (x : string) : list string :=
  List.filter (fun y => negb (String.eqb y x)) s.

(** [new Set(l)] *)
Definition of_list (l : list string) : list string := fold_left add l [].

Fixpoint set {V} (m : list (string * V)) (k : string) (v : V) : list (string * V) :=
  match m with
  | [] => [(k, v)]
  | (k', v') :: m' =>
      if String.eqb k' k then (k, v) :: m' else (k', v') :: set m' k v
  end.

End Ordered.

(** ** The embedding index ([src/rag/vector-search.ts]) *)

Module VectorSearch.

Record Score : Type := {
  s_name : string;
  score : Q
}.

(** The fields of a [VectorSearch] object; [embedder] tells whether the
    pipeline has been loaded. *)
Record t : Type := {
  embedder : bool;
  modelEmbeddings : list (string * list Q);
  models : list ModelInfo;
  initialized : bool
}.

Definition new : t :=
  {| embedder := false; modelEmbeddings := []; models := []; initialized := false |}.

Definition column_text (c : ColumnInfo) : string :=
  let columnParts :=
    [c_name c]
    ++ (if Js.truthy (c_type c) then [default "" (c_type c)] else [])
    ++ (if default false (c_primaryKey c) then ["primary key"] else [])
    ++ (match c_allowNull c with Some false => ["required"] | _ => [] end)
    ++ (if default false (c_unique c) then ["unique"] else [])
    ++ (if Js.truthy (c_defaultValue c)
        then ["default " +:+ default "" (c_defaultValue c)] else [])
    ++ (match c_enumValues c with
        | Some (v :: vs) => ["possible values: " +:+ Js.join " " (v :: vs)]
        | _ => []
        end)
    ++ (match c_references c with
        | Some r => ["references " +:+ ref_model r]
        | None => []
        end) in
  Js.join " " columnParts.

Definition association_text (a : Association) : string :=
  let assocParts :=
    [a_type a; a_target a]
    ++ (if Js.truthy (a_foreignKey a)
        then ["foreign key " +:+ default "" (a_foreignKey a)] else [])
    ++ (if Js.truthy (a_as a) then ["alias " +:+ default "" (a_as a)] else []) in
  Js.join " " assocParts.

Definition modelToSearchableText (model : ModelInfo) : string :=
  let parts :=
    ["Model name: " +:+ name model; "Table name: " +:+ tableName model]
    ++ (if Js.truthy (description model)
        then ["Description: " +:+ default "" (description model)] else [])
    ++ ["Columns:"]
    ++ map column_text (columns model)
    ++ (if 0 <? List.length (associations model)
        then "Relationships:" :: map association_text (associations model)
        else []) in
  Js.join ". " parts.

(** [a.reduce((sum, val, i) => sum + val * b[i], 0)].  The embedding model
    returns vectors of one length, so [b[i]] is defined. *)
Definition cosineSimilarity (a b : list Q) : Q :=
  fold_left (fun sum vi => sum + fst vi * nth (snd vi) b 0)%Q
            (combine a (seq 0 (List.length a))) 0%Q.

Definition Qltb (x y : Q) : bool := negb (Qle_bool y x).

(** [sort((a, b) => b.score - a.score)]: descending, and stable. *)
Fixpoint insert_desc (x : Score) (l : list Score) : list Score :=
  match l with
  | [] => [x]
  | y :: l' => if Qltb (score x) (score y) then y :: insert_desc x l' else x :: l
  end.

Definition sort_desc (l : list Score) : list Score := fold_right insert_desc [] l.

Definition find_model (n : string) (l : list ModelInfo) : option ModelInfo :=
  List.find (fun m => String.eqb (name m) n) l.

(** [getModelEmbeddingText]; [null] is [None]. *)
Definition getModelEmbeddingText (this : t) (modelName : string) : option string :=
  match find_model modelName (models this) with
  | Some model => Some (modelToSearchableText model)
  | None => None
  end.

Section WithEmbedder.

(** The feature-extraction pipeline, with mean pooling and
    normalization. *)
Variable pipeline : string -> list Q.

Definition embed (this : t) (text : string) : outcome (list Q) :=
  if embedder this then Returned (pipeline text)
  else Thrown "this.embedder is not a function".

Definition initialize (this : t) (models' : list ModelInfo) : t :=
  if initialized this && (List.length (models this) =? List.length models')
  then this
  else
    {| embedder := true;
       modelEmbeddings :=
         fold_left
           (fun index model =>
              Ordered.set index (name model)
                          (pipeline (modelToSearchableText model)))
           models' [];
       models := models';
       initialized := true |}.

Definition all_scores (this : t) (queryEmbedding : list Q) : list Score :=
  map (fun e => {| s_name := fst e;
                   score := cosineSimilarity queryEmbedding (snd e) |})
      (modelEmbeddings this).

(** [topK] is an integer, as at every call site; [slice(0, topK)] takes
    it as it comes, so a negative one cuts hits off the end. *)
Definition findRelevant (this : t) (query : string) (topK : Z) (threshold : Q)
  : outcome (list ModelInfo) :=
  if negb (initialized this) then Thrown "VectorSearch not initialized"
  else
    match embed this query with
    | Thrown e => Thrown e
    | Returned queryEmbedding =>
        let scores := all_scores this queryEmbedding in
        let topResults :=
          Js.slice_to
            (List.filter (fun s => Qle_bool threshold (score s)) (sort_desc scores))
            topK in
        Returned (omap (fun r => find_model (s_name r) (models this)) topResults)
    end.

Definition getScores (this : t) (query : string) : outcome (list Score) :=
  match embed this query with
  | Thrown e => Thrown e
  | Returned queryEmbedding => Returned (sort_desc (all_scores this queryEmbedding))
  end.

End WithEmbedder.

End VectorSearch.

(** ** The hybrid retrieval engine ([src/rag/hybrid-retrieval.ts]) *)

Module HybridRetrieval.

Record t : Type := {
  vectorSearch : VectorSearch.t;
  allModels : list ModelInfo
}.

Record Options : Type := {
  topK : option Z;
  threshold : option Q;
  includeRelated : option bool
}.

Definition no_options : Options :=
  {| topK := None; threshold := None; includeRelated := None |}.

Record Scores : Type := {
  vector : Q;
  keyword : bool;
  related : bool
}.

Record Explanation : Type := {
  model : string;
  scores : Scores;
  reason : string
}.

Definition stopWords : list string :=
  ["show"; "get"; "find"; "list"; "all"; "from"; "where"; "select"; "the";
   "and"; "with"; "for"; "that"; "have"].

(** [[^\w\s]] *)
Definition not_word_or_space (c : ascii) : bool :=
  negb (Js.is_word c || Js.is_space c).

Definition extractKeywords (query : string) : list string :=
  let words :=
    List.filter (fun w => 2 <? Js.length w)
      (Js.split_ws
         (Js.replace_class not_word_or_space [" "%char] (Js.toLowerCase query))) in
  List.filter (fun w => negb (Ordered.has w stopWords)) words.

Definition searchableText (model : ModelInfo) : string :=
  Js.join " "
    ([Js.toLowerCase (name model); Js.toLowerCase (tableName model)]
     ++ map (fun c => Js.toLowerCase (c_name c)) (columns model)
     ++ Js.split_ws (Js.toLowerCase (Js.or_else (description model) ""))).

Definition findByKeywords (this : t) (keywords : list string) : list ModelInfo :=
  if List.length keywords =? 0 then []
  else
    List.filter
      (fun model =>
         existsb (fun keyword => Js.includes (searchableText model) keyword) keywords)
      (allModels this).

(** The model a foreign reference points to: the first whose table name or
    name is the referenced one. *)
Definition referenced_model (this : t) (r : Reference) : option ModelInfo :=
  List.find
    (fun m => String.eqb (tableName m) (ref_model r) || String.eqb (name m) (ref_model r))
    (allModels this).

(** The body of the outer loop of [findRelatedModels]. *)
Definition add_related (this : t) (related : list string) (modelName : string)
  : list string :=
  match VectorSearch.find_model modelName (allModels this) with
  | None => related
  | Some model =>
      let related :=
        fold_left (fun r assoc => Ordered.add r (a_target assoc))
                  (associations model) related in
      let related :=
        fold_left
          (fun r otherModel =>
             let referencesThis :=
               existsb (fun assoc => String.eqb (a_target assoc) modelName)
                       (associations otherModel) in
             if referencesThis then Ordered.add r (name otherModel) else r)
          (allModels this) related in
      fold_left
        (fun r col =>
           match c_references col with
           | Some rf =>
               match referenced_model this rf with
               | Some referencedModel => Ordered.add r (name referencedModel)
               | None => r
               end
           | None => r
           end)
        (columns model) related
  end.

Definition findRelatedModels (this : t) (selectedModelNames : list string)
  : list string :=
  let related := fold_left (add_related this) selectedModelNames [] in
  fold_left Ordered.delete selectedModelNames related.

Section WithEmbedder.

Variable pipeline : string -> list Q.

Definition findRelevant (this : t) (query : string) (options : Options)
  : outcome (list ModelInfo) :=
  let topK := default 5%Z (topK options) in
  let threshold := default (1 # 4)%Q (threshold options) in
  let includeRelated := default true (includeRelated options) in
  match VectorSearch.findRelevant pipeline (vectorSearch this) query topK threshold with
  | Thrown e => Thrown e
  | Returned vectorResults =>
      let selectedModels := Ordered.of_list (map name vectorResults) in
      let keywords := extractKeywords query in
      let keywordMatches := findByKeywords this keywords in
      let selectedModels :=
        fold_left (fun s m => Ordered.add s (name m)) keywordMatches selectedModels in
      let selectedModels :=
        if includeRelated && (0 <? List.length selectedModels) then
          let relatedModels := findRelatedModels this selectedModels in
          fold_left Ordered.add relatedModels selectedModels
        else selectedModels in
      Returned (List.filter (fun m => Ordered.has (name m) selectedModels)
                            (allModels this))
  end.

(** [(score * 100).toFixed(1)] *)
Variable toFixed1 : Q -> string.

Definition reasons (keywordMatches relatedModels : list string) (s : VectorSearch.Score)
  : list string :=
  (if VectorSearch.Qltb (3 # 10) (VectorSearch.score s)
   then ["high semantic similarity ("
           +:+ toFixed1 (VectorSearch.score s * 100)%Q +:+ "%)"]
   else [])
  ++ (if Ordered.has (VectorSearch.s_name s) keywordMatches
      then ["keyword match in name/columns"] else [])
  ++ (if Ordered.has (VectorSearch.s_name s) relatedModels
      then ["related to matched models"] else []).

Definition explain (keywordMatches relatedModels : list string) (s : VectorSearch.Score)
  : Explanation :=
  {| model := VectorSearch.s_name s;
     scores := {| vector := VectorSearch.score s;
                  keyword := Ordered.has (VectorSearch.s_name s) keywordMatches;
                  related := Ordered.has (VectorSearch.s_name s) relatedModels |};
     reason := Js.or_else
                 (Some (Js.join ", " (reasons keywordMatches relatedModels s)))
                 "no match" |}.

Definition explainSelection (this : t) (query : string)
  : outcome (list Explanation) :=
  let keywords := extractKeywords query in
  match VectorSearch.getScores pipeline (vectorSearch this) query with
  | Thrown e => Thrown e
  | Returned vectorScores =>
      let keywordMatches :=
        Ordered.of_list (map name (findByKeywords this keywords)) in
      match VectorSearch.findRelevant pipeline (vectorSearch this) query 10 0 with
      | Thrown e => Thrown e
      | Returned vectorResults =>
          let selectedModels := Ordered.of_list (map name vectorResults) in
          let relatedModels :=
            Ordered.of_list (findRelatedModels this selectedModels) in
          Returned
            (List.filter
               (fun item => negb (String.eqb (reason item) "no match"))
               (map (explain keywordMatches relatedModels) vectorScores))
      end
  end.

End WithEmbedder.

End HybridRetrieval.

(** ** The language-model client ([src/llm/openrouter.ts]) *)

Module OpenRouter.

Import Regex.

Inductive Role : Type := user | assistant.

Record ChatMessage : Type := {
  role : Role;
  content : string
}.

Definition backquote : ascii := "`"%char.
Definition line_feed : ascii := "010"%char.

(** The letter [c], in either case (the [i] flag). *)
Definition either_case (c : ascii) (x : ascii) : bool :=
  if ascii_dec (Js.lower_char x) c then true else false.

(** The pattern of the first replacement: three backquotes, [sql] in any
    case, and a line feed if there is one. *)
Definition sql_fence : regex :=
  lit "```"
      (Cat (Cls (either_case "s"))
           (Cat (Cls (either_case "q"))
                (Cat (Cls (either_case "l")) (Opt (Chr line_feed))))).

(** The pattern of the second replacement: three backquotes, and a line
    feed if there is one. *)
Definition fence : regex := lit "```" (Opt (Chr line_feed)).

Definition cleanSQLResponse (response : string) : string :=
  let cleaned :=
    Js.str (remove_all fence 0 (remove_all sql_fence 0 (Js.chars response))) in
  Js.trim cleaned.

End OpenRouter.

(** ** The chat loop ([src/cli/chat.ts]) *)

Module Chat.

Import OpenRouter.

Section WithServices.

Variable pipeline : string -> list Q.

(** [llm.generateSQL]: the answer of the language model, or the error the
    call throws. *)
Variable generateSQL : string -> list ModelInfo -> list ChatMessage -> outcome string.

(** [handleQuery]: the chat history after the call, and the message of the
    error it reports, if any. *)
Definition handleQuery (query : string) (watchableSchema : Analyzer.WatchableSchema)
    (chatHistory : list ChatMessage) (vectorSearch : VectorSearch.t)
  : list ChatMessage * option string :=
  match VectorSearch.findRelevant pipeline vectorSearch query 5 (1 # 4)%Q with
  | Thrown e => (chatHistory, Some e)
  | Returned relevantModels =>
      let modelsToUse :=
        if 0 <? List.length relevantModels then relevantModels
        else models (Analyzer._schemaInfo watchableSchema) in
      match generateSQL query modelsToUse chatHistory with
      | Thrown e => (chatHistory, Some e)
      | Returned response =>
          let chatHistory :=
            chatHistory ++ [{| role := user; content := query |};
                            {| role := assistant; content := response |}] in
          let chatHistory :=
            if 20 <? List.length chatHistory
            then drop (List.length chatHistory - 20) chatHistory
            else chatHistory in
          (chatHistory, None)
      end
  end.

End WithServices.

End Chat.

(** ** Vocabulary of the specification *)

Module Spec.

Import HybridRetrieval Analyzer.

(** The embedding index can answer: it is initialized and its pipeline is
    loaded, as after any call of [initialize]. *)
Definition ready (vs : VectorSearch.t) : Prop :=
  VectorSearch.initialized vs = true /\ VectorSearch.embedder vs = true.

(** [s] has an association whose target is [x]. *)
Definition associates_to (this : t) (s x : string) : Prop :=
  exists model a,
    VectorSearch.find_model s (allModels this) = Some model
    /\ a ∈ associations model /\ a_target a = x.

(** The entity [x] has an association whose target is [s]. *)
Definition targeted_by (this : t) (s x : string) : Prop :=
  exists model other a,
    VectorSearch.find_model s (allModels this) = Some model
    /\ other ∈ allModels this /\ name other = x
    /\ a ∈ associations other /\ a_target a = s.

(** A field of [s] has a foreign reference that resolves to [x]. *)
Definition refers_to (this : t) (s x : string) : Prop :=
  exists model col rf rm,
    VectorSearch.find_model s (allModels this) = Some model
    /\ col ∈ columns model /\ c_references col = Some rf
    /\ referenced_model this rf = Some rm /\ name rm = x.

(** [x] is reachable from [s] in one hop. *)
Definition one_hop (this : t) (s x : string) : Prop :=
  associates_to this s x \/ targeted_by this s x \/ refers_to this s x.

(** The names selected by the keyword signal. *)
Definition keyword_signal (this : t) (query : string) : list string :=
  map name (findByKeywords this (extractKeywords query)).

Section Signals.

Variable pipeline : string -> list Q.

(** The names selected by the vector signal. *)
Definition vector_signal (this : t) (query : string) (options : Options)
  : list string :=
  match VectorSearch.findRelevant pipeline (vectorSearch this) query
          (default 5%Z (topK options)) (default (1 # 4)%Q (threshold options)) with
  | Returned l => map name l
  | Thrown _ => []
  end.

(** The seed set: the names selected by the vector or the keyword
    signal, as [findRelevant] holds them before the expansion. *)
Definition seed (this : t) (query : string) (options : Options) : list string :=
  fold_left (fun s m => Ordered.add s (name m))
            (findByKeywords this (extractKeywords query))
            (Ordered.of_list (vector_signal this query options)).

(** The names added by the relational expansion. *)
Definition relational_signal (this : t) (query : string) (options : Options)
  : list string :=
  if default true (includeRelated options)
     && (0 <? List.length (seed this query options))
  then findRelatedModels this (seed this query options)
  else [].

End Signals.

(** The options with the relational expansion switched off. *)
Definition without_related (options : Options) : Options :=
  {| topK := topK options; threshold := threshold options;
     includeRelated := Some false |}.

(** An entity has a reason to appear in the diagnostic view. *)
Definition has_reason (keywordMatches relatedModels : list string)
    (s : VectorSearch.Score) : bool :=
  VectorSearch.Qltb (3 # 10) (VectorSearch.score s)
  || Ordered.has (VectorSearch.s_name s) keywordMatches
  || Ordered.has (VectorSearch.s_name s) relatedModels.

(** A string without the separator of the de-duplication key. *)
Definition dash_free (s : string) : Prop :=
  forallb (fun c => if ascii_dec c "-"%char then false else true) (Js.chars s) = true.

(** A non-empty string of word characters. *)
Definition word_identifier (s : string) : Prop :=
  s <> "" /\ forallb Js.is_word (Js.chars s) = true.

(** *** Definition files *)

(** The entity name a file gives: its name without the extension. *)
Definition stem (file : string) : string :=
  Path.basename file (Path.extname file).

Section Files.
Variable parse : string -> outcome Node.
Variable scope_error : Node -> option string.

(** A well-formed definition file: [parseColumns] returns, with a
    recognized field. *)
Definition well_formed_file (dir : Directory) (file : string) : bool :=
  match readFile dir file with
  | Some content =>
      match parseColumns parse scope_error content with
      | Returned (_ :: _) => true
      | _ => false
      end
  | None => false
  end.

(** A malformed file: [parseModelFile] throws on it, be it in [parse] or
    in [traverse]. *)
Definition malformed_file (dir : Directory) (file : string) : bool :=
  match readFile dir file with
  | Some content =>
      match parseModelFile parse scope_error content file with
      | Thrown _ => true
      | Returned _ => false
      end
  | None => false
  end.

(** The entity and the diagnostic a file contributes to the scan. *)
Definition entity_of (dir : Directory) (file : string) : option ModelInfo :=
  match readFile dir file with
  | Some content =>
      match parseModelFile parse scope_error content file with
      | Returned (Some modelInfo) => Some modelInfo
      | _ => None
      end
  | None => None
  end.

Definition failure_of (dir : Directory) (file : string) : option diagnostic :=
  match readFile dir file with
  | Some content =>
      match parseModelFile parse scope_error content file with
      | Thrown e => Some (ModelFileFailed file e)
      | Returned _ => None
      end
  | None => Some (ModelFileFailed file "ENOENT")
  end.

End Files.
End Spec.

(** ** Vocabulary of the further properties *)

Module Shape.

Import Analyzer.

(** The associations a centralized file declares; none when the file is
    missing. *)
Definition file_associations (parse : string -> outcome Node)
    (scope_error : Node -> option string)
    (dir : Directory) (file : string) : gmap string (list Association) :=
  match readFile dir file with
  | Some content => fst (parseCentralizedAssociationFile parse scope_error content)
  | None => ∅
  end.

(** An association as the parser of the centralized files builds it: one
    of the four relation kinds and a target that is not empty. *)
Definition proper_association (a : Association) : Prop :=
  a_type a ∈ types /\ a_target a <> "".

(** A centralized map as that parser builds it: no empty model name, no
    empty list, proper associations only. *)
Definition proper_map (m : gmap string (list Association)) : Prop :=
  forall k l, m !! k = Some l ->
    k <> "" /\ l <> [] /\ forall a, a ∈ l -> proper_association a.

(** A text without any of the three quote characters. *)
Definition quote_free (s : string) : Prop :=
  forallb not_quote3 (Js.chars s) = true.

(** The text [s] opens with a declaration of the table name [t]: the word
    [tableName:], white space if any, a quote character, the characters
    [t], of which there is at least one and none is a quote character, and
    a quote character. *)
Definition table_declaration (s t : list ascii) : Prop :=
  exists ws q1 q2 post,
    s = Js.chars "tableName:" ++ ws ++ q1 :: t ++ q2 :: post
    /\ forallb Js.is_space ws = true
    /\ is_quote3 q1 = true
    /\ t <> [] /\ forallb not_quote3 t = true
    /\ is_quote3 q2 = true.

(** A column as [parseColumns] builds it: a flag holds the one value the
    parser ever writes, an enumeration is not empty, and a foreign
    reference names a model and a key, both without quotes. *)
Definition proper_column (c : ColumnInfo) : Prop :=
  (c_primaryKey c = None \/ c_primaryKey c = Some true)
  /\ (c_allowNull c = None \/ c_allowNull c = Some false)
  /\ (c_unique c = None \/ c_unique c = Some true)
  /\ (forall vs, c_enumValues c = Some vs -> vs <> [])
  /\ (forall r, c_references c = Some r ->
        ref_model r <> "" /\ ref_key r <> ""
        /\ quote_free (ref_model r) /\ quote_free (ref_key r)).

Definition no_dot (c : ascii) : bool := if ascii_dec c "."%char then false else true.

(** A text without a dot. *)
Definition dot_free (s : string) : Prop :=
  forallb no_dot (Js.chars s) = true.

(** The parts of an entity the keyword search looks into. *)
Definition searchable_parts (model : ModelInfo) : list string :=
  [Js.toLowerCase (name model); Js.toLowerCase (tableName model)]
  ++ map (fun c => Js.toLowerCase (c_name c)) (columns model)
  ++ Js.split_ws (Js.toLowerCase (Js.or_else (description model) "")).

(** Scores from the highest down. *)
Fixpoint descending (l : list VectorSearch.Score) : Prop :=
  match l with
  | [] => True
  | x :: l' =>
      Forall (fun y => (VectorSearch.score y <= VectorSearch.score x)%Q) l'
      /\ descending l'
  end.

(** The run of three backquotes that opens or closes a code block. *)
Definition three : list ascii :=
  [OpenRouter.backquote; OpenRouter.backquote; OpenRouter.backquote].

(** A text in which no such run occurs. *)
Definition no_fence (l : list ascii) : Prop := Js.includes_chars l three = false.

(** A text without a backquote. *)
Definition backquote_free (s : string) : Prop :=
  forallb (fun c => if ascii_dec c OpenRouter.backquote then false else true)
          (Js.chars s) = true.

(** A chat history made of exchanges: a message of the user, then the
    answer to it. *)
Fixpoint paired (h : list OpenRouter.ChatMessage) : Prop :=
  match h with
  | [] => True
  | u :: a :: h' =>
      OpenRouter.role u = OpenRouter.user
      /\ OpenRouter.role a = OpenRouter.assistant /\ paired h'
  | [_] => False
  end.

End Shape.

(** ** Example data *)

Module Examples.
Import Analyzer.

Definition entity (n : string) (cols : list ColumnInfo) (assocs : list Association)
  : ModelInfo :=
  {| name := n; tableName := Js.toLowerCase n; columns := cols;
     associations := assocs; description := None |}.

Definition Zed : ModelInfo := entity "Zed" [new_column "id"] [].

(** An embedding model that sends every text to the same vector. *)
Definition half_pipeline (text : string) : list Q := [(1 # 2)%Q].

Definition zed_index : VectorSearch.t :=
  VectorSearch.initialize half_pipeline VectorSearch.new [Zed].

Definition zed_engine : HybridRetrieval.t :=
  {| HybridRetrieval.vectorSearch := zed_index; HybridRetrieval.allModels := [Zed] |}.

Definition percent (q : Q) : string := "25.0".

Definition Alpha : ModelInfo :=
  entity "Alpha" [new_column "id"] [new_association "hasMany" "Beta"].
Definition Beta : ModelInfo :=
  entity "Beta" [new_column "id"] [new_association "hasMany" "Gamma"].
Definition Gamma : ModelInfo := entity "Gamma" [new_column "id"] [].

(** An embedding model that tells texts of different lengths apart. *)
Definition length_pipeline (text : string) : list Q :=
  [inject_Z (Z.of_nat (String.length text))].

(** A scope pass that accepts every tree. *)
Definition no_scope_error (ast : Node) : option string := None.

(** A parser given by the trees of the texts it accepts; it rejects every
    other text. *)
Fixpoint table_parse (table : list (string * Node)) (content : string) : outcome Node :=
  match table with
  | [] => Thrown "Unexpected token"
  | (text, ast) :: table' =>
      if String.eqb text content then Returned ast else table_parse table' content
  end.

(** [User.hasMany(Post);] *)
Definition user_hasMany_post : string := "User.hasMany(Post);".
Definition user_hasMany_post_ast : Node :=
  Other 0 19
    [Other 0 19
       [CallExpression 0 18
          (MemberExpression 0 12 (Identifier 0 4 "User") (Identifier 5 12 "hasMany"))
          [Identifier 13 17 "Post"]]].

(** [db.Order.belongsTo(db.User);] *)
Definition order_belongsTo_user : string := "db.Order.belongsTo(db.User);".
Definition order_belongsTo_user_ast : Node :=
  Other 0 28
    [Other 0 28
       [CallExpression 0 27
          (MemberExpression 0 18
             (MemberExpression 0 8 (Identifier 0 2 "db") (Identifier 3 8 "Order"))
             (Identifier 9 18 "belongsTo"))
          [MemberExpression 19 26 (Identifier 19 21 "db") (Identifier 22 26 "User")]]].

Definition association_parse : string -> outcome Node :=
  table_parse [(user_hasMany_post, user_hasMany_post_ast);
               (order_belongsTo_user, order_belongsTo_user_ast)].

(** A directory with a dedicated association file and an index file. *)
Definition both_tiers : Directory :=
  [("associations.js", user_hasMany_post); ("index.js", order_belongsTo_user)].

(** A definition file with one field. *)
Definition user_model : string :=
  "sequelize.define('User', { id: { type: DataTypes.INTEGER, primaryKey: true } });".

Definition user_model_ast : Node :=
  Other 0 80
    [Other 0 80
       [CallExpression 0 79
          (MemberExpression 0 16 (Identifier 0 9 "sequelize") (Identifier 10 16 "define"))
          [StringLiteral 17 23 "User";
           ObjectExpression 25 78
             [ObjectProperty 27 76 (Identifier 27 29 "id")
                (ObjectExpression 31 76
                   [ObjectProperty 33 56 (Identifier 33 37 "type")
                      (MemberExpression 39 56 (Identifier 39 48 "DataTypes")
                                        (Identifier 49 56 "INTEGER"));
                    ObjectProperty 58 74 (Identifier 58 68 "primaryKey")
                      (Other 70 74 [])])]]]].

Definition model_parse : string -> outcome Node :=
  table_parse [(user_model, user_model_ast);
               (user_hasMany_post, user_hasMany_post_ast);
               (order_belongsTo_user, order_belongsTo_user_ast)].

Definition join_slash (a b : string) : string := a +:+ "/" +:+ b.

(** A file system with the one directory [dir] at [project/models]. *)
Definition project (dir : Directory) (path : string) : option Directory :=
  if String.eqb path "project/models" then Some dir else None.

(** Two definition files that differ in their extension only. *)
Definition twin_files : Directory := [("user.js", user_model); ("user.ts", user_model)].

(** One file that does not parse. *)
Definition broken_only : Directory := [("broken.js", "const = ;")].

(** A well-formed file, a malformed one, and one without fields. *)
Definition mixed_files : Directory :=
  [("user.js", user_model); ("broken.js", "const = ;"); ("helper.js", user_hasMany_post)].

(** An embedding model that scores nothing. *)
Definition zero_pipeline (text : string) : list Q := [0%Q].

(** A snapshot in which Alpha associates to Beta and Beta to Gamma. *)
Definition chain_engine : HybridRetrieval.t :=
  {| HybridRetrieval.vectorSearch :=
       VectorSearch.initialize zero_pipeline VectorSearch.new [Alpha; Beta; Gamma];
     HybridRetrieval.allModels := [Alpha; Beta; Gamma] |}.

(** A snapshot that lists Gamma before Alpha, with an index that scores
    Alpha above Gamma. *)
Definition scored_engine : HybridRetrieval.t :=
  {| HybridRetrieval.vectorSearch :=
       VectorSearch.initialize length_pipeline VectorSearch.new [Gamma; Alpha];
     HybridRetrieval.allModels := [Gamma; Alpha] |}.

Definition has_many_post : Association := new_association "hasMany" "Post".

Definition belongs_to_order : Association :=
  {| a_type := "belongsTo"; a_target := "Order"; a_foreignKey := None;
     a_as := Some "order" |}.

Definition Item : ModelInfo := entity "Item" [new_column "id"] [belongs_to_order].

(** The entity [user.js] gives. *)
Definition user_entity : ModelInfo :=
  {| name := "user"; tableName := "user";
     columns := [set_primaryKey (set_type (new_column "id") "DataTypes.INTEGER") true];
     associations := []; description := None |}.

Definition user_snapshot : SchemaInfo :=
  {| models := [user_entity]; schema := generateSchemaDescription [user_entity] |}.


(** A directory with the two index files and no dedicated file. *)
Definition index_pair : Directory :=
  [("index.js", order_belongsTo_user); ("index.ts", user_hasMany_post)].

(** [path.dirname] on the models path of the example. *)
Definition parent (path : string) : string :=
  if String.eqb path "project/models" then "project" else path.

(** The object [createWatchableSchema] gives for [mixed_files]. *)
Definition user_watchable : WatchableSchema :=
  {| _schemaInfo := user_snapshot; _modelsPath := "project/models";
     _watching := false |}.

(** A language model with one answer. *)
Definition fixed_llm (naturalLanguage : string) (models : list ModelInfo)
    (chatHistory : list OpenRouter.ChatMessage) : outcome string :=
  Returned "SELECT 1;".

(** An engine whose index has not been initialized. *)
Definition fresh_engine : HybridRetrieval.t :=
  {| HybridRetrieval.vectorSearch := VectorSearch.new;
     HybridRetrieval.allModels := [Zed] |}.

(** A definition file with one field and a table name. *)
Definition order_model : string :=
  "sequelize.define('Order', { id: { type: DataTypes.INTEGER } }, { tableName: 'orders' });".

Definition order_model_ast : Node :=
  Other 0 88
    [Other 0 88
       [CallExpression 0 87
          (MemberExpression 0 16 (Identifier 0 9 "sequelize") (Identifier 10 16 "define"))
          [StringLiteral 17 24 "Order";
           ObjectExpression 26 61
             [ObjectProperty 28 59 (Identifier 28 30 "id")
                (ObjectExpression 32 59
                   [ObjectProperty 34 57 (Identifier 34 38 "type")
                      (MemberExpression 40 57 (Identifier 40 49 "DataTypes")
                                        (Identifier 50 57 "INTEGER"))])];
           ObjectExpression 63 86
             [ObjectProperty 65 84 (Identifier 65 74 "tableName")
                (StringLiteral 76 84 "orders")]]]].

(** The entity [order.js] gives. *)
Definition order_entity : ModelInfo :=
  {| name := "order"; tableName := "orders";
     columns := [set_type (new_column "id") "DataTypes.INTEGER"];
     associations := []; description := None |}.

(** A TypeScript file in which a type and a constant share a name: the
    parser accepts it. *)
Definition clash_model : string :=
  "type U = number; const U = sequelize.define('U', { id: { type: DataTypes.INTEGER } });".

Definition clash_model_ast : Node :=
  Other 0 86
    [Other 0 16 [Identifier 5 6 "U"; Other 9 15 []];
     Other 17 86
       [Other 23 85
          [Identifier 23 24 "U";
           CallExpression 27 85
             (MemberExpression 27 43 (Identifier 27 36 "sequelize")
                               (Identifier 37 43 "define"))
             [StringLiteral 44 47 "U";
              ObjectExpression 49 84
                [ObjectProperty 51 82 (Identifier 51 53 "id")
                   (ObjectExpression 55 82
                      [ObjectProperty 57 80 (Identifier 57 61 "type")
                         (MemberExpression 63 80 (Identifier 63 72 "DataTypes")
                                           (Identifier 73 80 "INTEGER"))])]]]]].

(** The name a statement declares: the identifier it, or its first child,
    starts with. *)
Definition declared (statement : Node) : option string :=
  match statement with
  | Other _ _ (Identifier _ _ id :: _) => Some id
  | Other _ _ (Other _ _ (Identifier _ _ id :: _) :: _) => Some id
  | _ => None
  end.

Fixpoint first_duplicate (names : list string) : option string :=
  match names with
  | [] => None
  | n :: names' => if Ordered.has n names' then Some n else first_duplicate names'
  end.

(** A scope pass that rejects a program in which two statements declare
    one name. *)
Definition duplicate_declaration (ast : Node) : option string :=
  match ast with
  | Other _ _ statements =>
      match first_duplicate (omap declared statements) with
      | Some n => Some ("Duplicate declaration " +:+ n)
      | None => None
      end
  | _ => None
  end.

Definition shop_parse : string -> outcome Node :=
  table_parse [(user_model, user_model_ast);
               (order_model, order_model_ast);
               (clash_model, clash_model_ast);
               (user_hasMany_post, user_hasMany_post_ast)].

(** A file the scope pass rejects, a well-formed file, a file that does not
    parse, a second well-formed file, and a file without fields. *)
Definition shop_files : Directory :=
  [("u.ts", clash_model); ("user.js", user_model); ("broken.js", "const = ;");
   ("order.js", order_model); ("helper.js", user_hasMany_post)].

Definition shop_snapshot : SchemaInfo :=
  {| models := [user_entity; order_entity];
     schema := generateSchemaDescription [user_entity; order_entity] |}.

(** A definition file named as its entity is in the index files, which
    both declare the same relation for it. *)
Definition doubled_index : Directory :=
  [("User.js", user_model); ("index.js", user_hasMany_post);
   ("index.ts", user_hasMany_post)].

(** An embedding model that sends the text of Alpha and the text of Zed to
    the two axes, and every other text between them. *)
Definition axis_pipeline (text : string) : list Q :=
  if Js.includes text "Alpha" then [1; 0]%Q
  else if Js.includes text "Zed" then [0; 1]%Q
  else [4 # 5; 1 # 5]%Q.

(** A snapshot that lists Zed before Alpha. *)
Definition axis_engine : HybridRetrieval.t :=
  {| HybridRetrieval.vectorSearch :=
       VectorSearch.initialize axis_pipeline VectorSearch.new [Zed; Alpha];
     HybridRetrieval.allModels := [Zed; Alpha] |}.

Definition digits (n : nat) : string := NilZero.string_of_uint (Nat.to_uint n).

(** [x.toFixed(1)] for a number that is not negative: the nearest number
    with one decimal, a half rounded up. *)
Definition one_decimal (x : Q) : string :=
  let tenths := Z.to_nat (Qfloor (x * 10 + (1 # 2))) in
  digits (tenths / 10) +:+ "." +:+ digits (tenths mod 10).

End Examples.

(** * Properties *)

(** ** Lists *)

Section ListFacts.

Lemma elem_of_map {A} (f : A -> string) (l : list A) y :
  y ∈ map f l <-> exists a, a ∈ l /\ y = f a.
Proof.
  rewrite list_elem_of_In, in_map_iff.
  split; intros (a & H1 & H2); exists a.
  - split; [now apply list_elem_of_In | auto].
  - split; [auto | now apply list_elem_of_In].
Qed.

Lemma elem_of_filter_bool {A} (f : A -> bool) (l : list A) x :
  x ∈ List.filter f l <-> x ∈ l /\ f x = true.
Proof. rewrite !list_elem_of_In. apply filter_In. Qed.

Lemma existsb_elem_of {A} (f : A -> bool) (l : list A) :
  existsb f l = true <-> exists a, a ∈ l /\ f a = true.
Proof.
  rewrite existsb_exists. split; intros (a & Ha & Hf); exists a;
    (split; [now apply list_elem_of_In | assumption]).
Qed.

Lemma filter_none {A} (f : A -> bool) (l : list A) :
  (forall a, a ∈ l -> f a = false) -> List.filter f l = [].
Proof.
  induction l as [| a l IH]; intros H; simpl; [reflexivity |].
  rewrite (H a) by apply list_elem_of_here.
  apply IH. intros b Hb. apply H. now apply list_elem_of_further.
Qed.

Lemma filter_sublist {A} (f : A -> bool) (l : list A) :
  List.filter f l `sublist_of` l.
Proof.
  induction l as [| a l IH]; simpl; [constructor |].
  destruct (f a); [now apply sublist_skip | now apply sublist_cons].
Qed.

Lemma filter_map_comm {A B} (f : A -> B) (p : B -> bool) (l : list A) :
  List.filter p (map f l) = map f (List.filter (fun a => p (f a)) l).
Proof.
  induction l as [| a l IH]; simpl; [reflexivity |].
  destruct (p (f a)); simpl; now rewrite IH.
Qed.

Lemma length_pos_false {A} (l : list A) : (0 <? List.length l) = false -> l = [].
Proof. destruct l; [reflexivity | discriminate]. Qed.

Lemma NoDup_map_filter {A} (f : A -> string) (p : A -> bool) (l : list A) :
  NoDup (map f l) -> NoDup (map f (List.filter p l)).
Proof.
  induction l as [| a l IH]; simpl; intros H; [constructor |].
  apply NoDup_cons in H as [Hn H].
  destruct (p a); simpl; [| auto].
  apply NoDup_cons. split; [| auto].
  intros Hin. apply Hn. apply elem_of_map in Hin as (b & Hb & ->).
  apply elem_of_map. exists b. split; [| reflexivity].
  now apply elem_of_filter_bool in Hb as [Hb _].
Qed.

(** Two runs of characters of a class, each followed by a character
    outside it, end at the same place. *)
Lemma run_unique (p : ascii -> bool) a x tail t y tail' :
  forallb p a = true -> p x = false ->
  forallb p t = true -> p y = false ->
  a ++ x :: tail = t ++ y :: tail' -> a = t /\ x = y /\ tail = tail'.
Proof.
  revert t. induction a as [| c a IH]; intros [| d t]; simpl;
    intros Ha Hx Ht Hy [= E1 E2].
  - auto.
  - subst. apply andb_true_iff in Ht as [Ht _]. congruence.
  - subst. apply andb_true_iff in Ha as [Ha _]. congruence.
  - apply andb_true_iff in Ha as [_ Ha]. apply andb_true_iff in Ht as [_ Ht].
    destruct (IH t Ha Hx Ht Hy E2) as (-> & -> & ->). subst. auto.
Qed.

End ListFacts.

(** ** Insertion-ordered sets *)

Section OrderedFacts.

Import Ordered.

Lemma has_true x s : has x s = true <-> x ∈ s.
Proof. unfold has. apply bool_decide_eq_true. Qed.

Lemma elem_of_add s x y : y ∈ add s x <-> y ∈ s \/ y = x.
Proof.
  unfold add. destruct (has x s) eqn:E.
  - apply has_true in E. split; [auto | intros [? | ->]; assumption].
  - rewrite elem_of_app, list_elem_of_singleton. reflexivity.
Qed.

Lemma elem_of_fold_add {A} (f : A -> string) (l : list A) s y :
  y ∈ fold_left (fun s a => add s (f a)) l s <-> y ∈ s \/ exists a, a ∈ l /\ y = f a.
Proof.
  revert s. induction l as [| a l IH]; intros s; simpl.
  - split; [auto | intros [? | (a & Ha & _)]; [assumption | inversion Ha]].
  - rewrite IH, elem_of_add. split.
    + intros [[? | ->] | (b & Hb & ->)]; eauto using list_elem_of_here, list_elem_of_further.
    + intros [? | (b & Hb & ->)]; [auto |].
      apply elem_of_cons in Hb as [-> | Hb]; eauto.
Qed.

Lemma elem_of_fold_add_id l s y :
  y ∈ fold_left add l s <-> y ∈ s \/ y ∈ l.
Proof.
  rewrite (elem_of_fold_add (fun x => x)). split.
  - intros [? | (a & Ha & ->)]; auto.
  - intros [? | ?]; eauto.
Qed.

Lemma elem_of_of_list l y : y ∈ of_list l <-> y ∈ l.
Proof.
  unfold of_list. rewrite elem_of_fold_add_id. split; [intros [H | H] | auto]; auto.
  inversion H.
Qed.

Lemma elem_of_delete s x y : y ∈ delete s x <-> y ∈ s /\ y <> x.
Proof.
  unfold delete. rewrite list_elem_of_In, filter_In, <- list_elem_of_In.
  rewrite negb_true_iff, String.eqb_neq. reflexivity.
Qed.

Lemma elem_of_fold_delete l s y :
  y ∈ fold_left delete l s <-> y ∈ s /\ y ∉ l.
Proof.
  revert s. induction l as [| x l IH]; intros s; simpl.
  - split; [intros H; split; [assumption | intros H'; inversion H'] | tauto].
  - rewrite IH, elem_of_delete, not_elem_of_cons. tauto.
Qed.

End OrderedFacts.

Section RetrievalFacts.

Import HybridRetrieval Spec.

(** A loop that only ever adds the names a step contributes. *)
Lemma elem_of_fold_step {A} (g : list string -> A -> list string)
    (P : A -> string -> Prop) :
  (forall r a y, y ∈ g r a <-> y ∈ r \/ P a y) ->
  forall l r y, y ∈ fold_left g l r <-> y ∈ r \/ exists a, a ∈ l /\ P a y.
Proof.
  intros Hg l. induction l as [| a l IH]; intros r y; simpl.
  - split; [auto | intros [? | (a & Ha & _)]; [assumption | inversion Ha]].
  - rewrite IH, Hg. split.
    + intros [[? | ?] | (b & Hb & ?)]; eauto using list_elem_of_here, list_elem_of_further.
    + intros [? | (b & Hb & ?)]; [auto |].
      apply elem_of_cons in Hb as [-> | Hb]; eauto.
Qed.

Lemma find_model_name n l m :
  VectorSearch.find_model n l = Some m -> name m = n /\ m ∈ l.
Proof.
  unfold VectorSearch.find_model. intros H. apply find_some in H as [Hin Heq].
  apply String.eqb_eq in Heq. split; [assumption | now apply list_elem_of_In].
Qed.

Lemma elem_of_add_related this related s y :
  y ∈ add_related this related s <-> y ∈ related \/ one_hop this s y.
Proof.
  unfold add_related, one_hop, associates_to, targeted_by, refers_to.
  destruct (VectorSearch.find_model s (allModels this)) as [model |] eqn:Hfind.
  - rewrite (elem_of_fold_step _
               (fun col y => exists rf rm, c_references col = Some rf
                   /\ referenced_model this rf = Some rm /\ name rm = y)).
    2:{ intros r col z. destruct (c_references col) as [rf |].
        - destruct (referenced_model this rf) as [rm |] eqn:Hrm.
          + rewrite elem_of_add. split.
            * intros [? | ->]; [auto | right; eauto].
            * intros [? | (rf' & rm' & [= <-] & Hrm' & <-)]; [auto |].
              rewrite Hrm in Hrm'. injection Hrm' as <-. auto.
          + split; [auto | intros [? | (rf' & rm' & [= <-] & Hrm' & _)]; [auto | congruence]].
        - split; [auto | intros [? | (rf' & rm' & ? & _)]; [auto | congruence]]. }
    rewrite (elem_of_fold_step _
               (fun other y => name other = y
                   /\ exists a, a ∈ associations other /\ a_target a = s)).
    2:{ intros r other z.
        destruct (existsb _ (associations other)) eqn:Hex.
        - apply existsb_elem_of in Hex as (a & Ha & Heq). apply String.eqb_eq in Heq.
          rewrite elem_of_add. split.
          + intros [? | ->]; [auto | right; eauto].
          + intros [? | [<- _]]; auto.
        - split; [auto | intros [? | [_ (a & Ha & Heq)]]; [assumption |]].
          assert (existsb (fun assoc => String.eqb (a_target assoc) s)
                          (associations other) = true) as Htrue.
          { apply existsb_elem_of. exists a. split; [assumption | now apply String.eqb_eq]. }
          congruence. }
    rewrite (elem_of_fold_add a_target). split.
    + intros [[[? | (a & Ha & ->)] | (other & Ho & <- & a & Ha & Ht)]
             | (col & Hc & rf & rm & Href & Hrm & <-)].
      * auto.
      * right; left. eauto 10.
      * right; right; left. exists model, other, a. eauto 10.
      * right; right; right. exists model, col, rf, rm. eauto 10.
    + intros [? | [(m' & a & [= <-] & Ha & <-)
                  | [(m' & other & a & [= <-] & Ho & <- & Ha & Ht)
                    | (m' & col & rf & rm & [= <-] & Hc & Href & Hrm & <-)]]].
      * auto.
      * left; left; right. eauto.
      * left; right. exists other. eauto 10.
      * right. exists col. eauto 10.
  - split; [auto | intros [? | [H | [H | H]]]; [assumption | ..]];
      [destruct H as (m' & a & ? & _) | destruct H as (m' & o & a & ? & _)
       | destruct H as (m' & c & rf & rm & ? & _)]; congruence.
Qed.

(** The expansion is one hop from the selected names, less those names. *)
Lemma elem_of_findRelatedModels this selected y :
  y ∈ findRelatedModels this selected
  <-> (y ∉ selected) /\ exists s, s ∈ selected /\ one_hop this s y.
Proof.
  unfold findRelatedModels.
  rewrite elem_of_fold_delete.
  rewrite (elem_of_fold_step _ (one_hop this) (elem_of_add_related this)).
  split.
  - intros [[H | H] Hn]; [inversion H | auto].
  - intros [Hn H]; auto.
Qed.

Variable pipeline : string -> list Q.

Lemma vector_findRelevant_ready vs query k th :
  ready vs ->
  exists l, VectorSearch.findRelevant pipeline vs query k th = Returned l.
Proof.
  intros [Hi He]. unfold VectorSearch.findRelevant, VectorSearch.embed.
  rewrite Hi, He. simpl. eauto.
Qed.

Lemma elem_of_seed this query options y :
  y ∈ seed pipeline this query options
  <-> y ∈ vector_signal pipeline this query options \/ y ∈ keyword_signal this query.
Proof.
  unfold seed, keyword_signal.
  rewrite (elem_of_fold_add name), elem_of_of_list, elem_of_map. reflexivity.
Qed.

(** The list [findRelevant] returns, in terms of the seed set and the
    expansion. *)
Lemma findRelevant_unfold this query options :
  ready (vectorSearch this) ->
  findRelevant pipeline this query options
  = Returned
      (List.filter
         (fun m => Ordered.has (name m)
                     (fold_left Ordered.add
                                (relational_signal pipeline this query options)
                                (seed pipeline this query options)))
         (allModels this)).
Proof.
  intros Hready.
  destruct (vector_findRelevant_ready (vectorSearch this) query
              (default 5%Z (topK options)) (default (1 # 4)%Q (threshold options)) Hready)
    as [l Hl].
  unfold findRelevant, relational_signal, seed, vector_signal. rewrite Hl.
  destruct (default true (includeRelated options) && _); reflexivity.
Qed.

End RetrievalFacts.

Section RetrievalTheorems.

Import HybridRetrieval Spec.

Variable pipeline : string -> list Q.


(** C1: whenever the index is ready, [findRelevant] returns exactly the
    entities of [allModels] whose name is in the union of the vector, the
    keyword and the relational signal, in the order of [allModels]; and the
    result depends on the embedding index only through the vector results,
    so equal snapshots and equal vector results give equal outputs. *)
Theorem findRelevant_snapshot_order this query options :
  ready (vectorSearch this) ->
  exists l,
    findRelevant pipeline this query options = Returned l
    /\ l = List.filter
             (fun m => bool_decide
                         (name m ∈ vector_signal pipeline this query options
                                   ++ keyword_signal this query
                                   ++ relational_signal pipeline this query options))
             (allModels this)
    /\ l `sublist_of` allModels this
    /\ forall this',
         allModels this' = allModels this ->
         VectorSearch.findRelevant pipeline (vectorSearch this') query
           (default 5%Z (topK options)) (default (1 # 4)%Q (threshold options))
         = VectorSearch.findRelevant pipeline (vectorSearch this) query
             (default 5%Z (topK options)) (default (1 # 4)%Q (threshold options)) ->
         findRelevant pipeline this' query options = Returned l.
Proof.
  intros Hready. eexists. split; [now apply findRelevant_unfold |].
  split; [| split].
  - apply filter_ext. intros m. unfold Ordered.has. apply bool_decide_ext.
    rewrite elem_of_fold_add_id, elem_of_seed, !elem_of_app. tauto.
  - apply filter_sublist.
  - intros this' Hmodels Hvector.
    rewrite <- (findRelevant_unfold pipeline this query options Hready).
    unfold findRelevant, findRelatedModels, add_related, referenced_model, findByKeywords.
    rewrite Hvector, Hmodels. reflexivity.
Qed.

Lemma seed_without_related this query options :
  seed pipeline this query (without_related options) = seed pipeline this query options.
Proof. reflexivity. Qed.


End RetrievalTheorems.

(** ** The embedding index *)

Section IndexFacts.

Import VectorSearch.

Variable pipeline : string -> list Q.

(** A call with a list of the length of the held one changes nothing. *)
Lemma initialize_skips_equal_length this models' :
  initialized this = true ->
  List.length (models this) = List.length models' ->
  initialize pipeline this models' = this.
Proof.
  intros Hi Hlen. unfold initialize.
  rewrite Hi, Hlen, Nat.eqb_refl. reflexivity.
Qed.

(** Any other call rebuilds the index from the supplied models alone. *)
Lemma initialize_rebuilds this models' :
  initialized this = false \/ List.length (models this) <> List.length models' ->
  initialize pipeline this models' = initialize pipeline new models'.
Proof.
  intros H. unfold initialize.
  assert (initialized this && (List.length (models this) =? List.length models') = false)
    as ->.
  { destruct H as [-> | H]; [reflexivity |].
    apply Nat.eqb_neq in H. rewrite H. apply andb_false_r. }
  reflexivity.
Qed.

(** Supplying the held list again gives what a rebuild would give. *)
Lemma initialize_again models' :
  initialize pipeline (initialize pipeline new models') models'
  = initialize pipeline new models'.
Proof. now apply initialize_skips_equal_length. Qed.

Lemma initialize_ready this models' :
  Spec.ready this -> Spec.ready (initialize pipeline this models').
Proof.
  intros [Hi He]. unfold initialize.
  destruct (initialized this && _); split; auto.
Qed.

End IndexFacts.

(** ** Sorting by score *)

Section SortFacts.

Import VectorSearch Shape.

Lemma insert_desc_perm x l : insert_desc x l ≡ₚ x :: l.
Proof.
  induction l as [| y l IH]; simpl; [reflexivity |].
  destruct (Qltb (score x) (score y)); [| reflexivity].
  rewrite IH. apply Permutation_swap.
Qed.

Lemma sort_desc_perm l : sort_desc l ≡ₚ l.
Proof.
  induction l as [| x l IH]; simpl; [reflexivity |].
  rewrite insert_desc_perm. now rewrite IH.
Qed.

Lemma Qltb_true x y : Qltb x y = true -> (x <= y)%Q.
Proof.
  unfold Qltb. intros H. apply negb_true_iff in H.
  destruct (Qlt_le_dec x y) as [Hlt | Hle]; [now apply Qlt_le_weak |].
  apply Qle_bool_iff in Hle. congruence.
Qed.

Lemma Qltb_false x y : Qltb x y = false -> (y <= x)%Q.
Proof.
  unfold Qltb. intros H. apply negb_false_iff in H. now apply Qle_bool_iff.
Qed.

Lemma insert_desc_descending x l : descending l -> descending (insert_desc x l).
Proof.
  induction l as [| y l IH]; simpl; [auto |].
  intros [Hall Hd]. destruct (Qltb (score x) (score y)) eqn:Hlt; simpl.
  - split; [| auto].
    rewrite insert_desc_perm. constructor; [now apply Qltb_true | assumption].
  - apply Qltb_false in Hlt. split; [| auto].
    constructor; [assumption |].
    eapply Forall_impl; [exact Hall |]. intros z Hz. simpl in Hz.
    now apply Qle_trans with (score y).
Qed.

Lemma sort_desc_descending l : descending (sort_desc l).
Proof.
  induction l as [| x l IH]; simpl; [exact I | now apply insert_desc_descending].
Qed.

Lemma descending_filter (p : Score -> bool) l :
  descending l -> descending (List.filter p l).
Proof.
  induction l as [| x l IH]; simpl; [auto |].
  intros [Hall Hd]. destruct (p x); simpl; [| auto].
  split; [| auto].
  apply Forall_forall. intros y Hy. apply elem_of_filter_bool in Hy as [Hy _].
  revert y Hy. now apply Forall_forall.
Qed.

End SortFacts.

Section ExplainFacts.

Import HybridRetrieval Spec.

Variable pipeline : string -> list Q.
Variable toFixed1 : Q -> string.

Lemma join_head sep c x rest :
  exists t, Js.join sep (String c x :: rest) = String c t.
Proof. destruct rest; simpl; eauto. Qed.

Lemma reason_no_match keywordMatches relatedModels s :
  String.eqb (reason (explain toFixed1 keywordMatches relatedModels s)) "no match"
  = Regex.is_nil (reasons toFixed1 keywordMatches relatedModels s).
Proof.
  unfold explain, reasons; simpl.
  destruct (VectorSearch.Qltb _ _);
    destruct (Ordered.has _ keywordMatches);
    destruct (Ordered.has _ relatedModels); reflexivity.
Qed.

Lemma has_reason_reasons keywordMatches relatedModels s :
  negb (Regex.is_nil (reasons toFixed1 keywordMatches relatedModels s))
  = has_reason keywordMatches relatedModels s.
Proof.
  unfold has_reason, reasons.
  destruct (VectorSearch.Qltb _ _);
    destruct (Ordered.has _ keywordMatches);
    destruct (Ordered.has _ relatedModels); reflexivity.
Qed.

(** An entry that has a reason carries the reasons, joined. *)
Lemma reason_joined keywordMatches relatedModels s :
  has_reason keywordMatches relatedModels s = true ->
  reason (explain toFixed1 keywordMatches relatedModels s)
  = Js.join ", " (reasons toFixed1 keywordMatches relatedModels s).
Proof.
  unfold has_reason, explain, reasons; simpl.
  destruct (VectorSearch.Qltb _ _);
    destruct (Ordered.has _ keywordMatches);
    destruct (Ordered.has _ relatedModels); try reflexivity; discriminate.
Qed.

(** C8, as the code has it: when the index is ready, [explainSelection]
    returns, in descending score order, one entry for each indexed entity
    that has a reason: a vector score above 0.3, a keyword match, or
    membership in the one-hop expansion of the ten best vector hits of
    non-negative score.  Every other entity is omitted, whatever its
    score.  The scores are those of [getScores], one for each entry of the
    index, from the highest down; the entry of a score carries the name,
    the score, the two flags and the reasons, joined. *)
Theorem explainSelection_entries this query :
  ready (vectorSearch this) ->
  exists vectorScores vectorResults,
    VectorSearch.getScores pipeline (vectorSearch this) query = Returned vectorScores
    /\ vectorScores
         ≡ₚ VectorSearch.all_scores (vectorSearch this) (pipeline query)
    /\ Shape.descending vectorScores
    /\ VectorSearch.findRelevant pipeline (vectorSearch this) query 10 0
       = Returned vectorResults
    /\ let keywordMatches :=
         Ordered.of_list (map name (findByKeywords this (extractKeywords query))) in
       let relatedModels :=
         Ordered.of_list
           (findRelatedModels this (Ordered.of_list (map name vectorResults))) in
       explainSelection pipeline toFixed1 this query
       = Returned
           (map (explain toFixed1 keywordMatches relatedModels)
                (List.filter (has_reason keywordMatches relatedModels) vectorScores))
       /\ Shape.descending
            (List.filter (has_reason keywordMatches relatedModels) vectorScores)
       /\ (forall s,
             model (explain toFixed1 keywordMatches relatedModels s)
             = VectorSearch.s_name s
             /\ vector (scores (explain toFixed1 keywordMatches relatedModels s))
                = VectorSearch.score s
             /\ keyword (scores (explain toFixed1 keywordMatches relatedModels s))
                = Ordered.has (VectorSearch.s_name s) keywordMatches
             /\ related (scores (explain toFixed1 keywordMatches relatedModels s))
                = Ordered.has (VectorSearch.s_name s) relatedModels
             /\ (has_reason keywordMatches relatedModels s = true ->
                 reason (explain toFixed1 keywordMatches relatedModels s)
                 = Js.join ", " (reasons toFixed1 keywordMatches relatedModels s)))
       /\ (forall y, y ∈ keywordMatches <-> y ∈ keyword_signal this query)
       /\ (forall y,
             y ∈ relatedModels
             <-> (y ∉ map name vectorResults)
                 /\ exists x, x ∈ map name vectorResults /\ one_hop this x y).
Proof.
  intros [Hi He].
  unfold explainSelection, VectorSearch.getScores, VectorSearch.findRelevant,
    VectorSearch.embed.
  rewrite Hi, He. cbn [negb]. do 2 eexists.
  split; [reflexivity |].
  split; [apply sort_desc_perm |].
  split; [apply sort_desc_descending |].
  split; [reflexivity |].
  cbv zeta. split; [| split; [| split; [| split]]].
  - f_equal. rewrite filter_map_comm. f_equal. apply filter_ext. intros s.
    rewrite reason_no_match. apply has_reason_reasons.
  - apply descending_filter, sort_desc_descending.
  - intros s. repeat (split; [reflexivity |]). apply reason_joined.
  - intros y. rewrite elem_of_of_list. reflexivity.
  - intros y. rewrite elem_of_of_list, elem_of_findRelatedModels.
    split; intros [Hn (x & Hx & Hhop)]; (split; [| exists x]).
    + now rewrite elem_of_of_list in Hn.
    + split; [now apply elem_of_of_list | assumption].
    + now rewrite elem_of_of_list.
    + split; [now apply elem_of_of_list | assumption].
Qed.

End ExplainFacts.

Section ConsolidatorFacts.

Import Analyzer.

Lemma merge_file_empty (associations : gmap string (list Association)) :
  merge_file ∅ associations = associations.
Proof.
  unfold merge_file.
  apply (map_fold_weak_ind (fun r m => r = m)); [reflexivity |].
  intros i x m r Hnone ->. rewrite Hnone. reflexivity.
Qed.

Variable parse : string -> outcome Node.
Variable scope_error : Node -> option string.

Lemma parseCentralizedAssociations_dedicated dir content :
  readFile dir "associations.js" = Some content
  \/ (readFile dir "associations.js" = None
      /\ readFile dir "associations.ts" = Some content) ->
  parseCentralizedAssociations parse scope_error dir = parseCentralizedAssociationFile parse scope_error content.
Proof.
  unfold parseCentralizedAssociations, dedicatedFiles. simpl.
  intros [-> | [-> ->]];
    destruct (parseCentralizedAssociationFile parse scope_error content) as [m log];
    now rewrite merge_file_empty.
Qed.

(** C2: when [associations.js] or [associations.ts] exists, the map
    returned is the map parsed from the first of them that exists, and
    nothing else in the directory has any influence on it: two directories
    with the same dedicated files give the same map, whatever their index
    files declare. *)
Theorem dedicated_file_supersedes_index dir :
  is_Some (readFile dir "associations.js") \/ is_Some (readFile dir "associations.ts") ->
  exists content,
    (readFile dir "associations.js" = Some content
     \/ (readFile dir "associations.js" = None
         /\ readFile dir "associations.ts" = Some content))
    /\ parseCentralizedAssociations parse scope_error dir
       = parseCentralizedAssociationFile parse scope_error content
    /\ forall dir',
         readFile dir' "associations.js" = readFile dir "associations.js" ->
         readFile dir' "associations.ts" = readFile dir "associations.ts" ->
         parseCentralizedAssociations parse scope_error dir'
         = parseCentralizedAssociations parse scope_error dir.
Proof.
  intros H.
  assert (exists content,
             readFile dir "associations.js" = Some content
             \/ (readFile dir "associations.js" = None
                 /\ readFile dir "associations.ts" = Some content)) as [content Hc].
  { destruct (readFile dir "associations.js") as [c |] eqn:Hjs; [eauto |].
    destruct H as [[c Hc] | [c Hc]]; [discriminate | eauto]. }
  exists content. split; [assumption |]. split.
  - now apply parseCentralizedAssociations_dedicated.
  - intros dir' Hjs Hts.
    rewrite (parseCentralizedAssociations_dedicated dir content Hc).
    apply parseCentralizedAssociations_dedicated. rewrite Hjs, Hts. assumption.
Qed.

(** *** Merge *)

Lemma chars_append s1 s2 : Js.chars (s1 +:+ s2) = Js.chars s1 ++ Js.chars s2.
Proof.
  unfold Js.chars. induction s1 as [| c s1 IH]; [reflexivity |].
  change (String c s1 +:+ s2) with (String c (s1 +:+ s2)). simpl. now rewrite IH.
Qed.

Lemma chars_inj s1 s2 : Js.chars s1 = Js.chars s2 -> s1 = s2.
Proof.
  unfold Js.chars. intros H.
  rewrite <- (string_of_list_ascii_of_string s1), <- (string_of_list_ascii_of_string s2).
  now rewrite H.
Qed.

(** On relation kinds and targets without a dash, as both parsers produce
    them, two associations have one key exactly when they agree on kind,
    target and alias-or-empty. *)
Lemma dedup_key_inj a b :
  Spec.dash_free (a_type a) -> Spec.dash_free (a_target a) ->
  Spec.dash_free (a_type b) -> Spec.dash_free (a_target b) ->
  dedup_key a = dedup_key b ->
  a_type a = a_type b /\ a_target a = a_target b
  /\ Js.or_else (a_as a) "" = Js.or_else (a_as b) "".
Proof.
  unfold Spec.dash_free, dedup_key. intros Hta Hga Htb Hgb Hkey.
  apply (f_equal Js.chars) in Hkey. rewrite !chars_append in Hkey. simpl in Hkey.
  apply run_unique with (p := fun c => if ascii_dec c "-"%char then false else true)
    in Hkey as (Ht & _ & Hkey); [| auto ..].
  apply run_unique with (p := fun c => if ascii_dec c "-"%char then false else true)
    in Hkey as (Hg & _ & Hkey); [| auto ..].
  auto using chars_inj.
Qed.

Lemma with_associations_id model : with_associations model (associations model) = model.
Proof. destruct model; reflexivity. Qed.

Lemma merge_model_associations central model :
  associations (merge_model central model)
  = associations model
    ++ List.filter
         (fun a => bool_decide (dedup_key a ∉ map dedup_key (associations model)))
         (default [] (central !! name model)).
Proof.
  unfold merge_model. destruct (central !! name model) as [centralized |]; simpl.
  2:{ now rewrite app_nil_r. }
  assert (forall a,
             bool_decide (dedup_key a ∉ (list_to_set (map dedup_key (associations model)) : gset string))
             = bool_decide (dedup_key a ∉ map dedup_key (associations model))) as Hkeys.
  { intros a. apply bool_decide_ext. now rewrite elem_of_list_to_set. }
  rewrite (filter_ext _ _ Hkeys).
  destruct (0 <? List.length centralized) eqn:Hlen.
  - destruct (0 <? List.length (List.filter _ centralized)) eqn:Hnew; [reflexivity |].
    apply length_pos_false in Hnew. rewrite Hnew. now rewrite app_nil_r.
  - apply length_pos_false in Hlen. subst. simpl. now rewrite app_nil_r.
Qed.

Lemma merge_model_rest central model :
  name (merge_model central model) = name model
  /\ tableName (merge_model central model) = tableName model
  /\ columns (merge_model central model) = columns model
  /\ description (merge_model central model) = description model.
Proof.
  unfold merge_model. destruct (central !! name model) as [centralized |]; [| auto].
  destruct (0 <? List.length centralized); [| auto].
  destruct (0 <? List.length (List.filter _ centralized)); auto.
Qed.

(** What the merge does: it leaves every model's name, table name
    and columns alone and keeps its association list as a prefix; what is
    appended is, in order, every centralized association of that model
    whose key is not the key of an association the model had before the
    merge.  So a centralized association with the key of an in-file one is
    dropped, and a model whose centralized associations all have in-file
    keys is unchanged. *)
Theorem merge_appends_new_keys models central :
  Forall2
    (fun model merged =>
       name merged = name model
       /\ tableName merged = tableName model
       /\ columns merged = columns model
       /\ exists appended,
            associations merged = associations model ++ appended
            /\ appended
               = List.filter
                   (fun a => bool_decide
                               (dedup_key a ∉ map dedup_key (associations model)))
                   (default [] (central !! name model))
            /\ (forall a, a ∈ appended ->
                  forall b, b ∈ associations model -> dedup_key b <> dedup_key a)
            /\ ((forall a, a ∈ default [] (central !! name model) ->
                   dedup_key a ∈ map dedup_key (associations model)) ->
                associations merged = associations model))
    models (mergeCentralizedAssociations models central).
Proof.
  unfold mergeCentralizedAssociations.
  induction models as [| model models IH]; simpl; constructor; [| assumption].
  destruct (merge_model_rest central model) as (Hn & Ht & Hc & _).
  repeat (split; [assumption |]).
  eexists. split; [apply merge_model_associations |]. split; [reflexivity |]. split.
  - intros a Ha b Hb Heq.
    apply elem_of_filter_bool in Ha as [_ Ha]. apply bool_decide_eq_true in Ha.
    apply Ha. rewrite <- Heq. apply elem_of_map. eauto.
  - intros Hall. rewrite merge_model_associations.
    rewrite filter_none; [now rewrite app_nil_r |].
    intros a Ha. apply bool_decide_eq_false. intros Hn'. apply Hn'. now apply Hall.
Qed.

End ConsolidatorFacts.

Section AnalyzerFacts.

Import Analyzer Spec.

Variable parse : string -> outcome Node.
Variable scope_error : Node -> option string.

Lemma readFile_listed (dir : Directory) file :
  file ∈ map fst dir -> is_Some (readFile dir file).
Proof.
  induction dir as [| [f c] dir IH]; simpl; intros H; [inversion H |].
  destruct (String.eqb f file) eqn:E; [eauto |].
  apply elem_of_cons in H as [-> | H]; [| auto].
  rewrite String.eqb_refl in E. discriminate.
Qed.

(** The scan visits every file: what it returns is what the files
    contribute one by one, in their order. *)
Lemma scan_fold dir files acc :
  fold_left (scan_file parse scope_error dir) files acc
  = (fst acc ++ omap (entity_of parse scope_error dir) files,
     snd acc ++ omap (failure_of parse scope_error dir) files).
Proof.
  revert acc. induction files as [| f files IH]; intros [ms log]; simpl.
  - now rewrite !app_nil_r.
  - rewrite IH. unfold scan_file, entity_of, failure_of. simpl.
    destruct (readFile dir f) as [content |]; simpl.
    + destruct (parseModelFile parse scope_error content f) as [[m |] | e]; simpl;
        rewrite <- ?app_assoc; reflexivity.
    + rewrite <- app_assoc. reflexivity.
Qed.

Lemma scan_eq dir files :
  scan parse scope_error dir files
  = (omap (entity_of parse scope_error dir) files, omap (failure_of parse scope_error dir) files).
Proof. unfold scan. now rewrite scan_fold. Qed.

Lemma parseModelFile_cases content file :
  match parseColumns parse scope_error content with
  | Thrown e => parseModelFile parse scope_error content file = Thrown e
  | Returned [] => parseModelFile parse scope_error content file = Returned None
  | Returned (_ :: _) =>
      exists m, parseModelFile parse scope_error content file = Returned (Some m)
                /\ name m = stem file
  end.
Proof.
  unfold parseModelFile.
  destruct (parseColumns parse scope_error content) as [[| c cs] | e]; simpl; eauto.
Qed.

Lemma entity_of_well_formed dir file :
  file ∈ map fst dir ->
  match entity_of parse scope_error dir file with
  | Some m => well_formed_file parse scope_error dir file = true /\ name m = stem file
  | None => well_formed_file parse scope_error dir file = false
  end.
Proof.
  intros [content Hc]%readFile_listed.
  unfold entity_of, well_formed_file. rewrite Hc.
  pose proof (parseModelFile_cases content file) as H.
  destruct (parseColumns parse scope_error content) as [[| c cs] | e].
  - now rewrite H.
  - destruct H as (m & -> & Hm). auto.
  - now rewrite H.
Qed.

Lemma failure_of_malformed dir file :
  file ∈ map fst dir ->
  match failure_of parse scope_error dir file with
  | Some d => malformed_file parse scope_error dir file = true /\ is_model_file_failure d = true
  | None => malformed_file parse scope_error dir file = false
  end.
Proof.
  intros [content Hc]%readFile_listed.
  unfold failure_of, malformed_file. rewrite Hc.
  destruct (parseModelFile parse scope_error content file) as [[m |] | e]; auto.
Qed.

Lemma omap_names dir files :
  (forall f, f ∈ files -> f ∈ map fst dir) ->
  map name (omap (entity_of parse scope_error dir) files)
  = map stem (List.filter (well_formed_file parse scope_error dir) files).
Proof.
  induction files as [| f files IH]; intros Hin; simpl; [reflexivity |].
  pose proof (entity_of_well_formed dir f (Hin f (list_elem_of_here _ _))) as Hf.
  assert (forall g, g ∈ files -> g ∈ map fst dir) as Hin'
      by (intros g Hg; apply Hin; now apply list_elem_of_further).
  destruct (entity_of parse scope_error dir f) as [m |].
  - destruct Hf as [Hwf Hname]. rewrite Hwf. simpl.
    f_equal; [assumption | now apply IH].
  - rewrite Hf. now apply IH.
Qed.

Lemma omap_failures dir files :
  (forall f, f ∈ files -> f ∈ map fst dir) ->
  List.length (omap (failure_of parse scope_error dir) files)
  = List.length (List.filter (malformed_file parse scope_error dir) files)
  /\ List.filter is_model_file_failure (omap (failure_of parse scope_error dir) files)
     = omap (failure_of parse scope_error dir) files.
Proof.
  induction files as [| f files IH]; intros Hin; simpl; [auto |].
  pose proof (failure_of_malformed dir f (Hin f (list_elem_of_here _ _))) as Hf.
  assert (forall g, g ∈ files -> g ∈ map fst dir) as Hin'
      by (intros g Hg; apply Hin; now apply list_elem_of_further).
  destruct (IH Hin') as [IHl IHf].
  destruct (failure_of parse scope_error dir f) as [d |].
  - destruct Hf as [Hm Hd]. rewrite Hm. simpl. rewrite Hd. simpl in *.
    split; [now f_equal | now f_equal].
  - rewrite Hf. auto.
Qed.

Lemma model_files_listed (dir : Directory) f :
  f ∈ List.filter is_model_file (map fst dir) -> f ∈ map fst dir.
Proof. intros H. now apply elem_of_filter_bool in H as [H _]. Qed.

(** The warnings of the second pass are about association files. *)
Lemma parseCentralizedAssociationFile_log content :
  List.filter is_model_file_failure (snd (parseCentralizedAssociationFile parse scope_error content)) = [].
Proof.
  unfold parseCentralizedAssociationFile.
  destruct (parse content) as [ast |]; [| reflexivity].
  destruct (scope_error ast); reflexivity.
Qed.

Lemma index_tier_log dir files acc :
  List.filter is_model_file_failure (snd acc) = [] ->
  List.filter is_model_file_failure
    (snd (fold_left
            (fun acc filename =>
               match readFile dir filename with
               | Some content =>
                   let (associations, log) := parseCentralizedAssociationFile parse scope_error content in
                   (merge_file (fst acc) associations, snd acc ++ log)
               | None => acc
               end) files acc)) = [].
Proof.
  revert acc. induction files as [| f files IH]; intros acc Hacc; simpl; [assumption |].
  apply IH. destruct (readFile dir f) as [content |]; [| assumption].
  pose proof (parseCentralizedAssociationFile_log content) as Hlog.
  destruct (parseCentralizedAssociationFile parse scope_error content) as [m log]. simpl in *.
  now rewrite List.filter_app, Hacc, Hlog.
Qed.

Lemma parseCentralizedAssociations_log dir :
  List.filter is_model_file_failure (snd (parseCentralizedAssociations parse scope_error dir)) = [].
Proof.
  unfold parseCentralizedAssociations, dedicatedFiles. simpl.
  destruct (readFile dir "associations.js") as [c |].
  { pose proof (parseCentralizedAssociationFile_log c) as H.
    now destruct (parseCentralizedAssociationFile parse scope_error c). }
  destruct (readFile dir "associations.ts") as [c |].
  { pose proof (parseCentralizedAssociationFile_log c) as H.
    now destruct (parseCentralizedAssociationFile parse scope_error c). }
  now apply index_tier_log.
Qed.

Lemma merge_names ms central :
  map name (mergeCentralizedAssociations ms central) = map name ms.
Proof.
  unfold mergeCentralizedAssociations. rewrite map_map. apply map_ext.
  intros m. apply merge_model_rest.
Qed.

Variable path_join : string -> string -> string.
Variable path_dirname : string -> string.
Variable fs : string -> option Directory.

(** What [analyzeProject] returns for a directory that exists and has
    model files. *)
Lemma analyzeProject_unfold projectRoot dir :
  fs (path_join projectRoot "models") = Some dir ->
  let files := List.filter is_model_file (map fst dir) in
  let entities := omap (entity_of parse scope_error dir) files in
  let failures := omap (failure_of parse scope_error dir) files in
  analyzeProject parse scope_error path_join fs projectRoot
  = if List.length files =? 0
    then (Thrown "No model files found in the models directory", [])
    else if List.length entities =? 0
         then (Thrown "No valid Sequelize models found", failures)
         else
           let central := parseCentralizedAssociations parse scope_error dir in
           let merged := mergeCentralizedAssociations entities (fst central) in
           (Returned {| models := merged; schema := generateSchemaDescription merged |},
            failures ++ snd central).
Proof.
  intros Hdir. unfold analyzeProject. rewrite Hdir, scan_eq. simpl.
  destruct (_ =? 0); [reflexivity |].
  destruct (_ =? 0); [reflexivity |].
  destruct (parseCentralizedAssociations parse scope_error dir). reflexivity.
Qed.

(** What one file contributes to the scan: a well-formed file an entity
    and no diagnostic, a malformed file a diagnostic and no entity, and any
    other file, one on which nothing throws and in which no field is
    recognized, neither. *)
Lemma file_contribution dir file :
  file ∈ map fst dir ->
  (well_formed_file parse scope_error dir file = true ->
   is_Some (entity_of parse scope_error dir file)
   /\ failure_of parse scope_error dir file = None)
  /\ (malformed_file parse scope_error dir file = true ->
      entity_of parse scope_error dir file = None
      /\ is_Some (failure_of parse scope_error dir file))
  /\ (well_formed_file parse scope_error dir file = false ->
      malformed_file parse scope_error dir file = false ->
      entity_of parse scope_error dir file = None
      /\ failure_of parse scope_error dir file = None).
Proof.
  intros [content Hc]%readFile_listed.
  unfold well_formed_file, malformed_file, entity_of, failure_of, parseModelFile.
  rewrite Hc.
  destruct (parseColumns parse scope_error content) as [[| c cs] | e]; simpl;
    repeat split; intros; eauto; discriminate.
Qed.

(** C4, as the code has it: with N well-formed and M malformed definition
    files in the models directory, the first pass visits every file and
    ends with N entities and M diagnostics; when N is positive
    [analyzeProject] returns a snapshot of exactly N entities and has
    recorded exactly M model-file diagnostics; when N is zero it throws,
    having recorded the M diagnostics of the files it scanned.  A file is
    malformed when [parse] or [traverse] throws on it; a file on which
    neither throws and that has no recognized field counts on neither
    side: it gives no entity and no diagnostic. *)
Theorem analyzeProject_counts projectRoot dir :
  fs (path_join projectRoot "models") = Some dir ->
  let files := List.filter is_model_file (map fst dir) in
  let N := List.length (List.filter (well_formed_file parse scope_error dir) files) in
  let M := List.length (List.filter (malformed_file parse scope_error dir) files) in
  (List.length (fst (scan parse scope_error dir files)) = N
   /\ List.length (snd (scan parse scope_error dir files)) = M)
  /\ (0 < N ->
      exists s log,
        analyzeProject parse scope_error path_join fs projectRoot = (Returned s, log)
        /\ List.length (models s) = N
        /\ List.length (List.filter is_model_file_failure log) = M)
  /\ (N = 0 ->
      exists e log,
        analyzeProject parse scope_error path_join fs projectRoot = (Thrown e, log)
        /\ List.length log = M)
  /\ scan parse scope_error dir files
     = (omap (entity_of parse scope_error dir) files,
        omap (failure_of parse scope_error dir) files)
  /\ (forall file, file ∈ files ->
        (well_formed_file parse scope_error dir file = true ->
         is_Some (entity_of parse scope_error dir file)
         /\ failure_of parse scope_error dir file = None)
        /\ (malformed_file parse scope_error dir file = true ->
            entity_of parse scope_error dir file = None
            /\ is_Some (failure_of parse scope_error dir file))
        /\ (well_formed_file parse scope_error dir file = false ->
            malformed_file parse scope_error dir file = false ->
            entity_of parse scope_error dir file = None
            /\ failure_of parse scope_error dir file = None)).
Proof.
  intros Hdir files N M.
  pose proof (omap_names dir files (model_files_listed dir)) as Hnames.
  destruct (omap_failures dir files (model_files_listed dir)) as [Hfail Hkind].
  assert (List.length (omap (entity_of parse scope_error dir) files) = N) as HN.
  { subst N. rewrite <- (length_map name), Hnames. now rewrite length_map. }
  split; [| split; [| split; [| split; [apply scan_eq |]]]].
  4:{ intros file Hfile. apply file_contribution.
      now apply (model_files_listed dir). }
  - rewrite scan_eq. simpl. auto.
  - intros Hpos.
    rewrite (analyzeProject_unfold projectRoot dir Hdir). fold files.
    destruct (List.length files =? 0) eqn:Hfiles.
    { apply Nat.eqb_eq, length_zero_iff_nil in Hfiles. exfalso.
      subst N. rewrite Hfiles in Hpos. simpl in Hpos. lia. }
    destruct (List.length (omap (entity_of parse scope_error dir) files) =? 0) eqn:Hnone.
    { apply Nat.eqb_eq in Hnone. lia. }
    do 2 eexists. split; [reflexivity |]. simpl. split.
    + unfold mergeCentralizedAssociations. now rewrite length_map.
    + rewrite List.filter_app, Hkind, parseCentralizedAssociations_log, app_nil_r.
      exact Hfail.
  - intros Hzero.
    rewrite (analyzeProject_unfold projectRoot dir Hdir). fold files.
    destruct (List.length files =? 0) eqn:Hfiles.
    { do 2 eexists. split; [reflexivity |].
      apply Nat.eqb_eq, length_zero_iff_nil in Hfiles. subst M. now rewrite Hfiles. }
    rewrite HN, Hzero. simpl. do 2 eexists. split; [reflexivity | exact Hfail].
Qed.

(** C9, as the code has it: the entity names of a snapshot are the names,
    without extension, of the well-formed definition files, in directory
    order; so they are pairwise distinct whenever the definition files
    have pairwise distinct names once the extension is removed. *)
Theorem entity_names_follow_file_names projectRoot dir s log :
  fs (path_join projectRoot "models") = Some dir ->
  analyzeProject parse scope_error path_join fs projectRoot = (Returned s, log) ->
  let files := List.filter is_model_file (map fst dir) in
  map name (models s) = map stem (List.filter (well_formed_file parse scope_error dir) files)
  /\ (NoDup (map stem files) -> NoDup (map name (models s))).
Proof.
  intros Hdir Hrun files.
  rewrite (analyzeProject_unfold projectRoot dir Hdir) in Hrun. fold files in Hrun.
  destruct (List.length files =? 0); [discriminate |].
  destruct (List.length (omap (entity_of parse scope_error dir) files) =? 0); [discriminate |].
  injection Hrun as <- _. simpl.
  rewrite merge_names, (omap_names dir files (model_files_listed dir)).
  split; [reflexivity |]. apply NoDup_map_filter.
Qed.

(** C6: [reload] re-runs [analyzeProject].  When that returns a snapshot
    (assembled in full: a non-empty model list and the description
    generated from it), the snapshot held is replaced by it and the call
    returns; when it throws, the object is left exactly as it was and the
    same failure is thrown to the caller. *)
Theorem reload_swaps_or_keeps (this : WatchableSchema) :
  match analyzeProject parse scope_error path_join fs (path_dirname (_modelsPath this)) with
  | (Returned newSchemaInfo, log) =>
      reload parse scope_error path_join path_dirname fs this
      = ({| _schemaInfo := newSchemaInfo; _modelsPath := _modelsPath this;
            _watching := _watching this |}, Returned tt, log)
      /\ schema newSchemaInfo = generateSchemaDescription (models newSchemaInfo)
      /\ models newSchemaInfo <> []
  | (Thrown e, log) =>
      fst (fst (reload parse scope_error path_join path_dirname fs this)) = this
      /\ snd (fst (reload parse scope_error path_join path_dirname fs this)) = Thrown e
  end.
Proof.
  unfold reload.
  destruct (analyzeProject parse scope_error path_join fs (path_dirname (_modelsPath this)))
    as [[s | e] log] eqn:Hrun; [| auto].
  split; [reflexivity |].
  unfold analyzeProject in Hrun.
  destruct (fs _) as [dir |]; [| discriminate].
  destruct (_ =? 0); [discriminate |].
  destruct (scan parse scope_error dir _) as [ms slog].
  destruct (List.length ms =? 0) eqn:Hlen; [discriminate |].
  destruct (parseCentralizedAssociations parse scope_error dir) as [central clog].
  injection Hrun as <- _. simpl. split; [reflexivity |].
  unfold mergeCentralizedAssociations. destruct ms; [discriminate | discriminate].
Qed.

End AnalyzerFacts.

Section RegexFacts.

Import Regex Spec.

Lemma star_runs_spec p s a r :
  In (a, r) (star_runs p s) -> s = a ++ r /\ forallb p a = true.
Proof.
  revert a r. induction s as [| c s IH]; intros a r; simpl.
  - intros [[= <- <-] | []]. auto.
  - destruct (p c) eqn:Hp.
    + rewrite in_app_iff, in_map_iff. intros [([a' r'] & [= <- <-] & Hin) | [[= <- <-] | []]].
      * apply IH in Hin as [-> Hall]. simpl. rewrite Hp. auto.
      * auto.
    + intros [[= <- <-] | []]. auto.
Qed.

Lemma in_matches_chr c s m :
  In m (matches (Chr c) s) -> groups m = [] /\ consumed m = [c].
Proof.
  simpl. destruct s as [| x s]; [intros [] |].
  destruct (ascii_dec x c) as [-> |]; [| intros []]. intros [<- | []]. auto.
Qed.

Lemma in_matches_cls p s m :
  In m (matches (Cls p) s) -> groups m = [].
Proof.
  simpl. destruct s as [| x s]; [intros [] |].
  destruct (p x); [| intros []]. intros [<- | []]. auto.
Qed.

Lemma in_matches_cat r1 r2 s m :
  In m (matches (Cat r1 r2) s) ->
  exists m1 m2,
    In m1 (matches r1 s) /\ In m2 (matches r2 (rest m1))
    /\ groups m = groups m1 ++ groups m2
    /\ consumed m = consumed m1 ++ consumed m2.
Proof.
  simpl. rewrite in_flat_map. intros (m1 & H1 & H).
  apply in_map_iff in H as (m2 & <- & H2). exists m1, m2. auto.
Qed.

Lemma in_matches_star p s m :
  In m (matches (Star p) s) -> groups m = [].
Proof. simpl. rewrite in_map_iff. intros (ar & <- & _). reflexivity. Qed.

Lemma in_matches_star_consumed p s m :
  In m (matches (Star p) s) -> forallb p (consumed m) = true.
Proof.
  simpl. rewrite in_map_iff. intros ([a r] & <- & H).
  now apply star_runs_spec in H as [_ H].
Qed.

Lemma in_matches_plus p s m :
  In m (matches (Plus p) s) ->
  groups m = [] /\ consumed m <> [] /\ forallb p (consumed m) = true.
Proof.
  simpl. rewrite in_map_iff. intros ([a r] & <- & H).
  apply filter_In in H as [H Hne]. apply star_runs_spec in H as [_ Hall]. simpl in *.
  split; [reflexivity |]. split; [| assumption]. now destruct a.
Qed.


Lemma in_matches_group n r s m :
  In m (matches (Group n r) s) ->
  exists m', In m' (matches r s) /\ groups m = (n, consumed m') :: groups m'
             /\ consumed m = consumed m'.
Proof. simpl. rewrite in_map_iff. intros (m' & <- & H). eauto. Qed.

(** A match consumes a prefix of the text. *)
Lemma matches_consumed r s m :
  In m (matches r s) -> s = consumed m ++ rest m.
Proof.
  revert s m. induction r as [c | p | r1 IH1 r2 IH2 | p | p | r IH | n r IH];
    intros s m; simpl.
  - destruct s as [| x s]; [intros [] |].
    destruct (ascii_dec x c); [| intros []]. intros [<- | []]. reflexivity.
  - destruct s as [| x s]; [intros [] |].
    destruct (p x); [| intros []]. intros [<- | []]. reflexivity.
  - rewrite in_flat_map. intros (m1 & H1 & H).
    apply in_map_iff in H as (m2 & <- & H2). simpl.
    rewrite <- app_assoc, <- (IH2 _ _ H2). now apply IH1.
  - rewrite in_map_iff. intros ([a r] & <- & H). now apply star_runs_spec in H as [H _].
  - rewrite in_map_iff. intros ([a r] & <- & H). apply filter_In in H as [H _].
    now apply star_runs_spec in H as [H _].
  - rewrite in_app_iff. intros [H | [<- | []]]; [now apply IH | reflexivity].
  - rewrite in_map_iff. intros (m' & <- & H). simpl. now apply IH.
Qed.


(** A literal prefix captures nothing. *)
Lemma in_matches_lit_chars t k s m :
  In m (matches (lit_chars t k) s) ->
  exists s' m', In m' (matches k s') /\ groups m = groups m'.
Proof.
  revert s m. induction t as [| c t IH]; intros s m; simpl lit_chars.
  - eauto.
  - intros H. apply in_matches_cat in H as (m1 & m2 & H1 & H2 & Hg & _).
    apply in_matches_chr in H1 as [Hg1 _]. apply IH in H2 as (s' & m' & H' & Hg').
    exists s', m'. split; [assumption |]. now rewrite Hg, Hg1, Hg'.
Qed.

Lemma match_here_in r s m : match_here r s = Some m -> In m (matches r s).
Proof.
  unfold match_here. destruct (matches r s); simpl; [discriminate |].
  intros [= ->]. now left.
Qed.

Lemma search_in r s m : search r s = Some m -> exists s', In m (matches r s').
Proof.
  induction s as [| c s IH]; simpl.
  - destruct (match_here r []) eqn:E; [| discriminate].
    intros [= ->]. eauto using match_here_in.
  - destruct (match_here r (c :: s)) eqn:E.
    + intros [= ->]. eauto using match_here_in.
    + exact IH.
Qed.



End RegexFacts.

Section InFileAssociations.

Import Regex Analyzer Spec.




Lemma word_not_space c : Js.is_word c = true -> Js.is_space c = false.
Proof.
  unfold Js.is_word, Js.is_space. intros H.
  destruct (Nat.leb_spec 9 (Js.code c)), (Nat.leb_spec (Js.code c) 13),
    (Nat.eqb_spec (Js.code c) 32); simpl; try reflexivity; exfalso;
    repeat match goal with
           | H : context [?a <=? ?b] |- _ => destruct (Nat.leb_spec a b)
           | H : context [?a =? ?b] |- _ => destruct (Nat.eqb_spec a b)
           end; simpl in H; try discriminate; lia.
Qed.


Lemma word_identifier_dash_free s : word_identifier s -> dash_free s.
Proof.
  unfold word_identifier, dash_free. intros [_ H].
  induction (Js.chars s) as [| c l IH]; [reflexivity |]. simpl in *.
  apply andb_true_iff in H as [Hc Hl]. rewrite (IH Hl), andb_true_r.
  destruct (ascii_dec c "-"%char) as [-> |]; [discriminate Hc | reflexivity].
Qed.


End InFileAssociations.

Section InFileTheorem.

Import Regex Analyzer Examples Spec.



End InFileTheorem.

(** ** The properties on example data *)

(** ** The consolidator, further *)

Section ConsolidatorMore.

Import Analyzer Spec Shape.

Lemma merge_model_unchanged central model :
  (forall a, a ∈ default [] (central !! name model) ->
     dedup_key a ∈ map dedup_key (associations model)) ->
  merge_model central model = model.
Proof.
  intros Hall. unfold merge_model.
  destruct (central !! name model) as [centralized |]; [| reflexivity].
  destruct (0 <? List.length centralized); [| reflexivity].
  rewrite filter_none; [reflexivity |].
  intros a Ha. apply bool_decide_eq_false. intros Hn. apply Hn.
  rewrite elem_of_list_to_set. now apply Hall.
Qed.

(** X1: merging the same centralized map a second time changes nothing:
    after one merge every centralized key is the key of an association of
    the model. *)
Theorem merge_twice models central :
  mergeCentralizedAssociations (mergeCentralizedAssociations models central) central
  = mergeCentralizedAssociations models central.
Proof.
  unfold mergeCentralizedAssociations. rewrite map_map. apply map_ext.
  intros model. apply merge_model_unchanged.
  destruct (merge_model_rest central model) as (Hname & _).
  rewrite Hname, merge_model_associations. intros a Ha.
  rewrite map_app, elem_of_app.
  destruct (decide (dedup_key a ∈ map dedup_key (associations model))) as [Hin | Hout];
    [now left | right].
  apply elem_of_map. exists a. split; [| reflexivity].
  apply elem_of_filter_bool. split; [assumption |]. now apply bool_decide_eq_true.
Qed.

(** What [merge_file] holds for a model name: the list it had, followed by
    the list of the file. *)
Lemma merge_file_lookup (m1 m2 : gmap string (list Association)) k :
  merge_file m1 m2 !! k
  = match m2 !! k with
    | Some l2 => Some (default [] (m1 !! k) ++ l2)
    | None => m1 !! k
    end.
Proof.
  unfold merge_file. revert k.
  apply (map_fold_weak_ind
           (fun r m => forall k,
                r !! k = match m !! k with
                         | Some l2 => Some (default [] (m1 !! k) ++ l2)
                         | None => m1 !! k
                         end)).
  - intros k. now rewrite lookup_empty.
  - intros i x m r Hnone IH k. destruct (decide (i = k)) as [-> | Hne].
    + rewrite !lookup_insert_eq. rewrite IH, Hnone. reflexivity.
    + rewrite !lookup_insert_ne by assumption. apply IH.
Qed.

Variable parse : string -> outcome Node.
Variable scope_error : Node -> option string.

(** X2: without a dedicated association file, the map holds for each
    model name the associations [index.js] declares for it followed by
    those [index.ts] declares; a name neither file mentions is absent. *)
Theorem index_files_are_concatenated dir k :
  readFile dir "associations.js" = None ->
  readFile dir "associations.ts" = None ->
  fst (parseCentralizedAssociations parse scope_error dir) !! k
  = match file_associations parse scope_error dir "index.js" !! k,
          file_associations parse scope_error dir "index.ts" !! k with
    | None, None => None
    | js, ts => Some (default [] js ++ default [] ts)
    end.
Proof.
  intros Hjs Hts.
  unfold parseCentralizedAssociations, dedicatedFiles, indexFiles, index_tier,
    file_associations.
  simpl. rewrite Hjs, Hts. simpl.
  destruct (readFile dir "index.js") as [cjs |];
    destruct (readFile dir "index.ts") as [cts |]; simpl;
    repeat match goal with
           | |- context [parseCentralizedAssociationFile parse scope_error ?c] =>
               destruct (parseCentralizedAssociationFile parse scope_error c) as [? ?]
           end; simpl; rewrite ?merge_file_lookup, ?lookup_empty; simpl.
  all: repeat match goal with
              | |- context [@lookup _ _ (gmap string (list Association)) _ ?i ?m] =>
                  destruct (m !! i)
              end; simpl; rewrite ?app_nil_r; reflexivity.
Qed.

(** *** Shape of the associations *)

Lemma association_option_keeps content a prop :
  a_type (association_option content a prop) = a_type a
  /\ a_target (association_option content a prop) = a_target a.
Proof.
  unfold association_option.
  destruct prop as [| | | | | s e k v | |]; try (split; reflexivity).
  destruct k; try (split; reflexivity).
  destruct (String.eqb id "foreignKey"), (String.eqb id "as"); split; reflexivity.
Qed.

Lemma association_options_keep content props a :
  a_type (fold_left (association_option content) props a) = a_type a
  /\ a_target (fold_left (association_option content) props a) = a_target a.
Proof.
  revert a. induction props as [| p props IH]; intros a; simpl; [auto |].
  destruct (IH (association_option content a p)) as [-> ->].
  apply association_option_keeps.
Qed.

Lemma proper_map_empty : proper_map ∅.
Proof. intros k l H. rewrite lookup_empty in H. discriminate. Qed.

Lemma proper_map_insert m k a :
  proper_map m -> k <> "" -> proper_association a ->
  proper_map (<[k := default [] (m !! k) ++ [a]]> m).
Proof.
  intros Hm Hk Ha k' l. destruct (decide (k = k')) as [<- | Hne].
  - rewrite lookup_insert_eq. intros [= <-]. split; [assumption |]. split.
    + now destruct (default [] (m !! k)).
    + intros b [Hb | ->%list_elem_of_singleton]%elem_of_app; [| assumption].
      destruct (m !! k) as [l0 |] eqn:E; simpl in Hb; [| inversion Hb].
      now apply (Hm k l0 E).
  - rewrite lookup_insert_ne by assumption. apply Hm.
Qed.

Lemma truthy_nonempty s : Js.truthy (Some s) = true -> s <> "".
Proof. simpl. intros H ->. discriminate. Qed.

Lemma add_call_proper content m call :
  proper_map m -> proper_map (add_call content m call).
Proof.
  intros Hm. unfold add_call.
  destruct call as [| | | s e callee args | | | |]; try assumption.
  destruct callee as [| | s' e' obj prop | | | | |]; try assumption.
  destruct prop as [s'' e'' kind | | | | | | |]; try assumption.
  unfold is_relation_kind. destruct (bool_decide (kind ∈ types)) eqn:Hkind; [| assumption].
  apply bool_decide_eq_true in Hkind.
  destruct (model_reference obj) as [src |]; [| assumption].
  destruct (Js.truthy (Some src)) eqn:Hsrc; [| assumption].
  destruct args as [| firstArg options]; [assumption |].
  destruct (model_reference firstArg) as [tgt |]; [| assumption].
  destruct (Js.truthy (Some tgt)) eqn:Htgt; [| assumption].
  apply proper_map_insert; [assumption | now apply truthy_nonempty |].
  unfold proper_association.
  destruct options as [| [] ?]; simpl; try (split; [assumption | now apply truthy_nonempty]).
  destruct (association_options_keep content properties
              (new_association kind tgt)) as [-> ->].
  simpl. split; [assumption | now apply truthy_nonempty].
Qed.

Lemma parseCentralizedAssociationFile_proper content :
  proper_map (fst (parseCentralizedAssociationFile parse scope_error content)).
Proof.
  unfold parseCentralizedAssociationFile.
  destruct (parse content) as [ast |]; simpl; [| apply proper_map_empty].
  destruct (scope_error ast); simpl; [apply proper_map_empty |].
  generalize (Ast.calls ast). intros calls.
  assert (forall m, proper_map m -> proper_map (fold_left (add_call content) calls m)) as H.
  { induction calls as [| c calls IH]; intros m Hm; simpl; [assumption |].
    apply IH. now apply add_call_proper. }
  apply H, proper_map_empty.
Qed.

Lemma merge_file_proper m1 m2 :
  proper_map m1 -> proper_map m2 -> proper_map (merge_file m1 m2).
Proof.
  intros H1 H2 k l. rewrite merge_file_lookup.
  destruct (m2 !! k) as [l2 |] eqn:E2; [| apply H1].
  intros [= <-]. destruct (H2 k l2 E2) as (Hk & Hne & Hall).
  split; [assumption |]. split.
  - destruct (default [] (m1 !! k)); [assumption | discriminate].
  - intros a [Ha | Ha]%elem_of_app; [| now apply Hall].
    destruct (m1 !! k) as [l1 |] eqn:E1; simpl in Ha; [| inversion Ha].
    now apply (H1 k l1 E1).
Qed.

(** X3: in the map [parseCentralizedAssociations] returns, for any
    directory and any parser, no model name is empty, no list is empty, and
    every association has one of the four relation kinds and a non-empty
    target. *)
Theorem centralized_map_is_proper dir :
  proper_map (fst (parseCentralizedAssociations parse scope_error dir)).
Proof.
  unfold parseCentralizedAssociations, dedicatedFiles, indexFiles, index_tier. simpl.
  destruct (readFile dir "associations.js") as [c |].
  { pose proof (parseCentralizedAssociationFile_proper c) as H.
    destruct (parseCentralizedAssociationFile parse scope_error c). simpl in *.
    apply merge_file_proper; [apply proper_map_empty | assumption]. }
  destruct (readFile dir "associations.ts") as [c |].
  { pose proof (parseCentralizedAssociationFile_proper c) as H.
    destruct (parseCentralizedAssociationFile parse scope_error c). simpl in *.
    apply merge_file_proper; [apply proper_map_empty | assumption]. }
  assert (proper_map
            (fst match readFile dir "index.js" with
                 | Some content =>
                     let (associations, log) := parseCentralizedAssociationFile parse scope_error content in
                     (merge_file ∅ associations, [] ++ log)
                 | None => (∅, [])
                 end)) as Hjs.
  { destruct (readFile dir "index.js") as [c |]; [| apply proper_map_empty].
    pose proof (parseCentralizedAssociationFile_proper c) as H.
    destruct (parseCentralizedAssociationFile parse scope_error c). simpl in *.
    apply merge_file_proper; [apply proper_map_empty | assumption]. }
  destruct (readFile dir "index.ts") as [c |]; [| exact Hjs].
  pose proof (parseCentralizedAssociationFile_proper c) as H.
  destruct (parseCentralizedAssociationFile parse scope_error c). simpl in *.
  apply merge_file_proper; assumption.
Qed.

End ConsolidatorMore.

(** ** The parser of definition files, further *)

Section ParserMore.

Import Regex Analyzer Spec Shape.

Lemma chars_str l : Js.chars (Js.str l) = l.
Proof. apply list_ascii_of_string_of_list_ascii. Qed.

Lemma str_nonempty l : l <> [] -> Js.str l <> "".
Proof. destruct l; [contradiction | discriminate]. Qed.

Lemma strip_quotes3_quote_free s : quote_free (strip_quotes3 s).
Proof.
  unfold quote_free, strip_quotes3, Js.replace_class. rewrite chars_str.
  induction (Js.chars s) as [| c l IH]; [reflexivity |]. simpl.
  destruct (is_quote3 c) eqn:E; simpl; [assumption |].
  unfold not_quote3 at 1. now rewrite E.
Qed.

Lemma enum_scan_keeps content props col :
  c_primaryKey (enum_scan content props col) = c_primaryKey col
  /\ c_allowNull (enum_scan content props col) = c_allowNull col
  /\ c_unique (enum_scan content props col) = c_unique col
  /\ c_references (enum_scan content props col) = c_references col
  /\ c_name (enum_scan content props col) = c_name col
  /\ ((forall vs, c_enumValues col = Some vs -> vs <> []) ->
      forall vs, c_enumValues (enum_scan content props col) = Some vs -> vs <> []).
Proof.
  unfold enum_scan. revert col.
  induction props as [| p props IH]; intros col; simpl; [tauto |].
  match goal with |- context [fold_left _ props ?c] => destruct (IH c) as (-> & -> & -> & -> & -> & H) end.
  destruct p as [| | | | | s e k v | |]; try tauto.
  destruct k; try tauto. destruct v; try tauto.
  destruct (String.eqb id "values"); [| tauto].
  destruct (0 <? List.length (map (enum_value content) elements)) eqn:Hlen; [| tauto].
  simpl. repeat (split; [reflexivity |]). intros _. apply H.
  simpl. intros vs [= <-]. destruct (map _ elements); [discriminate | discriminate].
Qed.

Lemma new_column_proper n : proper_column (new_column n).
Proof. unfold proper_column; simpl. repeat split; auto; discriminate. Qed.

Lemma column_field_proper content props col field :
  proper_column col -> proper_column (column_field content props col field).
Proof.
  intros (Hp & Hn & Hu & He & Hr). unfold column_field.
  destruct field as [| | | | | s e k v | |]; try (unfold proper_column; tauto).
  destruct k as [s' e' key | | | | | | |]; try (unfold proper_column; tauto).
  set (valCode := Js.trim (Ast.source content v)).
  set (c1 := if String.eqb key "type" then _ else col).
  assert (proper_column c1) as H1.
  { subst c1. destruct (String.eqb key "type"); [| unfold proper_column; tauto].
    destruct (_ || _).
    - destruct (enum_scan_keeps content props (set_type col valCode))
        as (E1 & E2 & E3 & E4 & _ & E5).
      unfold proper_column. rewrite E1, E2, E3, E4. simpl.
      repeat (split; [assumption |]). split; [| assumption]. apply E5. exact He.
    - unfold proper_column; simpl; tauto. }
  clearbody c1. clear Hp Hn Hu He Hr.
  set (c2 := if _ && _ then set_primaryKey c1 true else c1).
  assert (proper_column c2) as H2.
  { subst c2. destruct (_ && _); [| assumption].
    destruct H1 as (? & ? & ? & ? & ?). unfold proper_column; simpl. auto 10. }
  clearbody c2. clear H1.
  set (c3 := if _ && _ then set_allowNull c2 false else c2).
  assert (proper_column c3) as H3.
  { subst c3. destruct (_ && _); [| assumption].
    destruct H2 as (? & ? & ? & ? & ?). unfold proper_column; simpl. auto 10. }
  clearbody c3. clear H2.
  set (c4 := if _ && _ then set_unique c3 true else c3).
  assert (proper_column c4) as H4.
  { subst c4. destruct (_ && _); [| assumption].
    destruct H3 as (? & ? & ? & ? & ?). unfold proper_column; simpl. auto 10. }
  clearbody c4. clear H3.
  set (c5 := if String.eqb key "defaultValue" then _ else c4).
  assert (proper_column c5) as H5.
  { subst c5. destruct (String.eqb key "defaultValue"); [| assumption].
    destruct H4 as (? & ? & ? & ? & ?). unfold proper_column; simpl. auto 10. }
  clearbody c5. clear H4.
  destruct (String.eqb key "references"); [| assumption].
  destruct v; try assumption.
  destruct (reference_scan content properties) as [[model |] [refKey |]] eqn:Hscan;
    try assumption.
  destruct (Js.truthy (Some model)) eqn:Tm; [| assumption].
  destruct (Js.truthy (Some refKey)) eqn:Tk; [| assumption]. simpl.
  destruct H5 as (? & ? & ? & ? & _). unfold proper_column; simpl.
  repeat (split; [assumption |]). intros r [= <-]. simpl.
  assert (quote_free model /\ quote_free refKey) as [Qm Qk].
  { clear -Hscan. unfold reference_scan in Hscan.
    assert (forall subs acc m' k',
               (forall x, fst acc = Some x -> quote_free x) ->
               (forall x, snd acc = Some x -> quote_free x) ->
               fold_left
                 (fun acc sub =>
                    match sub with
                    | ObjectProperty _ _ (Identifier _ _ k) v =>
                        let acc :=
                          if String.eqb k "model"
                          then (Some (strip_quotes3 (Ast.source content v)), snd acc)
                          else acc in
                        if String.eqb k "key"
                        then (fst acc, Some (strip_quotes3 (Ast.source content v)))
                        else acc
                    | _ => acc
                    end) subs acc = (Some m', Some k') ->
               quote_free m' /\ quote_free k') as Hgen.
    { induction subs as [| sub subs IH]; intros acc m' k' Hf Hs; simpl.
      - intros E. rewrite E in *. simpl in *. auto.
      - apply IH.
        + destruct sub as [| | | | | ? ? kk vv | |]; try assumption.
          destruct kk; try assumption.
          destruct (String.eqb id "model"), (String.eqb id "key"); simpl; try assumption;
            intros x [= <-]; apply strip_quotes3_quote_free.
        + destruct sub as [| | | | | ? ? kk vv | |]; try assumption.
          destruct kk; try assumption.
          destruct (String.eqb id "model"), (String.eqb id "key"); simpl; try assumption;
            intros x [= <-]; apply strip_quotes3_quote_free. }
    apply (Hgen properties (None, None) model refKey); [discriminate | discriminate | exact Hscan]. }
  repeat split; try assumption; now apply truthy_nonempty.
Qed.

Lemma column_of_property_proper content prop col :
  column_of_property content prop = Some col -> proper_column col.
Proof.
  unfold column_of_property.
  destruct prop as [| | | | | s e k v | |]; try discriminate.
  destruct k as [s' e' key | | | | | | |]; try discriminate.
  intros [= <-]. destruct v; try apply new_column_proper.
  generalize (new_column_proper key). generalize (new_column key).
  generalize properties at 1. intros props.
  induction properties as [| f fs IH]; intros c Hc; simpl; [assumption |].
  apply IH. now apply column_field_proper.
Qed.

Lemma columns_of_call_proper content call col :
  col ∈ columns_of_call content call -> proper_column col.
Proof.
  unfold columns_of_call.
  destruct call as [| | | s e callee args | | | |];
    try (intros H; apply elem_of_nil in H; destruct H).
  destruct callee as [| | ? ? obj prop | | | | |];
    try (intros H; apply elem_of_nil in H; destruct H).
  destruct prop; try (intros H; apply elem_of_nil in H; destruct H).
  destruct (String.eqb id "define"); [| intros H; apply elem_of_nil in H; destruct H].
  destruct args as [| a0 [| [] args]];
    try (intros H; apply elem_of_nil in H; destruct H).
  intros H. apply list_elem_of_omap in H as (p & _ & Hp).
  now apply column_of_property_proper in Hp.
Qed.

Variable parse : string -> outcome Node.
Variable scope_error : Node -> option string.

Lemma parseColumns_proper content cols :
  parseColumns parse scope_error content = Returned cols ->
  forall col, col ∈ cols -> proper_column col.
Proof.
  unfold parseColumns. destruct (parse content) as [ast |]; [| discriminate].
  destruct (scope_error ast); [discriminate |].
  intros [= <-] col Hcol.
  apply list_elem_of_In, in_flat_map in Hcol as (call & _ & Hcol).
  apply (columns_of_call_proper content call). now apply list_elem_of_In.
Qed.

Lemma parseModelFile_shape content filename m :
  parseModelFile parse scope_error content filename = Returned (Some m) ->
  name m = stem filename
  /\ parseColumns parse scope_error content = Returned (columns m)
  /\ columns m <> []
  /\ associations m = parseAssociations content
  /\ description m = None
  /\ (tableName m = Js.toLowerCase (stem filename)
      \/ (tableName m <> "" /\ quote_free (tableName m))).
Proof.
  unfold parseModelFile, stem.
  destruct (parseColumns parse scope_error content) as [cols |]; [| discriminate].
  destruct cols as [| c cols]; [discriminate |]. simpl.
  intros [= <-]. simpl. repeat (split; [reflexivity || discriminate |]).
  destruct (search tableName_pattern (Js.chars content)) as [r |] eqn:E; [| now left].
  right. apply search_in in E as (s' & H). unfold tableName_pattern, lit in H.
  apply in_matches_lit_chars in H as (s'' & m' & H & ->).
  apply in_matches_cat in H as (w1 & k1 & Hw1 & H & -> & _).
  apply in_matches_star in Hw1 as ->.
  apply in_matches_cat in H as (q1 & k2 & Hq1 & H & -> & _).
  apply in_matches_cls in Hq1 as ->.
  apply in_matches_cat in H as (g1 & q2 & Hg1 & Hq2 & -> & _).
  apply in_matches_cls in Hq2 as ->.
  apply in_matches_group in Hg1 as (mg & Hg & -> & _).
  apply in_matches_plus in Hg as (-> & Hne & Hall).
  simpl. split; [now apply str_nonempty |].
  unfold quote_free. now rewrite chars_str.
Qed.

(** X4: every column [parseColumns] returns is proper: [primaryKey] and
    [unique] are unset or true, [allowNull] is unset or false, an
    enumeration that is set is not empty, and a foreign reference that is
    set has a model and a key that are not empty and hold no quote
    character. *)
Theorem parsed_columns_are_proper content cols :
  parseColumns parse scope_error content = Returned cols ->
  forall col, col ∈ cols -> proper_column col.
Proof. apply parseColumns_proper. Qed.

End ParserMore.

(** ** In-file associations, further *)

Section InFileMore.

Import Regex Analyzer Spec Shape.

Lemma star_runs_head p t x r :
  forallb p t = true -> p x = false ->
  exists others, star_runs p (t ++ x :: r) = (t, x :: r) :: others.
Proof.
  induction t as [| c t IH]; simpl; intros Ht Hx.
  - rewrite Hx. eauto.
  - apply andb_true_iff in Ht as [Hc Ht]. rewrite Hc.
    destruct (IH Ht Hx) as [others ->]. simpl. eauto.
Qed.

Lemma matches_lit_chars_prefix l k s :
  matches (lit_chars l k) (l ++ s)
  = map (fun m => Result (l ++ consumed m) (rest m) (groups m)) (matches k s).
Proof.
  induction l as [| c l IH]; simpl.
  - induction (matches k s) as [| [? ? ?] ms IHm]; simpl; [reflexivity | now f_equal].
  - destruct (ascii_dec c c) as [_ | Hne]; [| contradiction]. simpl.
    rewrite app_nil_r, IH, map_map. reflexivity.
Qed.

Lemma match_here_needs_dot kind c s :
  c <> "."%char -> match_here (association_pattern kind) (c :: s) = None.
Proof.
  intros Hc. unfold match_here, association_pattern, lit.
  change (Js.chars ("." +:+ kind)) with ("."%char :: Js.chars kind). simpl.
  destruct (ascii_dec c "."%char); [contradiction | reflexivity].
Qed.

Lemma exec_all_dot_free kind skip s :
  forallb no_dot s = true -> exec_all (association_pattern kind) skip s = [].
Proof.
  revert skip. induction s as [| c s IH]; intros skip; simpl; [reflexivity |].
  intros [Hc Hs]%andb_true_iff. destruct skip as [| n]; [| now apply IH].
  rewrite match_here_needs_dot; [now apply IH |].
  unfold no_dot in Hc. now destruct (ascii_dec c "."%char).
Qed.

Lemma exec_all_prefix kind pre s :
  forallb no_dot pre = true ->
  exec_all (association_pattern kind) 0 (pre ++ s)
  = exec_all (association_pattern kind) 0 s.
Proof.
  induction pre as [| c pre IH]; simpl; [reflexivity |].
  intros [Hc Hs]%andb_true_iff.
  rewrite match_here_needs_dot; [now apply IH |].
  unfold no_dot in Hc. now destruct (ascii_dec c "."%char).
Qed.

Lemma exec_all_skip r a s :
  exec_all r (List.length a) (a ++ s) = exec_all r 0 s.
Proof. induction a as [| c a IH]; simpl; [reflexivity | assumption]. Qed.

Lemma word_no_dot t : forallb Js.is_word t = true -> forallb no_dot t = true.
Proof.
  induction t as [| c t IH]; simpl; [reflexivity |].
  intros [Hc Ht]%andb_true_iff. rewrite (IH Ht), andb_true_r.
  unfold no_dot. destruct (ascii_dec c "."%char) as [-> |]; [discriminate | reflexivity].
Qed.

(** *** The first match of a pattern *)

Lemma first_cat r1 r2 s m1 m2 :
  match_here r1 s = Some m1 -> match_here r2 (rest m1) = Some m2 ->
  match_here (Cat r1 r2) s
  = Some (Result (consumed m1 ++ consumed m2) (rest m2) (groups m1 ++ groups m2)).
Proof.
  unfold match_here. simpl.
  destruct (matches r1 s) as [| x l1]; [discriminate |]. intros [= ->]. simpl.
  destruct (matches r2 (rest m1)) as [| y l2]; [discriminate |]. intros [= ->].
  reflexivity.
Qed.

Lemma first_chr c s : match_here (Chr c) (c :: s) = Some (Result [c] s []).
Proof.
  unfold match_here. simpl. destruct (ascii_dec c c); [reflexivity | contradiction].
Qed.

Lemma first_star_stop p x s :
  p x = false -> match_here (Star p) (x :: s) = Some (Result [] (x :: s) []).
Proof. intros H. unfold match_here. simpl. now rewrite H. Qed.

Lemma first_plus_run p t x s :
  t <> [] -> forallb p t = true -> p x = false ->
  match_here (Plus p) (t ++ x :: s) = Some (Result t (x :: s) []).
Proof.
  intros Hne Ht Hx. unfold match_here. simpl.
  destruct (star_runs_head p t x s Ht Hx) as [others ->]. simpl.
  destruct t; [contradiction | reflexivity].
Qed.

Lemma first_group n r s m :
  match_here r s = Some m ->
  match_here (Group n r) s
  = Some (Result (consumed m) (rest m) ((n, consumed m) :: groups m)).
Proof.
  unfold match_here. simpl. destruct (matches r s); [discriminate |].
  intros [= ->]. reflexivity.
Qed.

Lemma first_opt_skip r s :
  matches r s = [] -> match_here (Opt r) s = Some (Result [] s []).
Proof. intros H. unfold match_here. simpl. now rewrite H. Qed.

Lemma first_lit l k s m :
  match_here k s = Some m ->
  match_here (lit_chars l k) (l ++ s)
  = Some (Result (l ++ consumed m) (rest m) (groups m)).
Proof.
  unfold match_here. rewrite matches_lit_chars_prefix.
  destruct (matches k s); [discriminate |]. intros [= ->]. reflexivity.
Qed.

(** The match of an association pattern on a call with a bare target and
    no options. *)
Lemma call_site_matches kind t post :
  t <> [] -> forallb Js.is_word t = true ->
  match_here (association_pattern kind)
             (Js.chars ("." +:+ kind) ++ "("%char :: t ++ ")"%char :: post)
  = Some (Result (Js.chars ("." +:+ kind) ++ "("%char :: t ++ [")"%char]) post [(1, t)]).
Proof.
  intros Hne Ht. unfold association_pattern, lit.
  set (s5 := ")"%char :: post).
  assert (exists c t', t = c :: t' /\ Js.is_word c = true) as (c & t' & Et & Hc).
  { destruct t as [| c t']; [contradiction |]. simpl in Ht.
    apply andb_true_iff in Ht as [Hc _]. eauto. }
  match goal with
  | |- match_here (lit_chars _ (Cat ?a (Cat ?b (Cat ?c (Cat ?d (Cat ?e ?f)))))) _ = _ =>
      set (ra := a); set (rb := b); set (rc := c); set (rd := d); set (re := e);
      set (rf := f)
  end.
  assert (match_here (Cat re rf) s5 = Some (Result [")"%char] post [])) as H5.
  { apply (first_cat re rf s5 (Result [] s5 []) (Result [")"%char] post [])).
    - apply first_opt_skip. subst s5. simpl.
      destruct (ascii_dec ")"%char ","%char) as [E |]; [discriminate E | reflexivity].
    - apply first_chr. }
  assert (match_here (Cat rd (Cat re rf)) (t ++ s5)
          = Some (Result (t ++ [")"%char]) post [(1, t)])) as H4.
  { apply (first_cat rd (Cat re rf) (t ++ s5)
             (Result t s5 [(1, t)]) (Result [")"%char] post [])); [| exact H5].
    apply (first_group 1 (Plus Js.is_word) (t ++ s5) (Result t s5 [])).
    now apply first_plus_run. }
  assert (match_here (Cat rc (Cat rd (Cat re rf))) (t ++ s5)
          = Some (Result (t ++ [")"%char]) post [(1, t)])) as H3.
  { apply (first_cat rc _ (t ++ s5) (Result [] (t ++ s5) [])
             (Result (t ++ [")"%char]) post [(1, t)])); [| exact H4].
    rewrite Et. apply first_star_stop. now apply word_not_space. }
  assert (match_here (Cat rb (Cat rc (Cat rd (Cat re rf)))) ("("%char :: t ++ s5)
          = Some (Result ("("%char :: t ++ [")"%char]) post [(1, t)])) as H2.
  { apply (first_cat rb _ ("("%char :: t ++ s5) (Result ["("%char] (t ++ s5) [])
             (Result (t ++ [")"%char]) post [(1, t)])); [| exact H3].
    apply first_chr. }
  assert (match_here (Cat ra (Cat rb (Cat rc (Cat rd (Cat re rf)))))
                     ("("%char :: t ++ s5)
          = Some (Result ("("%char :: t ++ [")"%char]) post [(1, t)])) as H1.
  { apply (first_cat ra _ ("("%char :: t ++ s5) (Result [] ("("%char :: t ++ s5) [])
             (Result ("("%char :: t ++ [")"%char]) post [(1, t)])); [| exact H2].
    now apply first_star_stop. }
  apply (first_lit _ _ _ _ H1).
Qed.

Lemma exec_all_call_site kind pre t post :
  forallb no_dot pre = true -> t <> [] -> forallb Js.is_word t = true ->
  forallb no_dot post = true ->
  exec_all (association_pattern kind) 0
    (pre ++ Js.chars ("." +:+ kind) ++ "("%char :: t ++ ")"%char :: post)
  = [Result (Js.chars ("." +:+ kind) ++ "("%char :: t ++ [")"%char]) post [(1, t)]].
Proof.
  intros Hpre Hne Ht Hpost. rewrite exec_all_prefix by assumption.
  pose proof (call_site_matches kind t post Hne Ht) as Hm.
  change (Js.chars ("." +:+ kind)) with ("."%char :: Js.chars kind) in *.
  cbn [app exec_all]. cbn [app] in Hm. rewrite Hm. cbn [consumed List.length pred].
  f_equal.
  replace (Js.chars kind ++ "("%char :: t ++ ")"%char :: post)
    with ((Js.chars kind ++ "("%char :: t ++ [")"%char]) ++ post)
    by (rewrite <- !app_assoc; simpl; now rewrite <- app_assoc).
  rewrite exec_all_skip. now apply exec_all_dot_free.
Qed.

(** Another pattern finds nothing in such a text when it fails at the
    call site. *)
Lemma exec_all_other_kind kind' pre site :
  forallb no_dot pre = true -> forallb no_dot site = true ->
  match_here (association_pattern kind') ("."%char :: site) = None ->
  exec_all (association_pattern kind') 0 (pre ++ "."%char :: site) = [].
Proof.
  intros Hpre Hsite Hnone. rewrite exec_all_prefix by assumption.
  cbn [exec_all]. rewrite Hnone. now apply exec_all_dot_free.
Qed.

Lemma no_dot_app a b :
  forallb no_dot a = true -> forallb no_dot b = true -> forallb no_dot (a ++ b) = true.
Proof. intros Ha Hb. rewrite forallb_app, Ha, Hb. reflexivity. Qed.

Lemma association_of_bare_match kind consumed_text post t :
  association_of_match kind (Result consumed_text post [(1, t)])
  = new_association kind (Js.str t).
Proof. reflexivity. Qed.

Lemma exec_all_other_kind' kind' kind pre after :
  forallb no_dot pre = true -> forallb no_dot (Js.chars kind ++ after) = true ->
  match_here (association_pattern kind') (Js.chars ("." +:+ kind) ++ after) = None ->
  exec_all (association_pattern kind') 0 (pre ++ Js.chars ("." +:+ kind) ++ after) = [].
Proof. apply exec_all_other_kind. Qed.

Ltac other_kind :=
  rewrite exec_all_other_kind';
  [ | assumption
    | apply no_dot_app; [reflexivity |]; simpl;
      apply no_dot_app; [now apply word_no_dot |]; simpl; assumption
    | reflexivity ].

(** X6: a call [.KIND(TARGET)] with one of the four relation kinds and a
    bare word as target, in a text with no other dot, is extracted as
    exactly one association, of that kind and target and without options;
    no other pattern takes it. *)
Theorem bare_call_is_extracted kind target pre post :
  kind ∈ types -> word_identifier target -> dot_free pre -> dot_free post ->
  parseAssociations (pre +:+ "." +:+ kind +:+ "(" +:+ target +:+ ")" +:+ post)
  = [new_association kind target].
Proof.
  intros Hkind [Hne Hword] Hpre Hpost. unfold dot_free in *.
  assert (Js.chars target <> []) as Hne'.
  { intros E. apply Hne. apply chars_inj. now rewrite E. }
  assert (Js.str (Js.chars target) = target) as Hstr
      by apply string_of_list_ascii_of_string.
  assert (Js.chars (pre +:+ "." +:+ kind +:+ "(" +:+ target +:+ ")" +:+ post)
          = Js.chars pre ++ Js.chars ("." +:+ kind)
              ++ "("%char :: Js.chars target ++ ")"%char :: Js.chars post) as Hc.
  { rewrite !chars_append. rewrite <- !app_assoc. reflexivity. }
  unfold parseAssociations. rewrite Hc. clear Hc.
  cbn [combine associationPatterns types flat_map fst snd].
  unfold types in Hkind.
  repeat (apply elem_of_cons in Hkind as [-> | Hkind]); [| | | | inversion Hkind].
  all: rewrite (exec_all_call_site _ (Js.chars pre) (Js.chars target) (Js.chars post))
      by assumption.
  all: do 3 other_kind.
  all: cbn [map app]; rewrite association_of_bare_match, Hstr; reflexivity.
Qed.

(** X7: the associations of a text come grouped by relation kind, all
    [hasMany] first, then all [hasOne], [belongsTo] and [belongsToMany],
    whatever the order of the calls in the text. *)
Theorem associations_are_grouped_by_kind content :
  exists many one to to_many,
    parseAssociations content = many ++ one ++ to ++ to_many
    /\ Forall (fun a => a_type a = "hasMany") many
    /\ Forall (fun a => a_type a = "hasOne") one
    /\ Forall (fun a => a_type a = "belongsTo") to
    /\ Forall (fun a => a_type a = "belongsToMany") to_many.
Proof.
  unfold parseAssociations.
  cbn [combine associationPatterns types flat_map fst snd].
  do 4 eexists. split; [rewrite app_nil_r; reflexivity |].
  repeat split; apply Forall_forall; intros a Ha;
    apply list_elem_of_In, in_map_iff in Ha as (m & <- & _); reflexivity.
Qed.

End InFileMore.

(** ** The embedding index, further *)

Section IndexMore.

Import VectorSearch Shape.

Variable pipeline : string -> list Q.

(** X8: once the pipeline is loaded, [getScores] returns one score for
    each entry of the index, rearranged so that the scores go from the
    highest down. *)
Theorem getScores_descending this query :
  embedder this = true ->
  exists l,
    getScores pipeline this query = Returned l
    /\ l ≡ₚ all_scores this (pipeline query)
    /\ descending l.
Proof.
  intros He. unfold getScores, embed. rewrite He.
  eexists. split; [reflexivity |].
  split; [apply sort_desc_perm | apply sort_desc_descending].
Qed.

Lemma length_omap {A B} (f : A -> option B) l : List.length (omap f l) <= List.length l.
Proof.
  unfold omap. induction l as [| a l IH]; simpl; [lia |].
  destruct (f a); simpl; lia.
Qed.

Lemma elem_of_slice_to {A} (x : A) l k : x ∈ Js.slice_to l k -> x ∈ l.
Proof.
  unfold Js.slice_to. intros H.
  destruct (k <? 0)%Z; apply elem_of_take in H as (i & H & _);
    now apply list_elem_of_lookup_2 in H.
Qed.

Lemma length_slice_to {A} (l : list A) k :
  ((0 <= k)%Z -> List.length (Js.slice_to l k) <= Z.to_nat k)
  /\ ((k < 0)%Z -> List.length (Js.slice_to l k) <= List.length l - Z.to_nat (- k)).
Proof.
  unfold Js.slice_to. split; intros Hk.
  - assert ((k <? 0)%Z = false) as -> by (apply Z.ltb_ge; lia).
    rewrite length_take. lia.
  - assert ((k <? 0)%Z = true) as -> by (apply Z.ltb_lt; lia).
    rewrite length_take. lia.
Qed.

Lemma length_filter_le {A} (p : A -> bool) l :
  List.length (List.filter p l) <= List.length l.
Proof. induction l as [| a l IH]; simpl; [lia |]. destruct (p a); simpl; lia. Qed.

(** X9: for a [topK] that is not negative the vector search returns at
    most [topK] entities; for a negative one, which [slice] counts from the
    end, it returns at most as many as the index has entries, less
    [-topK].  Every entity it returns is one of the held models, and the
    index has an entry under its name whose similarity to the query reaches
    the threshold. *)
Theorem vector_hits_are_bounded this query topK threshold l :
  findRelevant pipeline this query topK threshold = Returned l ->
  ((0 <= topK)%Z -> List.length l <= Z.to_nat topK)
  /\ ((topK < 0)%Z ->
      List.length l <= List.length (modelEmbeddings this) - Z.to_nat (- topK))
  /\ forall m, m ∈ l ->
       m ∈ models this
       /\ exists embedding,
            (name m, embedding) ∈ modelEmbeddings this
            /\ (threshold <= cosineSimilarity (pipeline query) embedding)%Q.
Proof.
  unfold findRelevant, embed.
  destruct (negb (initialized this)); [discriminate |].
  destruct (embedder this); [| discriminate].
  intros [= <-].
  set (hits := List.filter _ _).
  assert (List.length hits <= List.length (modelEmbeddings this)) as Hhits.
  { subst hits. etransitivity; [apply length_filter_le |].
    rewrite (Permutation_length (sort_desc_perm _)).
    unfold all_scores. now rewrite length_map. }
  destruct (length_slice_to hits topK) as [Hpos Hneg].
  pose proof (length_omap (fun r => find_model (s_name r) (models this))
                (Js.slice_to hits topK)) as Hlen.
  split; [intros Hk; specialize (Hpos Hk); lia |].
  split; [intros Hk; specialize (Hneg Hk); lia |].
  - intros m Hm. apply list_elem_of_omap in Hm as (r & Hr & Hfind).
    apply find_model_name in Hfind as [Hname Hin]. split; [assumption |].
    apply elem_of_slice_to in Hr. subst hits.
    apply elem_of_filter_bool in Hr as [Hr Hth].
    rewrite sort_desc_perm in Hr. unfold all_scores in Hr.
    apply list_elem_of_In, in_map_iff in Hr as ([n e] & <- & He). simpl in *.
    exists e. subst n. split; [now apply list_elem_of_In |].
    now apply Qle_bool_iff.
Qed.

(** *** The index after a rebuild *)

Lemma set_keys {V} (m : list (string * V)) k v :
  map fst (Ordered.set m k v) = Ordered.add (map fst m) k.
Proof.
  unfold Ordered.add, Ordered.has.
  induction m as [| [k' v'] m IH]; simpl; [reflexivity |].
  destruct (String.eqb_spec k' k) as [-> | Hne]; simpl.
  - rewrite bool_decide_eq_true_2; [reflexivity | apply list_elem_of_here].
  - rewrite IH.
    destruct (bool_decide (k ∈ map fst m)) eqn:Hin.
    + apply bool_decide_eq_true in Hin.
      rewrite bool_decide_eq_true_2; [reflexivity | now apply list_elem_of_further].
    + apply bool_decide_eq_false in Hin.
      rewrite bool_decide_eq_false_2; [reflexivity |].
      intros H. apply elem_of_cons in H as [-> | H]; [now apply Hne | contradiction].
Qed.

Lemma add_NoDup s x : NoDup s -> NoDup (Ordered.add s x).
Proof.
  unfold Ordered.add, Ordered.has. intros Hs.
  destruct (bool_decide (x ∈ s)) eqn:Hin; [assumption |].
  apply bool_decide_eq_false in Hin.
  apply NoDup_app. split; [assumption |]. split.
  - intros y Hy Hy'. apply list_elem_of_singleton in Hy'. now subst.
  - apply NoDup_singleton.
Qed.

Lemma elem_of_set {V} (m : list (string * V)) k v n e :
  NoDup (map fst m) ->
  (n, e) ∈ Ordered.set m k v <-> (n = k /\ e = v) \/ (n <> k /\ (n, e) ∈ m).
Proof.
  induction m as [| [k' v'] m IH]; simpl; intros Hnd.
  - rewrite list_elem_of_singleton. split.
    + intros [= -> ->]. auto.
    + intros [[-> ->] | [_ H]]; [reflexivity | inversion H].
  - apply NoDup_cons in Hnd as [Hk' Hnd].
    destruct (String.eqb_spec k' k) as [-> | Hne].
    + rewrite !elem_of_cons. split.
      * intros [[= -> ->] | H]; [auto |]. right. split; [| auto].
        intros ->. apply Hk'. apply list_elem_of_In, in_map_iff.
        exists (k, e). split; [reflexivity | now apply list_elem_of_In].
      * intros [[-> ->] | [Hn [[= -> _] | H]]]; [auto | contradiction | auto].
    + rewrite !elem_of_cons, (IH Hnd). split.
      * intros [[= -> ->] | [[-> ->] | [Hn H]]]; auto.
      * intros [[-> ->] | [Hn [[= -> ->] | H]]]; auto.
Qed.

Lemma fold_add_NoDup l s : NoDup s -> NoDup (fold_left Ordered.add l s).
Proof.
  revert s. induction l as [| x l IH]; simpl; intros s Hs; [assumption |].
  apply IH. now apply add_NoDup.
Qed.

(** The loop of [initialize] over the models. *)
Lemma build_keys (ms : list ModelInfo) (idx : list (string * list Q)) :
  map fst
    (fold_left
       (fun index model =>
          Ordered.set index (name model) (pipeline (modelToSearchableText model)))
       ms idx)
  = fold_left Ordered.add (map name ms) (map fst idx).
Proof.
  revert idx. induction ms as [| m ms IH]; simpl; intros idx; [reflexivity |].
  now rewrite IH, set_keys.
Qed.

Lemma build_lookup (ms : list ModelInfo) n e :
  (n, e) ∈ fold_left
             (fun index model =>
                Ordered.set index (name model) (pipeline (modelToSearchableText model)))
             ms []
  <-> exists m, find_model n (rev ms) = Some m
                /\ e = pipeline (modelToSearchableText m).
Proof.
  induction ms as [| m ms IH] using rev_ind.
  - simpl. split; [intros H; inversion H | intros (m & [=] & _)].
  - rewrite fold_left_app, rev_app_distr. simpl.
    rewrite elem_of_set.
    2:{ rewrite build_keys. apply fold_add_NoDup. simpl. apply NoDup_nil_2. }
    unfold find_model in *. simpl.
    destruct (String.eqb_spec (name m) n) as [Heq | Hne].
    + split.
      * intros [[_ ->] | [Hn _]]; [eauto | congruence].
      * intros (m' & [= <-] & ->). auto.
    + rewrite IH. split.
      * intros [[-> _] | [_ H]]; [congruence | assumption].
      * intros H. right. split; [congruence | assumption].
Qed.

(** X10: a call of [initialize] that rebuilds the index holds the supplied
    models and leaves one index entry for each distinct name, in the order
    of first occurrence; the entry of a name is the embedding of the text
    of the last supplied model with that name. *)
Theorem index_after_rebuild this ms :
  initialized this = false \/ List.length (models this) <> List.length ms ->
  models (initialize pipeline this ms) = ms
  /\ map fst (modelEmbeddings (initialize pipeline this ms))
     = Ordered.of_list (map name ms)
  /\ NoDup (map fst (modelEmbeddings (initialize pipeline this ms)))
  /\ forall n e,
       (n, e) ∈ modelEmbeddings (initialize pipeline this ms)
       <-> exists m, find_model n (rev ms) = Some m
                     /\ e = pipeline (modelToSearchableText m).
Proof.
  intros H. rewrite (initialize_rebuilds pipeline this ms H).
  unfold initialize. simpl.
  split; [reflexivity |]. rewrite build_keys. simpl.
  split; [reflexivity |].
  split; [apply fold_add_NoDup, NoDup_nil_2 | apply build_lookup].
Qed.

Lemma NoDup_map_inj {A} (f : A -> string) l x y :
  NoDup (map f l) -> x ∈ l -> y ∈ l -> f x = f y -> x = y.
Proof.
  induction l as [| a l IH]; simpl; intros Hnd Hx Hy Heq; [inversion Hx |].
  apply NoDup_cons in Hnd as [Ha Hnd].
  apply elem_of_cons in Hx as [-> | Hx]; apply elem_of_cons in Hy as [-> | Hy].
  - reflexivity.
  - exfalso. apply Ha. rewrite Heq. apply elem_of_map. eauto.
  - exfalso. apply Ha. rewrite <- Heq. apply elem_of_map. eauto.
  - now apply IH.
Qed.

Lemma elem_of_rev {A} (x : A) l : x ∈ rev l <-> x ∈ l.
Proof. rewrite !list_elem_of_In. symmetry. apply in_rev. Qed.

Lemma find_model_some n l m :
  m ∈ l -> name m = n -> exists m', find_model n l = Some m'.
Proof.
  unfold find_model. intros Hin Hname.
  destruct (List.find _ l) as [m' |] eqn:Hfind; [eauto |].
  apply list_elem_of_In in Hin.
  apply (find_none _ _ Hfind) in Hin. apply String.eqb_neq in Hin. contradiction.
Qed.

(** X11: when the supplied models have distinct names, the text
    [getModelEmbeddingText] gives for a name is the text whose embedding the
    rebuilt index holds under that name. *)
Theorem embedding_text_is_indexed ms n text :
  NoDup (map name ms) ->
  getModelEmbeddingText (initialize pipeline new ms) n = Some text ->
  (n, pipeline text) ∈ modelEmbeddings (initialize pipeline new ms).
Proof.
  intros Hnd. unfold getModelEmbeddingText, initialize. simpl.
  destruct (find_model n ms) as [m |] eqn:Hfind; [| discriminate].
  intros [= <-]. apply build_lookup.
  apply find_model_name in Hfind as [Hname Hin].
  destruct (find_model_some n (rev ms) m) as [m' Hm'];
    [now rewrite elem_of_rev | assumption |].
  exists m'. split; [assumption |].
  apply find_model_name in Hm' as [Hname' Hin']. rewrite elem_of_rev in Hin'.
  assert (m = m') as ->.
  { apply (NoDup_map_inj name ms m m' Hnd Hin Hin'). now rewrite Hname'. }
  reflexivity.
Qed.

End IndexMore.

(** ** Keywords *)

Section StringFacts.

Lemma is_prefix_spec k s : Js.is_prefix k s = true <-> exists b, s = k ++ b.
Proof.
  revert s. induction k as [| a k IH]; intros s; simpl.
  - split; [eauto | reflexivity].
  - destruct s as [| c s].
    + split; [discriminate | intros (b & [=])].
    + destruct (ascii_dec a c) as [-> | Hne].
      * rewrite IH. split; intros (b & Hb); exists b; [now subst | now injection Hb].
      * split; [discriminate | intros (b & [= <- _]); contradiction].
Qed.

(** [s.includes(k)]: [k] occurs in [s]. *)
Lemma includes_chars_spec s k :
  Js.includes_chars s k = true <-> exists a b, s = a ++ k ++ b.
Proof.
  induction s as [| c s IH].
  - simpl. rewrite orb_false_r, is_prefix_spec. split.
    + intros (b & Hb). exists [], b. assumption.
    + intros (a & b & Hab). destruct a; [| discriminate]. eauto.
  - change (Js.includes_chars (c :: s) k)
      with (Js.is_prefix k (c :: s) || Js.includes_chars s k).
    rewrite orb_true_iff, IH, is_prefix_spec. split.
    + intros [(b & Hb) | (a & b & Hab)].
      * exists [], b. assumption.
      * exists (c :: a), b. now rewrite Hab.
    + intros (a & b & Hab). destruct a as [| x a].
      * left. eauto.
      * right. injection Hab as _ Hab. eauto.
Qed.

Lemma lower_char_idem c : Js.lower_char (Js.lower_char c) = Js.lower_char c.
Proof. destruct c as [[] [] [] [] [] [] [] []]; reflexivity. Qed.

(** The pieces of [split(/\s+/)] are runs of the text without white
    space. *)
Lemma split_ws_go_pieces cur skipping s w :
  forallb (fun c => negb (Js.is_space c)) cur = true ->
  (skipping = true -> cur = []) ->
  w ∈ Js.split_ws_go cur skipping s ->
  forallb (fun c => negb (Js.is_space c)) (Js.chars w) = true
  /\ exists a b, rev cur ++ s = a ++ Js.chars w ++ b.
Proof.
  revert cur skipping. induction s as [| c s IH]; intros cur skipping Hcur Hskip; simpl.
  - intros H. apply list_elem_of_singleton in H as ->.
    rewrite chars_str. split.
    + rewrite forallb_forall in *. intros x Hx. apply Hcur. now apply in_rev.
    + exists [], []. now rewrite !app_nil_r.
  - destruct (Js.is_space c) eqn:Hc.
    + destruct skipping.
      * rewrite (Hskip eq_refl). intros H.
        apply IH in H as (Hw & a & b & Hab); [| reflexivity | reflexivity].
        split; [assumption |]. exists (c :: a), b. simpl in *. now rewrite Hab.
      * intros H. apply elem_of_cons in H as [-> | H].
        -- rewrite chars_str. split.
           ++ rewrite forallb_forall in *. intros x Hx. apply Hcur. now apply in_rev.
           ++ exists [], (c :: s). reflexivity.
        -- apply IH in H as (Hw & a & b & Hab); [| reflexivity | reflexivity].
           split; [assumption |]. exists (rev cur ++ c :: a), b.
           simpl in Hab. rewrite Hab, <- app_assoc. reflexivity.
    + intros H. apply IH in H as (Hw & a & b & Hab).
      * split; [assumption |]. exists a, b. rewrite <- Hab. simpl.
        now rewrite <- app_assoc.
      * simpl. now rewrite Hc.
      * discriminate.
Qed.

Lemma split_ws_pieces s w :
  w ∈ Js.split_ws s ->
  forallb (fun c => negb (Js.is_space c)) (Js.chars w) = true
  /\ exists a b, Js.chars s = a ++ Js.chars w ++ b.
Proof.
  unfold Js.split_ws. intros H.
  apply split_ws_go_pieces in H; [assumption | reflexivity | discriminate].
Qed.

End StringFacts.

(** ** The table name *)

Section TableNameFacts.

Import Regex Analyzer Spec Shape.

Lemma in_matches_cls_char p s m :
  In m (matches (Cls p) s) ->
  exists x, consumed m = [x] /\ p x = true /\ groups m = [].
Proof.
  simpl. destruct s as [| x s]; [intros [] |].
  destruct (p x) eqn:Hp; [| intros []]. intros [<- | []]. eauto.
Qed.

Lemma in_matches_lit_chars_full t k s m :
  In m (matches (lit_chars t k) s) ->
  exists s' m',
    In m' (matches k s') /\ consumed m = t ++ consumed m' /\ groups m = groups m'.
Proof.
  revert s m. induction t as [| c t IH]; intros s m; simpl lit_chars.
  - eauto.
  - intros H. apply in_matches_cat in H as (m1 & m2 & H1 & H2 & Hg & Hc).
    apply in_matches_chr in H1 as [Hg1 Hc1].
    apply IH in H2 as (s' & m' & Hm' & Hc2 & Hg2).
    exists s', m'. split; [assumption |].
    rewrite Hc, Hc1, Hc2, Hg, Hg1, Hg2. auto.
Qed.

(** A match of the pattern of the table name is a declaration, and its
    first group is the declared name. *)
Lemma table_match_sound s m :
  In m (matches tableName_pattern s) ->
  exists t, table_declaration s t /\ group 1 (groups m) = Some (Js.str t).
Proof.
  intros H. pose proof (matches_consumed _ _ _ H) as Hs.
  unfold tableName_pattern, lit in H.
  apply in_matches_lit_chars_full in H as (s1 & m1 & H & Hc & Hg).
  apply in_matches_cat in H as (mw & m2 & Hw & H & Hg2 & Hc2).
  pose proof (in_matches_star_consumed _ _ _ Hw) as Hws.
  apply in_matches_star in Hw as Hgw.
  apply in_matches_cat in H as (mq & m3 & Hq & H & Hg3 & Hc3).
  apply in_matches_cls_char in Hq as (q1 & Hcq & Hq1 & Hgq).
  apply in_matches_cat in H as (mg & mq2 & Hgr & Hq2 & Hg4 & Hc4).
  apply in_matches_cls_char in Hq2 as (q2 & Hcq2 & Hq2 & Hgq2).
  apply in_matches_group in Hgr as (mp & Hp & Hg5 & Hc5).
  apply in_matches_plus in Hp as (Hgp & Hne & Hall).
  exists (consumed mp). split.
  - exists (consumed mw), q1, q2, (rest m).
    split; [| auto].
    rewrite Hs, Hc, Hc2, Hc3, Hc4, Hc5, Hcq, Hcq2.
    rewrite <- !app_assoc. reflexivity.
  - rewrite Hg, Hg2, Hgw, Hg3, Hgq, Hg4, Hg5, Hgp, Hgq2. reflexivity.
Qed.

Lemma quote_not_space q : is_quote3 q = true -> Js.is_space q = false.
Proof.
  unfold is_quote3.
  destruct (ascii_dec q "'") as [-> |]; [reflexivity |].
  destruct (ascii_dec q "034") as [-> |]; [reflexivity |].
  destruct (ascii_dec q "`") as [-> |]; [reflexivity | discriminate].
Qed.

Lemma first_star_run p ws x s :
  forallb p ws = true -> p x = false ->
  match_here (Star p) (ws ++ x :: s) = Some (Result ws (x :: s) []).
Proof.
  intros Hws Hx. unfold match_here. simpl.
  destruct (star_runs_head p ws x s Hws Hx) as [others ->]. reflexivity.
Qed.

Lemma first_cls p x s :
  p x = true -> match_here (Cls p) (x :: s) = Some (Result [x] s []).
Proof. intros H. unfold match_here. simpl. now rewrite H. Qed.

(** A declaration is matched, and the first match takes the declared
    name. *)
Lemma table_match_complete s t :
  table_declaration s t ->
  exists m, match_here tableName_pattern s = Some m
            /\ group 1 (groups m) = Some (Js.str t).
Proof.
  intros (ws & q1 & q2 & post & -> & Hws & Hq1 & Hne & Ht & Hq2).
  unfold tableName_pattern, lit.
  match goal with
  | |- exists m, match_here (lit_chars _ (Cat ?a (Cat ?b (Cat ?c ?d)))) _ = _ /\ _ =>
      set (ra := a); set (rb := b); set (rc := c); set (rd := d)
  end.
  assert (match_here (Cat rc rd) (t ++ q2 :: post)
          = Some (Result (t ++ [q2]) post [(1, t)])) as H3.
  { apply (first_cat rc rd (t ++ q2 :: post) (Result t (q2 :: post) [(1, t)])
             (Result [q2] post [])).
    - apply (first_group 1 (Plus not_quote3) (t ++ q2 :: post) (Result t (q2 :: post) [])).
      apply first_plus_run; [assumption | assumption |].
      unfold not_quote3. now rewrite Hq2.
    - now apply first_cls. }
  assert (match_here (Cat rb (Cat rc rd)) (q1 :: t ++ q2 :: post)
          = Some (Result (q1 :: t ++ [q2]) post [(1, t)])) as H2.
  { apply (first_cat rb _ (q1 :: t ++ q2 :: post) (Result [q1] (t ++ q2 :: post) [])
             (Result (t ++ [q2]) post [(1, t)])); [| exact H3].
    now apply first_cls. }
  assert (match_here (Cat ra (Cat rb (Cat rc rd))) (ws ++ q1 :: t ++ q2 :: post)
          = Some (Result (ws ++ q1 :: t ++ [q2]) post [(1, t)])) as H1.
  { apply (first_cat ra _ (ws ++ q1 :: t ++ q2 :: post)
             (Result ws (q1 :: t ++ q2 :: post) [])
             (Result (q1 :: t ++ [q2]) post [(1, t)])); [| exact H2].
    apply first_star_run; [assumption | now apply quote_not_space]. }
  eexists. split; [apply (first_lit _ _ _ _ H1) |]. reflexivity.
Qed.

Lemma table_match_none s :
  (forall t, ~ table_declaration s t) -> match_here tableName_pattern s = None.
Proof.
  intros H. destruct (match_here tableName_pattern s) as [m |] eqn:E; [| reflexivity].
  apply match_here_in, table_match_sound in E as (t & Ht & _).
  now apply H in Ht.
Qed.

(** [match]: the first position at which the pattern matches. *)
Lemma search_first r pre s m :
  match_here r s = Some m ->
  (forall pre1 pre2, pre = pre1 ++ pre2 -> pre2 <> [] ->
     match_here r (pre2 ++ s) = None) ->
  search r (pre ++ s) = Some m.
Proof.
  intros Hm. induction pre as [| c pre IH]; intros Hnone.
  - simpl. destruct s; simpl; now rewrite Hm.
  - change ((c :: pre) ++ s) with (c :: pre ++ s). simpl.
    pose proof (Hnone [] (c :: pre) eq_refl ltac:(discriminate)) as H0.
    change ((c :: pre) ++ s) with (c :: pre ++ s) in H0. rewrite H0.
    apply IH. intros pre1 pre2 -> Hne. apply (Hnone (c :: pre1) pre2); auto.
Qed.

Lemma search_nowhere r l :
  (forall pre s, l = pre ++ s -> match_here r s = None) -> search r l = None.
Proof.
  induction l as [| c l IH]; intros H.
  - simpl. now rewrite (H [] []).
  - simpl. rewrite (H [] (c :: l)) by reflexivity.
    apply IH. intros pre s ->. apply (H (c :: pre) s). reflexivity.
Qed.

(** A declaration opens with the word [tableName:]; when that word does not
    occur earlier in the text, no declaration starts earlier. *)
Lemma declaration_is_first pre s :
  Js.is_prefix (Js.chars "tableName:") s = true ->
  Js.includes_chars (pre ++ Js.chars "tableName") (Js.chars "tableName:") = false ->
  forall pre1 pre2 t,
    pre = pre1 ++ pre2 -> pre2 <> [] -> ~ table_declaration (pre2 ++ s) t.
Proof.
  intros Hs Hnone pre1 pre2 t -> Hne (ws & q1 & q2 & post & E & _).
  apply is_prefix_spec in Hs as [r ->].
  assert (Js.includes_chars ((pre1 ++ pre2) ++ Js.chars "tableName")
                            (Js.chars "tableName:") = true) as Htrue; [| congruence].
  apply includes_chars_spec.
  set (k := Js.chars "tableName:") in *.
  set (tail := ws ++ q1 :: t ++ q2 :: post) in *.
  assert (exists b, pre2 ++ Js.chars "tableName" = k ++ b) as [b Hb].
  { destruct pre2 as [| c pre2]; [contradiction |].
    assert (take 10 ((c :: pre2) ++ k ++ r) = k) as Htake.
    { rewrite E. unfold k. reflexivity. }
    exists (drop 10 ((c :: pre2) ++ Js.chars "tableName")).
    rewrite <- Htake at 1.
    rewrite <- (take_drop 10 ((c :: pre2) ++ Js.chars "tableName")) at 1.
    f_equal.
    rewrite !take_app. f_equal.
    simpl List.length. unfold k.
    destruct (10 - S (List.length pre2)) as [| [| [| [| [| [| [| [| [| [| n]]]]]]]]]] eqn:En;
      try reflexivity. lia. }
  exists pre1, b. rewrite <- app_assoc, Hb. reflexivity.
Qed.

Variable parse : string -> outcome Node.
Variable scope_error : Node -> option string.

(** X5: an entity [parseModelFile] returns is named after the file, holds
    the columns [parseColumns] finds, at least one, and the associations
    [parseAssociations] finds in the text, and has no description.  Its
    table name is the name of the first declaration [tableName: 'name'] of
    the text, quoted with any of the three quote characters; when the text
    has no such declaration it is the lower-cased entity name.  In either
    case it is that lower-cased name or a non-empty text without quote
    characters. *)
Theorem parsed_entity_shape content filename m :
  parseModelFile parse scope_error content filename = Returned (Some m) ->
  name m = stem filename
  /\ parseColumns parse scope_error content = Returned (columns m)
  /\ columns m <> []
  /\ associations m = parseAssociations content
  /\ description m = None
  /\ (forall pre s t,
        Js.chars content = pre ++ s ->
        table_declaration s t ->
        (forall pre1 pre2 t',
           pre = pre1 ++ pre2 -> pre2 <> [] -> ~ table_declaration (pre2 ++ s) t') ->
        tableName m = Js.str t)
  /\ ((forall pre s t, Js.chars content = pre ++ s -> ~ table_declaration s t) ->
      tableName m = Js.toLowerCase (stem filename))
  /\ (tableName m = Js.toLowerCase (stem filename)
      \/ (tableName m <> "" /\ quote_free (tableName m))).
Proof.
  intros H.
  destruct (parseModelFile_shape parse scope_error content filename m H)
    as (Hn & Hc & Hne & Ha & Hd & Hshape).
  repeat (split; [assumption |]).
  cut ((forall pre s t,
          Js.chars content = pre ++ s ->
          table_declaration s t ->
          (forall pre1 pre2 t',
             pre = pre1 ++ pre2 -> pre2 <> [] -> ~ table_declaration (pre2 ++ s) t') ->
          tableName m = Js.str t)
       /\ ((forall pre s t, Js.chars content = pre ++ s -> ~ table_declaration s t) ->
           tableName m = Js.toLowerCase (stem filename))).
  { intros [H1 H2]. auto. }
  clear Hshape.
  unfold parseModelFile in H.
  destruct (parseColumns parse scope_error content) as [cols |]; [| discriminate].
  destruct (List.length cols =? 0); [discriminate |].
  injection H as <-. cbn [tableName]. fold (stem filename). split.
  - intros pre s t Hcontent Hdecl Hfirst.
    destruct (table_match_complete s t Hdecl) as (r & Hr & Hg).
    rewrite Hcontent, (search_first tableName_pattern pre s r Hr).
    + now rewrite Hg.
    + intros pre1 pre2 E Hne2. apply table_match_none.
      intros t'. now apply (Hfirst pre1 pre2 t').
  - intros Hnone. rewrite search_nowhere; [reflexivity |].
    intros pre s E. apply table_match_none. intros t. now apply (Hnone pre s t).
Qed.

End TableNameFacts.

Section KeywordFacts.

Import HybridRetrieval Spec Shape.

Lemma replace_class_chars p x s :
  Js.chars (Js.replace_class p [x] s) = map (fun c => if p c then x else c) (Js.chars s).
Proof.
  unfold Js.replace_class. rewrite chars_str.
  induction (Js.chars s) as [| c l IH]; simpl; [reflexivity |].
  rewrite IH. now destruct (p c).
Qed.

Lemma toLowerCase_chars s : Js.chars (Js.toLowerCase s) = map Js.lower_char (Js.chars s).
Proof. unfold Js.toLowerCase. apply chars_str. Qed.

(** A run without white space of the text in which every character outside
    [\w] and [\s] has become a space is a run of the text itself, made of
    word characters. *)
Lemma run_of_replaced l :
  forallb (fun c => negb (Js.is_space c))
          (map (fun c => if not_word_or_space c then " "%char else c) l) = true ->
  map (fun c => if not_word_or_space c then " "%char else c) l = l
  /\ forallb Js.is_word l = true.
Proof.
  induction l as [| c l IH]; simpl; [auto |].
  intros Hw. apply andb_true_iff in Hw as [Hc Hw].
  destruct (IH Hw) as [Hl Hword]. rewrite Hl, Hword.
  unfold not_word_or_space in *.
  destruct (Js.is_word c) eqn:Hwc; simpl in *; [auto |].
  destruct (Js.is_space c) eqn:Hsc; simpl in *.
  - rewrite Hsc in Hc. discriminate.
  - vm_compute in Hc. discriminate.
Qed.

Lemma keyword_facts query w :
  w ∈ extractKeywords query ->
  2 < Js.length w /\ (w ∉ stopWords)
  /\ forallb Js.is_word (Js.chars w) = true
  /\ Js.toLowerCase w = w
  /\ Js.includes (Js.toLowerCase query) w = true.
Proof.
  unfold extractKeywords. intros H.
  apply elem_of_filter_bool in H as [H Hstop].
  apply elem_of_filter_bool in H as [H Hlen].
  apply Nat.ltb_lt in Hlen. split; [assumption |].
  split.
  { apply negb_true_iff in Hstop. unfold Ordered.has in Hstop.
    now apply bool_decide_eq_false in Hstop. }
  apply split_ws_pieces in H as (Hns & a & b & Hab).
  rewrite replace_class_chars in Hab.
  apply map_eq_app in Hab as (a' & wb & Hl & Ha & Hwb).
  apply map_eq_app in Hwb as (w' & b' & Hwb & Hw' & Hb).
  rewrite <- Hw' in Hns. destruct (run_of_replaced _ Hns) as [Hrun Hword].
  rewrite Hrun in Hw'. subst w'.
  rewrite toLowerCase_chars in Hl.
  assert (map Js.lower_char (Js.chars w) = Js.chars w) as Hlow.
  { assert (forall c, In c (Js.chars w) -> exists x, c = Js.lower_char x) as Hex.
    { intros c Hc.
      assert (In c (map Js.lower_char (Js.chars query))) as Hin.
      { rewrite Hl, Hwb. apply in_or_app. right. apply in_or_app. now left. }
      apply in_map_iff in Hin as (x & <- & _). eauto. }
    clear - Hex. induction (Js.chars w) as [| c l IH]; simpl; [reflexivity |].
    destruct (Hex c (or_introl eq_refl)) as [x ->].
    rewrite lower_char_idem. f_equal. apply IH. intros c' Hc'. apply Hex. now right. }
  split; [assumption |]. split.
  - unfold Js.toLowerCase. rewrite Hlow. apply string_of_list_ascii_of_string.
  - unfold Js.includes. apply includes_chars_spec.
    rewrite toLowerCase_chars, Hl, Hwb. eauto.
Qed.

(** X12: every keyword drawn from a query has more than two characters,
    is no stop word, consists of word characters in lower case, and occurs
    in the lower-cased query. *)
Theorem keywords_are_plain_words query w :
  w ∈ extractKeywords query ->
  2 < Js.length w /\ (w ∉ stopWords)
  /\ forallb Js.is_word (Js.chars w) = true
  /\ Js.toLowerCase w = w
  /\ Js.includes (Js.toLowerCase query) w = true.
Proof. apply keyword_facts. Qed.

End KeywordFacts.

Section KeywordSearch.

Import HybridRetrieval Spec Shape.

Lemma word_not_space_char c : Js.is_word c = true -> Js.is_space c = false.
Proof. destruct c as [[] [] [] [] [] [] [] []]; vm_compute; congruence. Qed.

(** An occurrence of a text without spaces in two texts joined by a space
    lies in one of them. *)
Lemma occurrence_on_one_side (x y k a b : list ascii) :
  k <> [] -> ~ In " "%char k ->
  x ++ " "%char :: y = a ++ k ++ b ->
  (exists a' b', x = a' ++ k ++ b') \/ (exists a' b', y = a' ++ k ++ b').
Proof.
  intros Hk Hsp H. apply app_eq_app in H as (l & [[Hx Hkb] | [Ha Hy]]).
  - symmetry in Hkb. apply app_eq_app in Hkb as (l2 & [[Hl Hb] | [Hkl Hy]]).
    + left. subst. eauto.
    + destruct l2 as [| c l2].
      * left. rewrite app_nil_r in Hkl. subst. exists a, []. now rewrite app_nil_r.
      * injection Hy as <- Hy. exfalso. apply Hsp. subst k.
        apply in_or_app. right. now left.
  - destruct l as [| c l].
    + simpl in Hy. destruct k as [| c k]; [contradiction |].
      injection Hy as <- _. exfalso. apply Hsp. now left.
    + injection Hy as _ Hy. right. eauto.
Qed.

Lemma includes_part sep parts part k :
  part ∈ parts -> Js.includes part k = true ->
  Js.includes (Js.join sep parts) k = true.
Proof.
  unfold Js.includes. rewrite !includes_chars_spec.
  induction parts as [| p ps IH]; intros Hin (a & b & Hab); [inversion Hin |].
  apply elem_of_cons in Hin as [-> | Hin].
  - destruct ps as [| q ps]; simpl; [eauto |].
    rewrite !chars_append, Hab. exists a, (b ++ Js.chars sep ++ Js.chars (Js.join sep (q :: ps))).
    now rewrite <- !app_assoc.
  - destruct (IH Hin) as (a' & b' & Hab'); [eauto |].
    destruct ps as [| q ps]; [inversion Hin |].
    change (Js.join sep (p :: q :: ps)) with (p +:+ sep +:+ Js.join sep (q :: ps)).
    rewrite !chars_append, Hab'. exists (Js.chars p ++ Js.chars sep ++ a'), b'.
    now rewrite <- !app_assoc.
Qed.

Lemma includes_join_space parts k :
  k <> "" -> forallb Js.is_word (Js.chars k) = true ->
  Js.includes (Js.join " " parts) k = true ->
  exists part, part ∈ parts /\ Js.includes part k = true.
Proof.
  intros Hne Hword. unfold Js.includes.
  assert (Js.chars k <> []) as Hk.
  { intros E. apply Hne. apply chars_inj. now rewrite E. }
  assert (~ In " "%char (Js.chars k)) as Hsp.
  { intros Hin. rewrite forallb_forall in Hword. apply Hword in Hin. discriminate. }
  induction parts as [| p ps IH]; intros H.
  - apply includes_chars_spec in H as (a & b & Hab). simpl in Hab.
    destruct a; [| discriminate]. destruct (Js.chars k); [contradiction | discriminate].
  - destruct ps as [| q ps].
    + exists p. split; [apply list_elem_of_here | assumption].
    + change (Js.join " " (p :: q :: ps)) with (p +:+ " " +:+ Js.join " " (q :: ps)) in H.
      rewrite !chars_append in H. apply includes_chars_spec in H as (a & b & Hab).
      change (Js.chars " " ++ Js.chars (Js.join " " (q :: ps)))
        with (" "%char :: Js.chars (Js.join " " (q :: ps))) in Hab.
      apply occurrence_on_one_side in Hab as [(a' & b' & Hp) | (a' & b' & Hq)];
        [| | assumption | assumption].
      * exists p. split; [apply list_elem_of_here |].
        apply includes_chars_spec. eauto.
      * destruct IH as (part & Hin & Hinc); [apply includes_chars_spec; eauto |].
        exists part. split; [now apply list_elem_of_further | assumption].
Qed.

(** X13: the keyword search selects exactly the entities of the snapshot
    that have a part (the lower-cased name, table name or a column name, or
    a word of the description) in which a keyword of the query occurs; a
    keyword never matches across two parts. *)
Theorem keyword_search_is_per_part this query m :
  m ∈ findByKeywords this (extractKeywords query)
  <-> m ∈ allModels this
      /\ exists k part,
           k ∈ extractKeywords query /\ part ∈ searchable_parts m
           /\ Js.includes part k = true.
Proof.
  unfold findByKeywords.
  destruct (extractKeywords query) as [| k0 ks] eqn:Hkw.
  { simpl. split; [intros H; inversion H | intros (_ & k & part & H & _); inversion H]. }
  change (List.length (k0 :: ks) =? 0) with false. cbv iota.
  rewrite elem_of_filter_bool, existsb_elem_of.
  change (searchableText m) with (Js.join " " (searchable_parts m)).
  split; intros [Hin (k & Hrest)]; (split; [assumption |]).
  - destruct Hrest as [Hk Hinc]. exists k.
    assert (k ∈ extractKeywords query) as Hk' by now rewrite Hkw.
    apply keyword_facts in Hk' as (Hlen & _ & Hword & _).
    apply includes_join_space in Hinc as (part & Hpart & Hinc); [eauto | | assumption].
    intros ->. simpl in Hlen. lia.
  - destruct Hrest as (part & Hk & Hpart & Hinc). exists k.
    split; [assumption |]. now apply includes_part with part.
Qed.

End KeywordSearch.

(** ** The relational expansion, further *)

Section ExpansionMore.

Import HybridRetrieval Spec Shape.

Lemma fold_left_NoDup {A} (g : list string -> A -> list string) l r :
  (forall r a, NoDup r -> NoDup (g r a)) -> NoDup r -> NoDup (fold_left g l r).
Proof.
  intros Hg. revert r. induction l as [| a l IH]; simpl; intros r Hr; [assumption |].
  apply IH. now apply Hg.
Qed.

Lemma add_related_NoDup this related s :
  NoDup related -> NoDup (add_related this related s).
Proof.
  intros Hr. unfold add_related.
  destruct (VectorSearch.find_model s (allModels this)) as [model |]; [| assumption].
  apply fold_left_NoDup.
  { intros r col Hnd. destruct (c_references col) as [rf |]; [| assumption].
    destruct (referenced_model this rf); [now apply add_NoDup | assumption]. }
  apply fold_left_NoDup.
  { intros r other Hnd. destruct (existsb _ _); [now apply add_NoDup | assumption]. }
  apply fold_left_NoDup; [| assumption].
  intros r assoc Hnd. now apply add_NoDup.
Qed.

Lemma delete_NoDup s x : NoDup s -> NoDup (Ordered.delete s x).
Proof.
  unfold Ordered.delete. induction s as [| y s IH]; simpl; intros H; [assumption |].
  apply NoDup_cons in H as [Hy H].
  destruct (negb (String.eqb y x)); [| auto].
  apply NoDup_cons. split; [| auto].
  intros Hin. apply elem_of_filter_bool in Hin as [Hin _]. contradiction.
Qed.

(** X14: the relational expansion lists every name once, and none of the
    names it was computed from. *)
Theorem expansion_is_fresh this selected :
  NoDup (findRelatedModels this selected)
  /\ forall y, y ∈ findRelatedModels this selected -> y ∉ selected.
Proof.
  split.
  - unfold findRelatedModels.
    apply fold_left_NoDup; [intros r a; apply delete_NoDup |].
    apply fold_left_NoDup; [intros r a; apply add_related_NoDup |].
    apply NoDup_nil_2.
  - intros y Hy. now apply elem_of_findRelatedModels in Hy as [Hn _].
Qed.

Lemma filter_sublist_mono {A} (p q : A -> bool) l :
  (forall a, a ∈ l -> p a = true -> q a = true) ->
  List.filter p l `sublist_of` List.filter q l.
Proof.
  induction l as [| a l IH]; simpl; intros H; [constructor |].
  assert (List.filter p l `sublist_of` List.filter q l) as Hl.
  { apply IH. intros b Hb. apply H. now apply list_elem_of_further. }
  destruct (p a) eqn:Hp.
  - rewrite (H a (list_elem_of_here _ _) Hp). now constructor.
  - destruct (q a); [now constructor | assumption].
Qed.

Variable pipeline : string -> list Q.

(** X15: switching the relational expansion on only adds entities: the
    result without the expansion is a sublist of the result with it, which
    is a sublist of the snapshot. *)
Theorem expansion_only_adds this query options :
  ready (vectorSearch this) ->
  exists l_off l_on,
    findRelevant pipeline this query (without_related options) = Returned l_off
    /\ findRelevant pipeline this query options = Returned l_on
    /\ l_off `sublist_of` l_on
    /\ l_on `sublist_of` allModels this.
Proof.
  intros Hready.
  rewrite !(findRelevant_unfold pipeline this _ _ Hready).
  do 2 eexists. split; [reflexivity |]. split; [reflexivity |].
  split; [| apply filter_sublist].
  apply filter_sublist_mono. intros m _.
  rewrite !has_true, !elem_of_fold_add_id, seed_without_related.
  unfold relational_signal at 1. simpl.
  intros [H | H]; [auto | inversion H].
Qed.

Variable toFixed1 : Q -> string.

(** X16: on an index that has not been initialized, the hybrid search
    fails with the error of the vector search, whatever the query, the
    options and the snapshot; the diagnostic view, which asks for the scores
    first, fails earlier, on the call of the pipeline that is not loaded. *)
Theorem retrieval_needs_the_index this query options :
  VectorSearch.initialized (vectorSearch this) = false ->
  VectorSearch.embedder (vectorSearch this) = false ->
  findRelevant pipeline this query options = Thrown "VectorSearch not initialized"
  /\ explainSelection pipeline toFixed1 this query
     = Thrown "this.embedder is not a function".
Proof.
  intros Hi He. split.
  - unfold findRelevant, VectorSearch.findRelevant. now rewrite Hi.
  - unfold explainSelection, VectorSearch.getScores, VectorSearch.embed. now rewrite He.
Qed.

End ExpansionMore.

(** ** Snapshots, the file watcher and the schema description *)

Section SnapshotMore.

Import Analyzer Spec Shape.

Variable parse : string -> outcome Node.
Variable scope_error : Node -> option string.
Variable path_join : string -> string -> string.
Variable path_dirname : string -> string.

(** X17: every entity of a snapshot has at least one column, all its
    columns are proper, and it carries no description. *)
Theorem snapshot_entities_are_proper fs projectRoot s log :
  analyzeProject parse scope_error path_join fs projectRoot = (Returned s, log) ->
  forall m, m ∈ models s ->
    columns m <> []
    /\ (forall col, col ∈ columns m -> proper_column col)
    /\ description m = None.
Proof.
  unfold analyzeProject.
  destruct (fs (path_join projectRoot "models")) as [dir |]; [| discriminate].
  destruct (List.length _ =? 0); [discriminate |].
  rewrite scan_eq.
  destruct (List.length _ =? 0); [discriminate |].
  destruct (parseCentralizedAssociations parse scope_error dir) as [central log'].
  intros [= <- _] m Hm. simpl in Hm. unfold mergeCentralizedAssociations in Hm.
  apply list_elem_of_In, in_map_iff in Hm as (m0 & <- & Hm0).
  apply list_elem_of_In in Hm0.
  destruct (merge_model_rest central m0) as (_ & _ & -> & ->).
  apply list_elem_of_omap in Hm0 as (file & _ & Hfile).
  unfold entity_of in Hfile.
  destruct (readFile dir file) as [content |]; [| discriminate].
  destruct (parseModelFile parse scope_error content file) as [[m1 |] |] eqn:Hparse;
    try discriminate.
  injection Hfile as ->.
  apply parseModelFile_shape in Hparse as (_ & Hcols & Hne & _ & Hdesc & _).
  split; [assumption |]. split; [| assumption].
  now apply (parseColumns_proper parse scope_error content).
Qed.

(** X18: when [path.dirname] undoes the [path.join] of the models path, a
    reload right after [createWatchableSchema], on the same files, succeeds
    and leaves the object as it is, with the warnings of the first
    analysis. *)
Theorem reload_after_create fs projectRoot w log :
  path_dirname (path_join projectRoot "models") = projectRoot ->
  createWatchableSchema parse scope_error path_join fs projectRoot = (Returned w, log) ->
  reload parse scope_error path_join path_dirname fs w = (w, Returned tt, log).
Proof.
  intros Hdir. unfold createWatchableSchema, reload.
  destruct (analyzeProject parse scope_error path_join fs projectRoot) as [[s | e] l] eqn:Hrun;
    [| discriminate].
  intros [= <- <-]. simpl. rewrite Hdir, Hrun. reflexivity.
Qed.

Lemma on_event_keeps fs this ev :
  let h := on_event parse scope_error path_join path_dirname fs this ev in
  _modelsPath (h_schema h) = _modelsPath this
  /\ _watching (h_schema h) = _watching this
  /\ (if h_onChange h
      then handles ev = true /\ h_error h = None
           /\ exists log,
                analyzeProject parse scope_error path_join fs (path_dirname (_modelsPath this))
                = (Returned (_schemaInfo (h_schema h)), log)
      else h_schema h = this).
Proof.
  unfold on_event, reload.
  destruct (handles ev); simpl; [| auto].
  destruct (analyzeProject parse scope_error path_join fs (path_dirname (_modelsPath this)))
    as [[s | e] log]; simpl; eauto 10.
Qed.

(** X19: a handler of the file watcher reaches [onChange] only after a
    reload that succeeded, and otherwise leaves the object as it was; so
    after any run of handlers the models path and the watcher are as before,
    and the snapshot is the one held before the run or the analysis of the
    project at one of the events. *)
Theorem events_keep_a_good_snapshot events w :
  (forall fs ev,
     let h := on_event parse scope_error path_join path_dirname fs w ev in
     if h_onChange h
     then handles ev = true /\ h_error h = None
          /\ exists log,
               analyzeProject parse scope_error path_join fs (path_dirname (_modelsPath w))
               = (Returned (_schemaInfo (h_schema h)), log)
     else h_schema h = w)
  /\ _modelsPath (on_events parse scope_error path_join path_dirname events w) = _modelsPath w
  /\ _watching (on_events parse scope_error path_join path_dirname events w) = _watching w
  /\ (_schemaInfo (on_events parse scope_error path_join path_dirname events w) = _schemaInfo w
      \/ exists fs ev log,
           (fs, ev) ∈ events /\ handles ev = true
           /\ analyzeProject parse scope_error path_join fs (path_dirname (_modelsPath w))
              = (Returned (_schemaInfo (on_events parse scope_error path_join path_dirname events w)),
                 log)).
Proof.
  split; [intros fs ev; apply on_event_keeps |].
  unfold on_events.
  induction events as [| [fs ev] events IH] using rev_ind; simpl; [auto |].
  rewrite fold_left_app. simpl.
  set (w' := fold_left _ events w) in *.
  destruct IH as (Hpath & Hwatch & Hsnap).
  destruct (on_event_keeps fs w' ev) as (Hp & Hw & Hh).
  split; [congruence |]. split; [congruence |].
  destruct (h_onChange _).
  - destruct Hh as (Hhandles & _ & log & Hrun). right. exists fs, ev, log.
    split; [apply elem_of_app; right; apply list_elem_of_here |].
    split; [assumption |]. now rewrite <- Hpath.
  - rewrite Hh. destruct Hsnap as [Hs | (fs' & ev' & log' & Hin & Hrest)]; [auto |].
    right. exists fs', ev', log'. split; [| assumption].
    apply elem_of_app. now left.
Qed.

End SnapshotMore.

Section DescriptionMore.

Import Analyzer.

Lemma append_assoc (a b c : string) : (a +:+ b) +:+ c = a +:+ (b +:+ c).
Proof.
  induction a as [| x a IH]; [reflexivity |].
  change ((String x a +:+ b) +:+ c) with (String x ((a +:+ b) +:+ c)).
  now rewrite IH.
Qed.

Lemma join_app sep l1 l2 :
  l1 <> [] -> l2 <> [] ->
  Js.join sep (l1 ++ l2) = Js.join sep l1 +:+ sep +:+ Js.join sep l2.
Proof.
  intros H1 H2. induction l1 as [| p l1 IH]; [contradiction |].
  destruct l1 as [| q l1].
  - simpl. destruct l2; [contradiction | reflexivity].
  - change (Js.join sep ((p :: q :: l1) ++ l2))
      with (p +:+ sep +:+ Js.join sep ((q :: l1) ++ l2)).
    rewrite IH by discriminate.
    change (Js.join sep (p :: q :: l1)) with (p +:+ sep +:+ Js.join sep (q :: l1)).
    now rewrite !append_assoc.
Qed.

Lemma flat_map_model_lines_nonempty ms : ms <> [] -> flat_map model_lines ms <> [].
Proof. destruct ms as [| m ms]; [contradiction |]. discriminate. Qed.

(** X20: the description of a snapshot is made of the descriptions of its
    parts, one after the other with a line break between them; as the
    description of an entity ends with a line break, an empty line separates
    two entities. *)
Theorem description_is_concatenated ms1 ms2 :
  ms1 <> [] -> ms2 <> [] ->
  generateSchemaDescription (ms1 ++ ms2)
  = generateSchemaDescription ms1 +:+ newline +:+ generateSchemaDescription ms2
  /\ exists body, generateSchemaDescription ms1 = body +:+ newline.
Proof.
  intros H1 H2. unfold generateSchemaDescription. split.
  - rewrite flat_map_app.
    apply join_app; now apply flat_map_model_lines_nonempty.
  - destruct ms1 as [| m ms] using rev_ind; [contradiction |].
    rewrite flat_map_app.
    change (flat_map model_lines [m]) with (model_lines m ++ []).
    rewrite app_nil_r. unfold model_lines. rewrite !app_assoc.
    match goal with |- exists body, Js.join _ (?l ++ [""]) = _ =>
      exists (Js.join newline l); rewrite (join_app newline l [""]) end.
    + reflexivity.
    + destruct (flat_map _ ms); discriminate.
    + discriminate.
Qed.

End DescriptionMore.

(** ** The chat history *)

Section ChatFacts.

Import OpenRouter Chat Shape.

Lemma paired_even h : paired h -> exists k, List.length h = 2 * k.
Proof.
  assert (forall n h, List.length h <= n -> paired h -> exists k, List.length h = 2 * k)
    as H.
  { induction n as [| n IH]; intros [| u [| a h']]; simpl; intros Hlen Hp;
      try (exists 0; reflexivity); try contradiction; try lia.
    destruct Hp as (_ & _ & Hp).
    destruct (IH h') as [k Hk]; [lia | assumption |]. exists (S k). lia. }
  intros Hp. now apply (H (List.length h)).
Qed.

Lemma paired_app h1 h2 : paired h1 -> paired h2 -> paired (h1 ++ h2).
Proof.
  assert (forall n h1, List.length h1 <= n -> paired h1 -> paired h2 -> paired (h1 ++ h2))
    as H.
  { induction n as [| n IH]; intros [| u [| a h']]; simpl; intros Hlen Hp Hp2;
      try assumption; try contradiction; try lia.
    destruct Hp as (Hu & Ha & Hp). repeat split; try assumption.
    apply IH; [lia | assumption | assumption]. }
  intros Hp. now apply (H (List.length h1)).
Qed.

Variable pipeline : string -> list Q.
Variable generateSQL : string -> list ModelInfo -> list ChatMessage -> outcome string.

(** X21: [handleQuery] keeps the chat history a list of at most ten
    exchanges, each a message of the user followed by the answer.  A query
    that fails leaves the history as it was; one that succeeds appends its
    exchange to the history, less the oldest exchange if there were ten. *)
Theorem handleQuery_keeps_exchanges query watchableSchema chatHistory vectorSearch :
  paired chatHistory ->
  List.length chatHistory <= 20 ->
  let after :=
    handleQuery pipeline generateSQL query watchableSchema chatHistory vectorSearch in
  paired (fst after)
  /\ List.length (fst after) <= 20
  /\ match snd after with
     | Some _ => fst after = chatHistory
     | None =>
         exists response,
           fst after
           = (if List.length chatHistory =? 20 then drop 2 chatHistory else chatHistory)
             ++ [{| role := user; content := query |};
                 {| role := assistant; content := response |}]
     end.
Proof.
  intros Hp Hlen. unfold handleQuery.
  destruct (VectorSearch.findRelevant pipeline vectorSearch query 5 (1 # 4))
    as [relevantModels | e]; simpl; [| auto].
  destruct (generateSQL query _ chatHistory) as [response | e]; simpl; [| auto].
  rewrite length_app. simpl.
  destruct (paired_even chatHistory Hp) as [k Hk].
  destruct (Nat.eqb_spec (List.length chatHistory) 20) as [H20 | Hn20].
  - assert ((20 <? List.length chatHistory + 2) = true) as -> by (apply Nat.ltb_lt; lia).
    replace (List.length chatHistory + 2 - 20) with 2 by lia.
    destruct chatHistory as [| u [| a h']]; simpl in H20; try lia.
    simpl. rewrite !drop_0. destruct Hp as (_ & _ & Hp).
    split; [| split].
    + apply paired_app; simpl; auto.
    + rewrite length_app. simpl in *. lia.
    + exists response. reflexivity.
  - assert ((20 <? List.length chatHistory + 2) = false) as -> by (apply Nat.ltb_ge; lia).
    split; [| split].
    + apply paired_app; simpl; auto.
    + rewrite length_app. simpl. lia.
    + exists response. reflexivity.
Qed.

End ChatFacts.

(** ** Cleaning the answer of the language model *)

Section FenceFacts.

Import Regex OpenRouter Shape.

Lemma remove_all_skip r k s : remove_all r k s = remove_all r 0 (drop k s).
Proof.
  revert s. induction k as [| k IH]; intros s; [now rewrite drop_0 |].
  destruct s as [| c s]; [reflexivity |]. simpl. apply IH.
Qed.

Lemma remove_all_step r c s :
  remove_all r 0 (c :: s)
  = match match_here r (c :: s) with
    | Some m => remove_all r 0 (drop (pred (List.length (consumed m))) s)
    | None => c :: remove_all r 0 s
    end.
Proof.
  simpl. destruct (match_here r (c :: s)); [apply remove_all_skip | reflexivity].
Qed.

(** A pattern that opens with a literal matches only where that literal
    is. *)
Lemma match_here_first c r x s : x <> c -> match_here (Cat (Chr c) r) (x :: s) = None.
Proof.
  intros H. unfold match_here. simpl. destruct (ascii_dec x c); [contradiction | reflexivity].
Qed.

(** Where [fence] matches, and what it takes. *)
Lemma fence_match s :
  match_here fence s
  = if Js.is_prefix three s
    then Some (match drop 3 s with
               | x :: r =>
                   if ascii_dec x line_feed
                   then Result (three ++ [line_feed]) r []
                   else Result three (x :: r) []
               | [] => Result three [] []
               end)
    else None.
Proof.
  unfold match_here, fence, lit, three, backquote, line_feed.
  destruct s as [| a [| b [| c [| d r]]]]; cbn -[ascii_dec];
    repeat match goal with
           | |- context [ascii_dec ?x ?y] =>
               destruct (ascii_dec x y); subst; cbn -[ascii_dec]
           end;
    try reflexivity; try congruence.
Qed.

Lemma no_fence_cons c l :
  Js.is_prefix three (c :: l) = false -> no_fence l -> no_fence (c :: l).
Proof.
  unfold no_fence. intros Hp Hl.
  change (Js.includes_chars (c :: l) three)
    with (Js.is_prefix three (c :: l) || Js.includes_chars l three).
  now rewrite Hp, Hl.
Qed.

Ltac decide_chars :=
  cbn -[ascii_dec remove_all] in *;
  repeat match goal with
         | |- context [ascii_dec ?x ?y] =>
             destruct (ascii_dec x y); subst; cbn -[ascii_dec remove_all] in *
         | H : context [ascii_dec ?x ?y] |- _ =>
             destruct (ascii_dec x y); subst; cbn -[ascii_dec remove_all] in *
         end;
  try reflexivity; try congruence.

(** Cutting the fences out brings no two backquotes to the front that were
    not there. *)
Lemma remove_fence_front s :
  Js.is_prefix [backquote; backquote] s = false ->
  Js.is_prefix [backquote; backquote] (remove_all fence 0 s) = false.
Proof.
  unfold backquote.
  destruct s as [| a [| b s]]; intros H.
  - reflexivity.
  - rewrite remove_all_step, fence_match. unfold three, backquote.
    change (remove_all fence 0 []) with (@nil ascii). decide_chars.
  - rewrite remove_all_step, fence_match. unfold three, backquote.
    cbn -[ascii_dec remove_all] in *.
    destruct (ascii_dec "`" a) as [<- | Ha].
    + destruct (ascii_dec "`" b) as [<- | Hb]; [discriminate |].
      rewrite remove_all_step, fence_match. unfold three, backquote. decide_chars.
    + decide_chars.
Qed.

Lemma remove_fence_no_fence s : no_fence (remove_all fence 0 s).
Proof.
  assert (forall n s, List.length s <= n -> no_fence (remove_all fence 0 s)) as H.
  { induction n as [| n IH]; intros [| c s'] Hlen; try reflexivity; [simpl in Hlen; lia |].
    simpl in Hlen. rewrite remove_all_step, fence_match.
    destruct (Js.is_prefix three (c :: s')) eqn:Hp.
    - apply IH.
      destruct (drop 3 (c :: s')) as [| x r]; [simpl; rewrite length_drop; lia |].
      destruct (ascii_dec x line_feed); simpl; rewrite length_drop; lia.
    - apply no_fence_cons; [| apply IH; lia].
      pose proof (remove_fence_front s') as Hfront.
      unfold three, backquote in *. cbn -[ascii_dec remove_all] in *.
      destruct (ascii_dec "`" c) as [<- | Hc]; [| reflexivity].
      rewrite Hfront; [reflexivity |].
      destruct s' as [| a [| b s'']]; decide_chars. }
  now apply (H (List.length s)).
Qed.

Lemma drop_ws_suffix l : exists a, l = a ++ Js.drop_ws l.
Proof.
  induction l as [| c l [a IH]]; simpl; [now exists [] |].
  destruct (Js.is_space c); [| now exists []].
  exists (c :: a). simpl. now rewrite <- IH.
Qed.

(** [trim] returns a part of the text. *)
Lemma trim_part l :
  exists a b, l = a ++ rev (Js.drop_ws (rev (Js.drop_ws l))) ++ b.
Proof.
  destruct (drop_ws_suffix l) as [a Ha].
  destruct (drop_ws_suffix (rev (Js.drop_ws l))) as [b Hb].
  exists a, (rev b). rewrite <- rev_app_distr, <- Hb, rev_involutive. assumption.
Qed.

(** X22: what [cleanSQLResponse] returns holds no run of three
    backquotes. *)
Theorem cleaned_response_has_no_fence response :
  Js.includes (cleanSQLResponse response) "```" = false.
Proof.
  unfold cleanSQLResponse, Js.trim, Js.includes. rewrite !chars_str.
  set (cut := remove_all fence 0 _).
  pose proof (remove_fence_no_fence (remove_all sql_fence 0 (Js.chars response))) as Hcut.
  fold cut in Hcut. unfold no_fence in Hcut.
  destruct (trim_part cut) as (a & b & Hab).
  change (Js.chars "```") with three.
  destruct (Js.includes_chars (rev _) three) eqn:Hinc; [| reflexivity].
  apply includes_chars_spec in Hinc as (a' & b' & Hinc).
  assert (Js.includes_chars cut three = true) as Htrue.
  { apply includes_chars_spec. exists (a ++ a'), (b' ++ b).
    rewrite Hab at 1. rewrite Hinc. now rewrite <- !app_assoc. }
  congruence.
Qed.

(** A text without backquotes passes a replacement whose pattern opens
    with one. *)
Lemma remove_all_free r body after :
  forallb (fun c => if ascii_dec c backquote then false else true) body = true ->
  remove_all (Cat (Chr backquote) r) 0 (body ++ after)
  = body ++ remove_all (Cat (Chr backquote) r) 0 after.
Proof.
  induction body as [| c body IH]; intros H; [reflexivity |].
  simpl in H. destruct (ascii_dec c backquote) as [| Hc]; [discriminate |].
  change ((c :: body) ++ after) with (c :: body ++ after).
  rewrite remove_all_step, match_here_first by assumption.
  now rewrite IH.
Qed.

Lemma drop_ws_app_space l x :
  Js.is_space x = true ->
  Js.drop_ws (l ++ [x])
  = match Js.drop_ws l with [] => [] | c :: d => (c :: d) ++ [x] end.
Proof.
  intros Hx. induction l as [| c l IH]; simpl; [now rewrite Hx |].
  destruct (Js.is_space c); [assumption | reflexivity].
Qed.

Lemma trim_line_feed l :
  rev (Js.drop_ws (rev (Js.drop_ws (l ++ [line_feed]))))
  = rev (Js.drop_ws (rev (Js.drop_ws l))).
Proof.
  rewrite drop_ws_app_space by reflexivity.
  destruct (Js.drop_ws l) as [| c d]; [reflexivity |].
  rewrite rev_app_distr. reflexivity.
Qed.

Lemma sql_fence_free body after :
  forallb (fun c => if ascii_dec c backquote then false else true) body = true ->
  remove_all sql_fence 0 (body ++ after) = body ++ remove_all sql_fence 0 after.
Proof.
  assert (exists r, sql_fence = Cat (Chr backquote) r) as [r ->]
      by (eexists; reflexivity).
  apply remove_all_free.
Qed.

Lemma fence_free body after :
  forallb (fun c => if ascii_dec c backquote then false else true) body = true ->
  remove_all fence 0 (body ++ after) = body ++ remove_all fence 0 after.
Proof.
  assert (exists r, fence = Cat (Chr backquote) r) as [r ->]
      by (eexists; reflexivity).
  apply remove_all_free.
Qed.

(** X23: a response without backquotes is only trimmed. *)
Theorem plain_answer_is_trimmed response :
  backquote_free response -> cleanSQLResponse response = Js.trim response.
Proof.
  unfold backquote_free, cleanSQLResponse. intros H.
  rewrite <- (app_nil_r (Js.chars response)).
  rewrite sql_fence_free, fence_free by assumption.
  change (remove_all sql_fence 0 []) with (@nil ascii).
  change (remove_all fence 0 []) with (@nil ascii).
  rewrite app_nil_r. unfold Js.str. now rewrite string_of_list_ascii_of_string.
Qed.

Lemma lower_tag tag :
  Js.toLowerCase tag = "sql" ->
  exists t1 t2 t3,
    Js.chars tag = [t1; t2; t3]
    /\ Js.lower_char t1 = "s"%char /\ Js.lower_char t2 = "q"%char
    /\ Js.lower_char t3 = "l"%char.
Proof.
  intros H. apply (f_equal Js.chars) in H. rewrite toLowerCase_chars in H.
  destruct (Js.chars tag) as [| t1 [| t2 [| t3 [| t4 r]]]]; try discriminate.
  injection H as H1 H2 H3. eauto 10.
Qed.

(** X24: a response that consists of an opening fence with the tag [sql]
    in any case, a body without backquotes and a closing fence, each on a
    line of its own, is returned as the trimmed body. *)
Theorem fenced_answer_is_unwrapped tag body :
  Js.toLowerCase tag = "sql" ->
  backquote_free body ->
  cleanSQLResponse
    ("```" +:+ tag +:+ Analyzer.newline +:+ body +:+ Analyzer.newline +:+ "```")
  = Js.trim body.
Proof.
  intros Htag Hbody. unfold backquote_free in Hbody.
  destruct (lower_tag tag Htag) as (t1 & t2 & t3 & Hchars & H1 & H2 & H3).
  unfold cleanSQLResponse. rewrite !chars_append, Hchars.
  change (Js.chars "```") with three.
  change (Js.chars Analyzer.newline) with [line_feed].
  assert (remove_all sql_fence 0
            (three ++ [t1; t2; t3] ++ [line_feed] ++ Js.chars body ++ [line_feed] ++ three)
          = Js.chars body ++ [line_feed] ++ three) as ->.
  { unfold three. cbn [app]. rewrite remove_all_step.
    assert (match_here sql_fence
              (backquote :: backquote :: backquote :: t1 :: t2 :: t3 :: line_feed
                 :: Js.chars body ++ line_feed :: [backquote; backquote; backquote])
            = Some (Result [backquote; backquote; backquote; t1; t2; t3; line_feed]
                           (Js.chars body ++ line_feed :: [backquote; backquote; backquote])
                           [])) as ->.
    { unfold match_here, sql_fence, lit, either_case, backquote, line_feed.
      repeat (cbn -[ascii_dec Js.lower_char]; rewrite ?H1, ?H2, ?H3;
              match goal with
              | |- context [ascii_dec ?x ?y] =>
                  destruct (ascii_dec x y) as [_ | Hn];
                  [| exfalso; apply Hn; reflexivity]
              end).
      reflexivity. }
    cbn [consumed List.length pred drop]. rewrite drop_0.
    rewrite sql_fence_free by assumption.
    reflexivity. }
  rewrite fence_free by assumption.
  change (remove_all fence 0 ([line_feed] ++ three)) with [line_feed].
  unfold Js.trim. rewrite chars_str. now rewrite trim_line_feed.
Qed.

End FenceFacts.

(** * Examples *)

Import Analyzer Examples Spec.

Lemma zed_index_ready : ready zed_index.
Proof. split; reflexivity. Qed.

(** C8, as stated, fails: [Zed] has the nonzero vector score 1/4, no keyword
    of the query occurs in its text and nothing is related to it, and
    [explainSelection] returns no entry for it. *)
Lemma explainSelection_omits_nonzero_score :
  exists s,
    VectorSearch.getScores half_pipeline zed_index "hello" = Returned [s]
    /\ VectorSearch.s_name s = "Zed"
    /\ ~ (VectorSearch.score s == 0)%Q
    /\ HybridRetrieval.explainSelection half_pipeline percent zed_engine "hello"
       = Returned [].
Proof.
  eexists. split; [vm_compute; reflexivity |].
  split; [reflexivity |]. split; [| vm_compute; reflexivity].
  simpl. intros H. discriminate H.
Qed.

(** A snapshot that lists Zed before Alpha, and a query that is close to
    Alpha (score 4/5) and names Zed (score 1/5): the diagnostic view has
    the entry of Alpha, for its score, before the entry of Zed, for the
    keyword. *)
Lemma explainSelection_entries_witness :
  map name (HybridRetrieval.allModels axis_engine) = ["Zed"; "Alpha"]
  /\ exists vectorScores entries,
       VectorSearch.getScores axis_pipeline (HybridRetrieval.vectorSearch axis_engine)
         "zed" = Returned vectorScores
       /\ map VectorSearch.s_name vectorScores = ["Alpha"; "Zed"]
       /\ Shape.descending vectorScores
       /\ HybridRetrieval.explainSelection axis_pipeline one_decimal axis_engine "zed"
          = Returned entries
       /\ map HybridRetrieval.model entries = ["Alpha"; "Zed"]
       /\ map HybridRetrieval.reason entries
          = ["high semantic similarity (80.0%)"; "keyword match in name/columns"].
Proof.
  split; [reflexivity |].
  destruct (explainSelection_entries axis_pipeline one_decimal axis_engine "zed")
    as (vectorScores & vectorResults & Hscores & _ & Hdesc & _ & Hrun & _).
  { split; reflexivity. }
  exists vectorScores. eexists.
  split; [exact Hscores |].
  assert (vectorScores
          = VectorSearch.sort_desc
              (VectorSearch.all_scores (HybridRetrieval.vectorSearch axis_engine)
                 (axis_pipeline "zed"))) as E.
  { vm_compute in Hscores. injection Hscores as <-. vm_compute. reflexivity. }
  split; [rewrite E; vm_compute; reflexivity |].
  split; [exact Hdesc |].
  split; [vm_compute; reflexivity |].
  split; vm_compute; reflexivity.
Defined.

(** C7: a second call of [initialize] with a model list of the length of the
    held one returns at once.  After [initialize [Alpha]], the call
    [initialize [Beta]] leaves the index as it was: it still holds the
    embedding of [Alpha], holds none for [Beta], differs from the index a
    rebuild from [[Beta]] gives, and answers a query with the stale
    [Alpha]. *)
Lemma initialize_same_length_keeps_stale_index :
  let first := VectorSearch.initialize length_pipeline VectorSearch.new [Alpha] in
  let second := VectorSearch.initialize length_pipeline first [Beta] in
  second = first
  /\ map fst (VectorSearch.modelEmbeddings second) = ["Alpha"]
  /\ VectorSearch.models second = [Alpha]
  /\ map fst (VectorSearch.modelEmbeddings
                (VectorSearch.initialize length_pipeline VectorSearch.new [Beta]))
     = ["Beta"]
  /\ VectorSearch.findRelevant length_pipeline second "beta" 5 (1 # 4) = Returned [Alpha].
Proof. repeat split; vm_compute; reflexivity. Qed.


(** The vector signal ranks Alpha before Gamma; the result lists Gamma
    before Alpha, as the snapshot does. *)
Lemma findRelevant_snapshot_order_witness :
  VectorSearch.findRelevant length_pipeline (HybridRetrieval.vectorSearch scored_engine)
    "gamma" 5 (1 # 4)
  = Returned [Alpha; Gamma]
  /\ exists l,
       HybridRetrieval.findRelevant length_pipeline scored_engine "gamma"
         HybridRetrieval.no_options = Returned l
       /\ l = [Gamma; Alpha]
       /\ l `sublist_of` HybridRetrieval.allModels scored_engine.
Proof.
  split; [vm_compute; reflexivity |].
  destruct (findRelevant_snapshot_order length_pipeline scored_engine "gamma"
              HybridRetrieval.no_options) as (l & Hl & Heq & Hsub & _).
  { split; reflexivity. }
  exists l. split; [exact Hl |]. split; [| exact Hsub].
  rewrite Heq. vm_compute. reflexivity.
Defined.


(** In that snapshot the query selects Alpha and its neighbour Beta, and
    not Gamma, which is two hops away. *)
Lemma chain_query_stops_after_one_hop :
  HybridRetrieval.findRelevant zero_pipeline chain_engine "alpha" HybridRetrieval.no_options
  = Returned [Alpha; Beta].
Proof. vm_compute. reflexivity. Qed.

(** With [associations.js] present, the declaration of [index.js] for Order,
    an entity the dedicated file does not mention, is not in the map; without
    the dedicated file it is. *)
Lemma dedicated_file_supersedes_index_witness :
  (exists content,
      (readFile both_tiers "associations.js" = Some content
       \/ (readFile both_tiers "associations.js" = None
           /\ readFile both_tiers "associations.ts" = Some content))
      /\ parseCentralizedAssociations association_parse no_scope_error both_tiers
         = parseCentralizedAssociationFile association_parse no_scope_error content
      /\ forall dir',
           readFile dir' "associations.js" = readFile both_tiers "associations.js" ->
           readFile dir' "associations.ts" = readFile both_tiers "associations.ts" ->
           parseCentralizedAssociations association_parse no_scope_error dir'
           = parseCentralizedAssociations association_parse no_scope_error both_tiers)
  /\ fst (parseCentralizedAssociations association_parse no_scope_error both_tiers) !! "Order" = None
  /\ fst (parseCentralizedAssociations association_parse no_scope_error
            [("index.js", order_belongsTo_user)]) !! "Order"
     = Some [new_association "belongsTo" "User"].
Proof.
  split; [| split; vm_compute; reflexivity].
  apply (dedicated_file_supersedes_index association_parse no_scope_error both_tiers).
  left. eexists. reflexivity.
Defined.

(** C3: the merge is meant to leave no two associations of one key on an
    entity (its comment reads: remove duplicates), and misses the duplicates
    among the centralized declarations, because the set of keys is computed
    once, before the filter.  For the project with [User.js], whose text
    declares no association, and the two index files, which both declare
    that User has many Post, the snapshot holds that association twice, with
    one key; the same declaration made once in the file and once in an index
    file is kept once. *)
Lemma centralized_duplicates_survive_the_merge :
  (exists s,
      analyzeProject model_parse no_scope_error join_slash (project doubled_index)
        "project" = (Returned s, [])
      /\ map name (models s) = ["User"]
      /\ map associations (models s) = [[has_many_post; has_many_post]]
      /\ map (map dedup_key) (map associations (models s))
         = [["hasMany-Post-"; "hasMany-Post-"]])
  /\ parseAssociations user_model = []
  /\ fst (parseCentralizedAssociations model_parse no_scope_error doubled_index)
       !! "User" = Some [has_many_post; has_many_post]
  /\ map associations
       (mergeCentralizedAssociations
          [entity "User" [new_column "id"] [has_many_post]]
          {[ "User" := [has_many_post] ]})
     = [[has_many_post]].
Proof.
  split; [eexists; repeat split; vm_compute; reflexivity |].
  repeat split; vm_compute; reflexivity.
Qed.

(** Two centralized declarations with one key are both appended, the second
    although the first, merged in the same pass, shares its key. *)
Lemma merge_keeps_centralized_duplicates :
  map associations
      (mergeCentralizedAssociations [Zed] {[ "Zed" := [has_many_post; has_many_post] ]})
  = [[has_many_post; has_many_post]]
  /\ dedup_key has_many_post = "hasMany-Post-".
Proof. split; vm_compute; reflexivity. Qed.

(** The example of the specification: an in-file [belongsTo Order] with the
    alias [order] and a centralized declaration with the same key give one
    association. *)
Lemma merge_drops_in_file_duplicate :
  map associations
      (mergeCentralizedAssociations [Item]
         {[ "Item" := [set_foreignKey belongs_to_order "orderId"] ]})
  = [[belongs_to_order]].
Proof. vm_compute. reflexivity. Qed.

(** C4, as stated, fails when no file is well-formed: here N = 0 and M = 1,
    and [analyzeProject] throws instead of yielding zero entities. *)
Lemma analyzeProject_throws_without_entities :
  analyzeProject model_parse no_scope_error join_slash (project broken_only) "project"
  = (Thrown "No valid Sequelize models found",
     [ModelFileFailed "broken.js" "Unexpected token"])
  /\ List.filter (well_formed_file model_parse no_scope_error broken_only)
                 (List.filter is_model_file (map fst broken_only)) = []
  /\ List.filter (malformed_file model_parse no_scope_error broken_only)
                 (List.filter is_model_file (map fst broken_only)) = ["broken.js"].
Proof. repeat split; vm_compute; reflexivity. Qed.

(** A directory with two well-formed files, a file that does not parse, a
    file that parses and fails in [traverse], and a file without fields:
    two entities and two diagnostics. *)
Lemma analyzeProject_counts_witness :
  (List.filter is_model_file (map fst shop_files)
   = ["u.ts"; "user.js"; "broken.js"; "order.js"; "helper.js"]
   /\ List.filter (well_formed_file shop_parse duplicate_declaration shop_files)
        (List.filter is_model_file (map fst shop_files))
      = ["user.js"; "order.js"]
   /\ List.filter (malformed_file shop_parse duplicate_declaration shop_files)
        (List.filter is_model_file (map fst shop_files))
      = ["u.ts"; "broken.js"]
   /\ analyzeProject shop_parse duplicate_declaration join_slash (project shop_files)
        "project"
      = (Returned shop_snapshot,
         [ModelFileFailed "u.ts" "Duplicate declaration U";
          ModelFileFailed "broken.js" "Unexpected token"]))
  /\ (List.length
        (fst (scan shop_parse duplicate_declaration shop_files
                (List.filter is_model_file (map fst shop_files)))) = 2
      /\ List.length
           (snd (scan shop_parse duplicate_declaration shop_files
                   (List.filter is_model_file (map fst shop_files)))) = 2)
  /\ (exists s log,
        analyzeProject shop_parse duplicate_declaration join_slash (project shop_files)
          "project"
        = (Returned s, log)
        /\ List.length (models s) = 2
        /\ List.length (List.filter is_model_file_failure log) = 2)
  /\ entity_of shop_parse duplicate_declaration shop_files "helper.js" = None
  /\ failure_of shop_parse duplicate_declaration shop_files "helper.js" = None.
Proof.
  split; [repeat split; vm_compute; reflexivity |].
  pose proof (analyzeProject_counts shop_parse duplicate_declaration join_slash
                (project shop_files) "project" shop_files eq_refl) as H.
  cbv zeta in H. destruct H as (Hscan & Hpos & _ & _ & Hfile).
  split; [exact Hscan |]. split; [apply Hpos; vm_compute; lia |].
  apply (Hfile "helper.js").
  - vm_compute. repeat constructor.
  - vm_compute. reflexivity.
  - vm_compute. reflexivity.
Defined.

(** C9, as stated, fails: [user.js] and [user.ts] are two files of one
    directory, and both give an entity named [user]. *)
Lemma twin_files_share_a_name :
  exists s log,
    analyzeProject model_parse no_scope_error join_slash (project twin_files) "project" = (Returned s, log)
    /\ map name (models s) = ["user"; "user"]
    /\ map fst twin_files = ["user.js"; "user.ts"].
Proof. do 2 eexists. split; [vm_compute; reflexivity |]. split; reflexivity. Qed.

(** A directory of five definition files with five different names: the
    two well-formed ones give the two entities, in directory order and with
    different names; [u.ts], on which [traverse] throws, gives none. *)
Lemma entity_names_follow_file_names_witness :
  map stem (List.filter is_model_file (map fst shop_files))
  = ["u"; "user"; "broken"; "order"; "helper"]
  /\ List.filter (well_formed_file shop_parse duplicate_declaration shop_files)
       (List.filter is_model_file (map fst shop_files))
     = ["user.js"; "order.js"]
  /\ map name (models shop_snapshot) = ["user"; "order"]
  /\ NoDup (map name (models shop_snapshot)).
Proof.
  destruct (entity_names_follow_file_names shop_parse duplicate_declaration join_slash
              (project shop_files) "project" shop_files shop_snapshot
              [ModelFileFailed "u.ts" "Duplicate declaration U";
               ModelFileFailed "broken.js" "Unexpected token"])
    as [Hnames Hunique].
  - reflexivity.
  - vm_compute. reflexivity.
  - split; [vm_compute; reflexivity |]. split; [vm_compute; reflexivity |].
    split; [rewrite Hnames; vm_compute; reflexivity |]. apply Hunique.
    apply (bool_decide_unpack _). vm_compute. exact I.
Defined.

(** ** Examples of the further properties *)

Import Shape.

(** The relation of [index.js] comes first, whatever the order of the two
    files in the directory. *)
Lemma index_files_are_concatenated_witness :
  fst (parseCentralizedAssociations association_parse no_scope_error index_pair) !! "Order"
  = match file_associations association_parse no_scope_error index_pair "index.js" !! "Order",
          file_associations association_parse no_scope_error index_pair "index.ts" !! "Order" with
    | None, None => None
    | js, ts => Some (default [] js ++ default [] ts)
    end.
Proof.
  apply (index_files_are_concatenated association_parse no_scope_error index_pair "Order");
    reflexivity.
Defined.

Lemma parsed_columns_are_proper_witness :
  parseColumns model_parse no_scope_error user_model = Returned (columns user_entity)
  /\ forall col, col ∈ columns user_entity -> proper_column col.
Proof.
  assert (parseColumns model_parse no_scope_error user_model = Returned (columns user_entity)) as E
      by (vm_compute; reflexivity).
  split; [exact E |].
  exact (parsed_columns_are_proper model_parse no_scope_error user_model (columns user_entity) E).
Defined.

(** The file [order.js] declares the table name [orders], and the word
    [tableName:] does not occur before that declaration. *)
Lemma parsed_entity_shape_witness :
  parseModelFile shop_parse duplicate_declaration order_model "order.js"
  = Returned (Some order_entity)
  /\ name order_entity = stem "order.js"
  /\ parseColumns shop_parse duplicate_declaration order_model
     = Returned (columns order_entity)
  /\ columns order_entity <> []
  /\ associations order_entity = parseAssociations order_model
  /\ description order_entity = None
  /\ order_model
     = "sequelize.define('Order', { id: { type: DataTypes.INTEGER } }, { "
       +:+ "tableName: 'orders' });"
  /\ tableName order_entity = "orders".
Proof.
  assert (parseModelFile shop_parse duplicate_declaration order_model "order.js"
          = Returned (Some order_entity)) as E by (vm_compute; reflexivity).
  destruct (parsed_entity_shape shop_parse duplicate_declaration order_model "order.js"
              order_entity E) as (Hn & Hc & Hne & Ha & Hd & Hfirst & _).
  repeat (split; [assumption || reflexivity |]).
  apply (Hfirst
           (Js.chars "sequelize.define('Order', { id: { type: DataTypes.INTEGER } }, { ")
           (Js.chars "tableName: 'orders' });")
           (Js.chars "orders")).
  - reflexivity.
  - exists [" "%char], "'"%char, "'"%char, (Js.chars " });").
    repeat split; reflexivity || discriminate.
  - apply declaration_is_first; [reflexivity | vm_compute; reflexivity].
Defined.

Lemma bare_call_is_extracted_witness :
  parseAssociations ("User" +:+ "." +:+ "hasMany" +:+ "(" +:+ "Post" +:+ ")" +:+ ";")
  = [new_association "hasMany" "Post"].
Proof.
  apply (bare_call_is_extracted "hasMany" "Post" "User" ";").
  - apply list_elem_of_here.
  - split; [discriminate | reflexivity].
  - reflexivity.
  - reflexivity.
Defined.

Lemma getScores_descending_witness :
  exists l,
    VectorSearch.getScores length_pipeline
      (HybridRetrieval.vectorSearch scored_engine) "gamma" = Returned l
    /\ l ≡ₚ VectorSearch.all_scores (HybridRetrieval.vectorSearch scored_engine)
              (length_pipeline "gamma")
    /\ descending l.
Proof.
  apply (getScores_descending length_pipeline
           (HybridRetrieval.vectorSearch scored_engine) "gamma").
  reflexivity.
Defined.

Lemma vector_hits_are_bounded_witness :
  VectorSearch.findRelevant length_pipeline (HybridRetrieval.vectorSearch scored_engine)
    "gamma" 5 (1 # 4) = Returned [Alpha; Gamma]
  /\ List.length [Alpha; Gamma] <= Z.to_nat 5
  /\ forall m, m ∈ [Alpha; Gamma] ->
       m ∈ VectorSearch.models (HybridRetrieval.vectorSearch scored_engine)
       /\ exists embedding,
            (name m, embedding)
              ∈ VectorSearch.modelEmbeddings (HybridRetrieval.vectorSearch scored_engine)
            /\ (1 # 4 <= VectorSearch.cosineSimilarity (length_pipeline "gamma") embedding)%Q.
Proof.
  assert (VectorSearch.findRelevant length_pipeline
            (HybridRetrieval.vectorSearch scored_engine) "gamma" 5 (1 # 4)
          = Returned [Alpha; Gamma]) as E by (vm_compute; reflexivity).
  destruct (vector_hits_are_bounded length_pipeline
              (HybridRetrieval.vectorSearch scored_engine) "gamma" 5 (1 # 4)%Q _ E)
    as (Hpos & _ & Hmem).
  split; [exact E |]. split; [apply Hpos; lia | exact Hmem].
Defined.

(** With [topK] at -1 the same search leaves the last hit out. *)
Lemma negative_topK_cuts_the_tail :
  VectorSearch.findRelevant length_pipeline (HybridRetrieval.vectorSearch scored_engine)
    "gamma" (-1) (1 # 4) = Returned [Alpha].
Proof. vm_compute. reflexivity. Qed.

(** Two entities of one name leave one index entry. *)
Lemma index_after_rebuild_witness :
  VectorSearch.models
    (VectorSearch.initialize length_pipeline VectorSearch.new [user_entity; user_entity])
  = [user_entity; user_entity]
  /\ map fst (VectorSearch.modelEmbeddings
                (VectorSearch.initialize length_pipeline VectorSearch.new
                   [user_entity; user_entity]))
     = Ordered.of_list (map name [user_entity; user_entity])
  /\ NoDup (map fst (VectorSearch.modelEmbeddings
                       (VectorSearch.initialize length_pipeline VectorSearch.new
                          [user_entity; user_entity])))
  /\ forall n e,
       (n, e) ∈ VectorSearch.modelEmbeddings
                  (VectorSearch.initialize length_pipeline VectorSearch.new
                     [user_entity; user_entity])
       <-> exists m, VectorSearch.find_model n (rev [user_entity; user_entity]) = Some m
                     /\ e = length_pipeline (VectorSearch.modelToSearchableText m).
Proof.
  apply (index_after_rebuild length_pipeline VectorSearch.new [user_entity; user_entity]).
  left. reflexivity.
Defined.

Lemma embedding_text_is_indexed_witness :
  ("Zed", half_pipeline (VectorSearch.modelToSearchableText Zed))
    ∈ VectorSearch.modelEmbeddings
        (VectorSearch.initialize half_pipeline VectorSearch.new [Zed]).
Proof.
  apply (embedding_text_is_indexed half_pipeline [Zed] "Zed"
           (VectorSearch.modelToSearchableText Zed)).
  - apply NoDup_singleton.
  - reflexivity.
Defined.

Lemma keywords_are_plain_words_witness :
  2 < Js.length "orders" /\ ("orders" ∉ HybridRetrieval.stopWords)
  /\ forallb Js.is_word (Js.chars "orders") = true
  /\ Js.toLowerCase "orders" = "orders"
  /\ Js.includes (Js.toLowerCase "Show the Orders!") "orders" = true.
Proof.
  apply (keywords_are_plain_words "Show the Orders!" "orders").
  assert (HybridRetrieval.extractKeywords "Show the Orders!" = ["orders"]) as ->
      by (vm_compute; reflexivity).
  apply list_elem_of_here.
Defined.

Lemma expansion_only_adds_witness :
  exists l_off l_on,
    HybridRetrieval.findRelevant zero_pipeline chain_engine "alpha"
      (without_related HybridRetrieval.no_options) = Returned l_off
    /\ HybridRetrieval.findRelevant zero_pipeline chain_engine "alpha"
         HybridRetrieval.no_options = Returned l_on
    /\ l_off `sublist_of` l_on
    /\ l_on `sublist_of` HybridRetrieval.allModels chain_engine.
Proof.
  apply (expansion_only_adds zero_pipeline chain_engine "alpha" HybridRetrieval.no_options).
  split; reflexivity.
Defined.

Lemma retrieval_needs_the_index_witness :
  HybridRetrieval.findRelevant half_pipeline fresh_engine "hello" HybridRetrieval.no_options
  = Thrown "VectorSearch not initialized"
  /\ HybridRetrieval.explainSelection half_pipeline percent fresh_engine "hello"
     = Thrown "this.embedder is not a function".
Proof.
  apply (retrieval_needs_the_index half_pipeline percent fresh_engine "hello"
           HybridRetrieval.no_options); reflexivity.
Defined.

Lemma snapshot_entities_are_proper_witness :
  analyzeProject model_parse no_scope_error join_slash (project mixed_files) "project"
  = (Returned user_snapshot, [ModelFileFailed "broken.js" "Unexpected token"])
  /\ forall m, m ∈ models user_snapshot ->
       columns m <> []
       /\ (forall col, col ∈ columns m -> proper_column col)
       /\ description m = None.
Proof.
  assert (analyzeProject model_parse no_scope_error join_slash (project mixed_files) "project"
          = (Returned user_snapshot, [ModelFileFailed "broken.js" "Unexpected token"]))
    as E by (vm_compute; reflexivity).
  split; [exact E |].
  exact (snapshot_entities_are_proper model_parse no_scope_error join_slash (project mixed_files)
           "project" user_snapshot _ E).
Defined.

Lemma reload_after_create_witness :
  reload model_parse no_scope_error join_slash parent (project mixed_files) user_watchable
  = (user_watchable, Returned tt, [ModelFileFailed "broken.js" "Unexpected token"]).
Proof.
  apply (reload_after_create model_parse no_scope_error join_slash parent (project mixed_files)
           "project").
  - reflexivity.
  - vm_compute. reflexivity.
Defined.

Lemma description_is_concatenated_witness :
  generateSchemaDescription ([Alpha] ++ [Beta])
  = generateSchemaDescription [Alpha] +:+ newline +:+ generateSchemaDescription [Beta]
  /\ exists body, generateSchemaDescription [Alpha] = body +:+ newline.
Proof.
  apply (description_is_concatenated [Alpha] [Beta]); discriminate.
Defined.

Lemma handleQuery_keeps_exchanges_witness :
  paired (fst (Chat.handleQuery half_pipeline fixed_llm "hello" user_watchable []
                 zed_index))
  /\ List.length (fst (Chat.handleQuery half_pipeline fixed_llm "hello" user_watchable []
                         zed_index)) <= 20
  /\ Chat.handleQuery half_pipeline fixed_llm "hello" user_watchable [] zed_index
     = ([{| OpenRouter.role := OpenRouter.user; OpenRouter.content := "hello" |};
         {| OpenRouter.role := OpenRouter.assistant;
            OpenRouter.content := "SELECT 1;" |}], None).
Proof.
  destruct (handleQuery_keeps_exchanges half_pipeline fixed_llm "hello" user_watchable []
              zed_index) as (Hp & Hl & _).
  - exact I.
  - simpl. lia.
  - split; [exact Hp |]. split; [exact Hl |]. vm_compute. reflexivity.
Defined.

Lemma plain_answer_is_trimmed_witness :
  OpenRouter.cleanSQLResponse " SELECT 1; " = Js.trim " SELECT 1; ".
Proof.
  apply (plain_answer_is_trimmed " SELECT 1; "). reflexivity.
Defined.

Lemma fenced_answer_is_unwrapped_witness :
  OpenRouter.cleanSQLResponse
    ("```" +:+ "SQL" +:+ newline +:+ "SELECT 1;" +:+ newline +:+ "```")
  = Js.trim "SELECT 1;".
Proof.
  apply (fenced_answer_is_unwrapped "SQL" "SELECT 1;"); reflexivity.
Defined.
